(** * twixread: reading Siemens twix (.dat) files into a dense array

    A shallow embedding of [src/twixread.c] and the properties its
    specification states about it.

    The input file is a list of bytes, the descriptor is its read position,
    and the code that reads, seeks and aborts is written in a state monad
    whose failures keep the state the process had when it stopped. *)

From Stdlib Require Import ZArith Strings.Byte.
From stdpp Require Import base tactics option list numbers strings.

Local Open Scope Z_scope.

(** ** Raw bytes and little-endian fields

    The program reads its structures with [read] and [memcpy] straight into
    C structs, so every field is the little-endian value of the bytes at the
    field's offset (the layout of the platform the files are written on). *)

Definition byte_val (b : byte) : Z := Z.of_N (Byte.to_N b).

Fixpoint le_uint (bs : list byte) : Z :=
  match bs with
  | [] => 0
  | b :: bs' => byte_val b + 256 * le_uint bs'
  end.

(** The [n]-byte unsigned field at byte offset [off] of a block. *)
Definition field (off n : nat) (bs : list byte) : Z :=
  le_uint (take n (drop off bs)).

(** The bytes [p, p + n) of a file, fewer when the file ends before. *)
Definition slice (file : list byte) (p n : nat) : list byte :=
  take n (drop p file).

#[global] Instance byte_eq_dec : EqDecision byte := Byte.byte_eq_dec.

(** Two files of equal length that differ, if at all, at bytes of
    [region] only. *)
Definition differ_only (region : nat → bool) (f1 f2 : list byte) : bool :=
  (length f1 =? length f2)%nat
  && forallb (λ i, region i || bool_decide (f1 !! i = f2 !! i))
       (seq 0 (length f1)).

(** [complex float]: eight raw bytes, the real part's four then the
    imaginary part's four.  Keeping the bytes makes "bit-identical" literal. *)
Definition cfl : Type := list byte.

Definition CFL_SIZE : nat := 8.

Definition cfl_zero : cfl := replicate CFL_SIZE x00.

Fixpoint cfl_chunks (n : nat) (bs : list byte) : list cfl :=
  match n with
  | O => []
  | S n' => take CFL_SIZE bs :: cfl_chunks n' (drop CFL_SIZE bs)
  end.

(** ** The process state *)

(** The output array is addressed by full-rank coordinates. *)
Definition cfl_array : Type := list Z → cfl.

Record state := State {
  fd_pos : nat;          (* read position of the input descriptor *)
  buf : list cfl;        (* the per-record block, [md_alloc]ed by main *)
  out : cfl_array        (* the output array, created by main *)
}.

Definition set_fd_pos (p : nat) (s : state) : state :=
  State p (buf s) (out s).

Definition set_buf (b : list cfl) (s : state) : state :=
  State (fd_pos s) b (out s).

Definition set_out (o : cfl_array) (s : state) : state :=
  State (fd_pos s) (buf s) o.

(** The ways the program stops early: the three calls of [error] and the
    failed [assert]. *)
Inductive fatal :=
  | ReadingFile        (* error("reading file") *)
  | Seeking            (* error("seeking") *)
  | WrongSamples       (* error("wrong number of samples") *)
  | NotAnIndex.        (* assert(md_is_index(DIMS, pos, dims)) *)

Inductive result (A : Type) :=
  | Ok (a : A) (s : state)
  | Fatal (e : fatal) (s : state).
Arguments Ok {A} a s.
Arguments Fatal {A} e s.

Definition M (A : Type) : Type := state → result A.

#[global] Instance M_ret : MRet M := λ A a s, Ok a s.

#[global] Instance M_bind : MBind M := λ A B f m s,
  match m s with
  | Ok a s' => f a s'
  | Fatal e s' => Fatal e s'
  end.

Definition error {A} (e : fatal) : M A := λ s, Fatal e s.

Definition modify (f : state → state) : M unit := λ s, Ok () (f s).

(** [n] rounds of [m], one after the other; a round that stops the
    program stops the rest. *)
Fixpoint times (n : nat) (m : M unit) : M unit :=
  match n with
  | O => mret ()
  | S n' => m;; times n' m
  end.

Definition final_state {A} (r : result A) : state :=
  match r with
  | Ok _ s => s
  | Fatal _ s => s
  end.

(** ** Reading and seeking *)

Section File.

Variable file : list byte.

(** [xread]: [read] on a regular file hands out the bytes between the
    position and the end of the file, at most [size] of them, and moves the
    position past them; anything short of [size] is an error. *)
Definition xread (size : nat) : M (list byte) := λ s,
  let got := slice file (fd_pos s) size in
  if decide (length got = size)
  then Ok got (set_fd_pos (fd_pos s + size)%nat s)
  else Fatal ReadingFile (set_fd_pos (fd_pos s + length got)%nat s).

(** [xseek]: [lseek] with [SEEK_SET] fails on a negative offset.  It also
    fails on an offset beyond the largest file size of the file system; here
    the file system sets no such limit within the range of [off_t], and
    [xseek_max] below has the limit as a parameter. *)
Definition xseek (pos : Z) : M unit := λ s,
  if decide (pos < 0)
  then Fatal Seeking s
  else Ok () (set_fd_pos (Z.to_nat pos) s).

(** ** The Header Detector: [siemens_meas_setup] *)

Record hdr_s := Hdr {
  offset : Z;     (* uint32_t *)
  nscans : Z;     (* uint32_t *)
  measid : Z;     (* uint32_t *)
  fileid : Z;     (* uint32_t *)
  datoff : Z      (* uint64_t *)
}.

(** [sizeof(struct hdr_s)]: four [uint32_t] and one [uint64_t], no padding. *)
Definition sizeof_hdr_s : nat := 24.

Definition hdr_of_bytes (b : list byte) : hdr_s :=
  Hdr (field 0 4 b) (field 4 4 b) (field 8 4 b) (field 12 4 b) (field 16 8 b).

Definition set_offset (v : Z) (h : hdr_s) : hdr_s :=
  Hdr v (nscans h) (measid h) (fileid h) (datoff h).

Definition set_nscans (v : Z) (h : hdr_s) : hdr_s :=
  Hdr (offset h) v (measid h) (fileid h) (datoff h).

(** [off_t] is a signed 64-bit integer; a sum that leaves its range wraps
    around, as the conversion from [uint64_t] does. *)
Definition to_off_t (z : Z) : Z := (z + 2 ^ 63) `mod` 2 ^ 64 - 2 ^ 63.

Definition siemens_meas_setup : M (bool * hdr_s) :=
  let start := 0 in
  xseek start;;
  b ← xread sizeof_hdr_s;
  let hdr := hdr_of_bytes b in
  (* check for VD version *)
  let vd := bool_decide (offset hdr < 10000) && bool_decide (nscans hdr < 64) in
  '(start, hdr) ←
    (if vd then
       let start := to_off_t (start + datoff hdr) in
       xseek start;;
       (* reread offset *)
       o ← xread 4;
       mret (start, set_offset (field 0 4 o) hdr)
     else
       mret (start, set_nscans 1 hdr));
  let start := to_off_t (start + offset hdr) in
  xseek start;;
  mret (vd, hdr).

End File.

(** ** Seeking on a file system with a largest file size

    [lseek] fails with [EINVAL] on a negative offset and on an offset
    beyond the largest file size [max] of the file system the file lies on;
    any offset in between is accepted, also one behind the end of the
    file. *)
Definition xseek_max (max : Z) (pos : Z) : M unit := λ s,
  if decide (pos < 0 ∨ max < pos)
  then Fatal Seeking s
  else Ok () (set_fd_pos (Z.to_nat pos) s).

(** The Header Detector on such a file system. *)
Definition siemens_meas_setup_max (max : Z) (file : list byte)
    : M (bool * hdr_s) :=
  let start := 0 in
  xseek_max max start;;
  b ← xread file sizeof_hdr_s;
  let hdr := hdr_of_bytes b in
  (* check for VD version *)
  let vd := bool_decide (offset hdr < 10000) && bool_decide (nscans hdr < 64) in
  '(start, hdr) ←
    (if vd then
       let start := to_off_t (start + datoff hdr) in
       xseek_max max start;;
       (* reread offset *)
       o ← xread file 4;
       mret (start, set_offset (field 0 4 o) hdr)
     else
       mret (start, set_nscans 1 hdr));
  let start := to_off_t (start + offset hdr) in
  xseek_max max start;;
  mret (vd, hdr).

(** Signed 64-bit arithmetic of [long], with the same wrap-around. *)
Definition to_long (z : Z) : Z := to_off_t z.

(** ** The axes of the output array

    [DIMS] and the [*_DIM] enumeration come from [misc/mri.h], which is not
    part of the sources at hand.  They are taken as parameters: any
    assignment of pairwise distinct axes below [DIMS] will do. *)
Class mri_dims := MriDims {
  DIMS : nat;
  READ_DIM : nat;
  PHS1_DIM : nat;
  PHS2_DIM : nat;
  COIL_DIM : nat;
  TE_DIM : nat;
  TIME_DIM : nat;
  TIME2_DIM : nat;
  SLICE_DIM : nat;
  mri_dims_distinct :
    NoDup [READ_DIM; PHS1_DIM; PHS2_DIM; COIL_DIM;
           TE_DIM; TIME_DIM; TIME2_DIM; SLICE_DIM];
  mri_dims_bound :
    Forall (λ d, d < DIMS)%nat
           [READ_DIM; PHS1_DIM; PHS2_DIM; COIL_DIM;
            TE_DIM; TIME_DIM; TIME2_DIM; SLICE_DIM]
}.

(** ** The array library, as far as the reader and the driver use it *)

Section Multind.

Context `{mri_dims}.

Definition READ_FLAG : Z := Z.shiftl 1 (Z.of_nat READ_DIM).
Definition COIL_FLAG : Z := Z.shiftl 1 (Z.of_nat COIL_DIM).

(** Modelled from the spec: [md_singleton_dims] of num/multind.h is missing;
    the output array has "unused singleton dimensions", so every extent
    starts as 1. *)
Definition md_singleton_dims (D : nat) : list Z := replicate D 1.

(** Modelled from the spec: [md_select_dims] of num/multind.h is missing;
    it "constructs a dimension-selection mask restricted to" the flagged
    axes: a flagged axis keeps its extent, every other axis is a singleton. *)
Definition md_select_dims (flags : Z) (idims : list Z) : list Z :=
  imap (λ i d, if Z.testbit flags (Z.of_nat i) then d else 1) idims.

(** Modelled from the spec: [md_is_index] of num/multind.h is missing; it
    "bounds-checks a coordinate against a shape". *)
Definition md_is_index (D : nat) (pos dims : list Z) : bool :=
  forallb (λ i, bool_decide (0 ≤ pos !!! i < dims !!! i)) (seq 0 D).

(** Modelled from the spec: [md_alloc] of num/multind.h is missing; it
    "allocates a zero-initialized dense buffer for a given shape". *)
Definition md_alloc (dims : list Z) : list cfl :=
  replicate (Z.to_nat (foldr Z.mul 1 dims)) cfl_zero.

(** Modelled from the spec: [create_cfl] of misc/mmio.h is missing; the
    container it creates starts out as zeros. *)
Definition create_cfl (dims : list Z) : cfl_array := λ _, cfl_zero.

(** Modelled from the spec: [md_copy_block] of num/multind.h is missing;
    "for each coil index and each read index,
    output[coordinate with read=r, coil=c, ...] = block[c * read_extent + r]",
    the block's extents being those of its shape [idims]; every other
    element of the output keeps its value.  The output is addressed by
    coordinates, so its shape [odims] plays no part here. *)
Definition md_copy_block (pos odims : list Z) (optr : cfl_array)
    (idims : list Z) (iptr : list cfl) : cfl_array := λ idx,
  let r := idx !!! READ_DIM in
  let c := idx !!! COIL_DIM in
  if bool_decide (0 ≤ r < idims !!! READ_DIM ∧ 0 ≤ c < idims !!! COIL_DIM ∧
                  idx = <[READ_DIM := r]> (<[COIL_DIM := c]> pos))
  then iptr !!! Z.to_nat (c * (idims !!! READ_DIM) + r)
  else optr idx.

(** The element of the output array that sample [r] of channel [c] of a
    block placed at [pos] goes to: [pos] with read = [r] and coil = [c]. *)
Definition block_index (pos : list Z) (c r : nat) : list Z :=
  <[READ_DIM := Z.of_nat r]> (<[COIL_DIM := Z.of_nat c]> pos).

End Multind.

(** ** The Record Reader: [siemens_adc_read] *)

Record mdh2 := Mdh2 {    (* second part of mdh *)
  evalinfo : list Z;     (* uint32_t [2] *)
  samples : Z;           (* uint16_t *)
  channels : Z;          (* uint16_t *)
  sLC : list Z;          (* uint16_t [14] *)
  dummy1 : list Z;       (* uint16_t [2] *)
  clmnctr : Z;           (* uint16_t *)
  dummy2 : list Z;       (* uint16_t [5] *)
  linectr : Z;           (* uint16_t *)
  partctr : Z            (* uint16_t *)
}.

Definition sizeof_mdh2 : nat := 60.

(** An array of [n] fields of [w] bytes each, starting at offset [off]. *)
Definition fields (off w n : nat) (b : list byte) : list Z :=
  (λ i, field (off + w * i) w b) <$> seq 0 n.

Definition mdh2_of_bytes (b : list byte) : mdh2 :=
  Mdh2 (fields 0 4 2 b) (field 8 2 b) (field 10 2 b) (fields 12 2 14 b)
       (fields 40 2 2 b) (field 44 2 b) (fields 46 2 5 b)
       (field 56 2 b) (field 58 2 b).

Section Reader.

Context `{mri_dims}.

Variable file : list byte.
Variable vd : bool.
Variable dims : list Z.

Definition sizeof_scan_hdr : nat := if vd then 192 else 0.
Definition sizeof_chan_hdr : nat := if vd then 32 else 128.

(** [memcpy(&mdh, vd ? (scan_hdr + 40) : (chan_hdr + 20), sizeof(mdh))] *)
Definition adc_mdh (scan_hdr chan_hdr : list byte) : mdh2 :=
  mdh2_of_bytes
    (take sizeof_mdh2 (if vd then drop 40 scan_hdr else drop 20 chan_hdr)).

(** The assignments made for the first channel. *)
Definition adc_pos (mdh : mdh2) (pos : list Z) : list Z :=
  let pos := <[PHS1_DIM := sLC mdh !!! 0%nat]> pos in   (* - mdh.linectr *)
  let pos := <[SLICE_DIM := sLC mdh !!! 2%nat]> pos in
  let pos := <[PHS2_DIM := sLC mdh !!! 3%nat]> pos in   (* - mdh.partctr *)
  let pos := <[TE_DIM := sLC mdh !!! 4%nat]> pos in
  let pos := <[TIME_DIM := sLC mdh !!! 6%nat]> pos in
  <[TIME2_DIM := sLC mdh !!! 7%nat]> pos.

(** [xread(fd, buf + off, n * CFL_SIZE)].  A read that falls short stops
    the program; what it may have stored by then is not kept. *)
Definition xread_cfl (off : Z) (n : Z) : M unit :=
  data ← xread file (Z.to_nat n * CFL_SIZE)%nat;
  modify (λ s, set_buf (list_inserts (Z.to_nat off)
                          (cfl_chunks (Z.to_nat n) data) (buf s)) s).

(** The body of the loop over the channels. *)
Definition adc_channel (scan_hdr : list byte) (pos : list Z) : M (list Z) :=
  chan_hdr ← xread file sizeof_chan_hdr;
  let mdh := adc_mdh scan_hdr chan_hdr in
  let pos := if decide (0 = pos !!! COIL_DIM) then adc_pos mdh pos else pos in
  if decide (dims !!! READ_DIM ≠ samples mdh) then error WrongSamples
  else if negb (md_is_index DIMS pos dims) then error NotAnIndex
  else
    xread_cfl (pos !!! COIL_DIM * dims !!! READ_DIM) (dims !!! READ_DIM);;
    mret pos.

(** [for (pos[COIL_DIM] = 0; pos[COIL_DIM] < dims[COIL_DIM]; pos[COIL_DIM]++)]:
    the body leaves [pos[COIL_DIM]] alone (the axes are distinct), so the
    loop runs [dims[COIL_DIM]] times, or not at all when that is not
    positive; [n] counts the iterations still to run. *)
Fixpoint adc_channels (scan_hdr : list byte) (n : nat) (pos : list Z)
    : M (list Z) :=
  match n with
  | O => mret pos
  | S n' =>
      pos ← adc_channel scan_hdr pos;
      adc_channels scan_hdr n' (<[COIL_DIM := pos !!! COIL_DIM + 1]> pos)
  end.

Definition siemens_adc_read (pos : list Z) : M (list Z) :=
  scan_hdr ← xread file sizeof_scan_hdr;
  pos ← adc_channels scan_hdr (Z.to_nat (dims !!! COIL_DIM))
          (<[COIL_DIM := 0]> pos);
  mret (<[COIL_DIM := 0]> pos).

(** ** The driver loop of [main] *)

(** One round of [while (adcs--)]: a fresh coordinate, the reader, the
    placement. *)
Definition adc_iter (adc_dims : list Z) : M unit :=
  let pos := replicate DIMS 0 in
  pos ← siemens_adc_read pos;
  modify (λ s, set_out (md_copy_block pos dims (out s) adc_dims (buf s)) s).

(** [while (adcs--)]: the loop ends when [adcs] is zero; a negative count
    never reaches zero by itself, so the loop is run on fuel and [None]
    says the fuel ran out. *)
Fixpoint adc_loop (adc_dims : list Z) (fuel : nat) (adcs : Z) (s : state)
    : option (result unit) :=
  match fuel with
  | O => None
  | S fuel' =>
      if decide (adcs = 0) then Some (Ok () s)
      else
        let adcs := to_long (adcs - 1) in
        match adc_iter adc_dims s with
        | Ok _ s' => adc_loop adc_dims fuel' adcs s'
        | Fatal e s' => Some (Fatal e s')
        end
  end.

(** ** Where a record's parts lie in the file

    The layout the reader walks, written down as file offsets: a record
    that starts at byte [p] has its scan header there, then one channel
    after the other, each a channel header followed by [dims[READ_DIM]]
    samples.  The properties below state the reader's results in these
    terms. *)

Definition chan_size : nat :=
  sizeof_chan_hdr + Z.to_nat (dims !!! READ_DIM) * CFL_SIZE.

(** The first byte of channel [c]'s header. *)
Definition chan_start (p c : nat) : nat :=
  p + sizeof_scan_hdr + c * chan_size.

Definition rec_size : nat :=
  sizeof_scan_hdr + Z.to_nat (dims !!! COIL_DIM) * chan_size.

(** The first byte of the [k]-th record after byte [p]. *)
Definition rec_start (p k : nat) : nat := p + k * rec_size.

(** The metadata in force for channel [c]: VD keeps it at byte 40 of the
    scan header, VB at byte 20 of the channel's own header. *)
Definition mdh_start (p c : nat) : nat :=
  if vd then p + 40 else chan_start p c + 20.

Definition rec_mdh (p c : nat) : mdh2 :=
  mdh2_of_bytes (slice file (mdh_start p c) sizeof_mdh2).

(** The coordinate of the record: the first channel's loop counters put
    into [pos], the coil axis at 0. *)
Definition rec_pos (p : nat) (pos : list Z) : list Z :=
  adc_pos (rec_mdh p 0) (<[COIL_DIM := 0]> pos).

(** The coordinate the reader hands back: with no channel to read, [pos]
    keeps its counters. *)
Definition rec_coord (p : nat) (pos : list Z) : list Z :=
  if decide (Z.to_nat (dims !!! COIL_DIM) = 0%nat)
  then <[COIL_DIM := 0]> pos
  else rec_pos p pos.

(** The coordinate of the [k]-th record after byte [p], as a round of the
    driver loop gets it from the reader. *)
Definition adc_coord (p k : nat) : list Z :=
  rec_coord (rec_start p k) (replicate DIMS 0).

(** Sample [r] of channel [c]. *)
Definition rec_sample (p c r : nat) : cfl :=
  slice file (chan_start p c + sizeof_chan_hdr + r * CFL_SIZE) CFL_SIZE.

(** All samples of channel [c]. *)
Definition rec_data (p c : nat) : list cfl :=
  cfl_chunks (Z.to_nat (dims !!! READ_DIM))
    (slice file (chan_start p c + sizeof_chan_hdr)
       (Z.to_nat (dims !!! READ_DIM) * CFL_SIZE)).

(** The block after the first [c] channels have been stored into [b]. *)
Fixpoint rec_buf (p c : nat) (b : list cfl) : list cfl :=
  match c with
  | O => b
  | S c' =>
      list_inserts (c' * Z.to_nat (dims !!! READ_DIM)) (rec_data p c')
        (rec_buf p c' b)
  end.

(** Channel [c] of the record at [p] passes: it lies within the file, its
    sample count is the read extent, and the coordinate is an index. *)
Definition chan_ok (p : nat) (pos : list Z) (c : nat) : Prop :=
  (chan_start p (S c) ≤ length file)%nat ∧
  samples (rec_mdh p c) = dims !!! READ_DIM ∧
  md_is_index DIMS (<[COIL_DIM := Z.of_nat c]> (rec_pos p pos)) dims = true.

(** Channel [c] of the record at [p] stops the program with [e]. *)
Definition chan_fault (p : nat) (pos : list Z) (c : nat) (e : fatal) : Prop :=
  match e with
  | ReadingFile =>
      (length file < chan_start p c + sizeof_chan_hdr)%nat ∨
      ((chan_start p c + sizeof_chan_hdr ≤ length file)%nat ∧
       samples (rec_mdh p c) = dims !!! READ_DIM ∧
       md_is_index DIMS (<[COIL_DIM := Z.of_nat c]> (rec_pos p pos)) dims = true ∧
       (length file < chan_start p (S c))%nat)
  | WrongSamples =>
      (chan_start p c + sizeof_chan_hdr ≤ length file)%nat ∧
      samples (rec_mdh p c) ≠ dims !!! READ_DIM
  | NotAnIndex =>
      (chan_start p c + sizeof_chan_hdr ≤ length file)%nat ∧
      samples (rec_mdh p c) = dims !!! READ_DIM ∧
      md_is_index DIMS (<[COIL_DIM := Z.of_nat c]> (rec_pos p pos)) dims = false
  | Seeking => False
  end.

(** The whole record at [p] passes. *)
Definition rec_ok (p : nat) (pos : list Z) : Prop :=
  (vd = true → p + sizeof_scan_hdr ≤ length file)%nat ∧
  ∀ c : nat, (c < Z.to_nat (dims !!! COIL_DIM))%nat → chan_ok p pos c.

(** The output [o] holds the samples of each of the first [K] records
    after byte [p0] at the record's coordinate, for every record whose
    coordinate no later record has again. *)
Definition records_placed (p0 K : nat) (o : cfl_array) : Prop :=
  ∀ k c r : nat,
    (k < K)%nat →
    (c < Z.to_nat (dims !!! COIL_DIM))%nat →
    (r < Z.to_nat (dims !!! READ_DIM))%nat →
    (∀ k' : nat, (k < k' < K)%nat → adc_coord p0 k' ≠ adc_coord p0 k) →
    o (block_index (adc_coord p0 k) c r) = rec_sample (rec_start p0 k) c r.

(** The output [o] is zero wherever no block of the first [K] records
    lies. *)
Definition zero_elsewhere (p0 K : nat) (o : cfl_array) : Prop :=
  ∀ idx : list Z,
    (∀ k c r : nat,
       (k < K)%nat →
       (c < Z.to_nat (dims !!! COIL_DIM))%nat →
       (r < Z.to_nat (dims !!! READ_DIM))%nat →
       idx ≠ block_index (adc_coord p0 k) c r) →
    o idx = cfl_zero.

(** Byte [i] lies in the loop counters of the metadata of a channel
    other than the first, in the record at [p]. *)
Definition later_counters (p i : nat) : Prop :=
  ∃ c : nat,
    (0 < c < Z.to_nat (dims !!! COIL_DIM))%nat ∧
    (mdh_start p c + 12 ≤ i < mdh_start p c + 40)%nat.

(** Byte [i] lies in a channel header of one of the records that follow
    each other from byte [p0] on. *)
Definition in_chan_hdr (p0 i : nat) : Prop :=
  ∃ k c : nat,
    (c < Z.to_nat (dims !!! COIL_DIM))%nat ∧
    (chan_start (rec_start p0 k) c ≤ i
     < chan_start (rec_start p0 k) c + sizeof_chan_hdr)%nat.

(** The same as checks that compute. *)
Definition later_countersb (p i : nat) : bool :=
  existsb (λ c, (0 <? c)%nat && (mdh_start p c + 12 <=? i)%nat
                && (i <? mdh_start p c + 40)%nat)
    (seq 0 (Z.to_nat (dims !!! COIL_DIM))).

(** Restricted to the first [K] records. *)
Definition in_chan_hdrb (p0 K i : nat) : bool :=
  existsb (λ k,
    existsb (λ c,
      (chan_start (rec_start p0 k) c <=? i)%nat
      && (i <? chan_start (rec_start p0 k) c + sizeof_chan_hdr)%nat)
      (seq 0 (Z.to_nat (dims !!! COIL_DIM))))
    (seq 0 K).

Definition chan_okb (p : nat) (pos : list Z) (c : nat) : bool :=
  (chan_start p (S c) <=? length file)%nat
  && (samples (rec_mdh p c) =? dims !!! READ_DIM)
  && md_is_index DIMS (<[COIL_DIM := Z.of_nat c]> (rec_pos p pos)) dims.

Definition rec_okb (p : nat) (pos : list Z) : bool :=
  implb vd (p + sizeof_scan_hdr <=? length file)%nat
  && forallb (chan_okb p pos) (seq 0 (Z.to_nat (dims !!! COIL_DIM))).

(** The first [n] records after byte [p] all pass. *)
Definition recs_okb (p n : nat) : bool :=
  forallb (λ k, rec_okb (rec_start p k) (replicate DIMS 0)) (seq 0 n).

End Reader.

(** ** [main] *)

(** The options [getopt] hands to the switch, each with the value [atoi]
    made of its argument.  The paths that print the usage and leave ([-h],
    an unknown option, a wrong number of file names) end the process before
    anything is read and are not modelled, nor is a failing [open]. *)
Inductive cli_opt :=
  | Opt_x (v : Z)
  | Opt_y (v : Z)
  | Opt_z (v : Z)
  | Opt_s (v : Z)
  | Opt_a (v : Z)
  | Opt_c (v : Z).

Section Main.

Context `{mri_dims}.

(** One round of the [getopt] loop, on the pair of [dims] and [adcs]. *)
Definition cli_step (st : list Z * Z) (o : cli_opt) : list Z * Z :=
  let '(dims, adcs) := st in
  match o with
  | Opt_x v => (<[READ_DIM := v]> dims, adcs)
  | Opt_y v => (<[PHS1_DIM := v]> dims, adcs)
  | Opt_z v => (<[PHS2_DIM := v]> dims, adcs)
  | Opt_s v => (<[SLICE_DIM := v]> dims, adcs)
  | Opt_a v => (dims, v)
  | Opt_c v => (<[COIL_DIM := v]> dims, adcs)
  end.

Definition cli_parse (opts : list cli_opt) : list Z * Z :=
  foldl cli_step (md_singleton_dims DIMS, 0) opts.

(** [if (0 == adcs) adcs = dims[PHS1_DIM] * dims[PHS2_DIM] * dims[SLICE_DIM]] *)
Definition main_adcs (opts : list cli_opt) : Z :=
  let '(dims, adcs) := cli_parse opts in
  if decide (0 = adcs)
  then to_long (to_long (dims !!! PHS1_DIM * dims !!! PHS2_DIM)
                * dims !!! SLICE_DIM)
  else adcs.

Definition main_dims (opts : list cli_opt) : list Z := (cli_parse opts).1.

Definition adc_dims_of (dims : list Z) : list Z :=
  md_select_dims (Z.lor READ_FLAG COIL_FLAG) dims.

(** The state of a process that has just opened the input. *)
Definition start_state : state := State 0 [] (λ _, cfl_zero).

Definition main (opts : list cli_opt) (file : list byte) (fuel : nat)
    : option (result unit) :=
  let dims := main_dims opts in
  let adcs := main_adcs opts in
  match siemens_meas_setup file start_state with
  | Fatal e s => Some (Fatal e s)
  | Ok (vd, hdr) s =>
      let s := set_out (create_cfl dims) s in
      let adc_dims := adc_dims_of dims in
      let s := set_buf (md_alloc adc_dims) s in
      adc_loop file vd dims adc_dims fuel adcs s
  end.

(** The count the caller supplied: the value of the last [-a], if any. *)
Definition cli_supplied (opts : list cli_opt) : option Z :=
  foldl (λ acc o, match o with Opt_a v => Some v | _ => acc end) None opts.

(** [main] with [n] rounds of the loop body in place of the loop. *)
Definition main_rounds (opts : list cli_opt) (file : list byte) (n : nat)
    : result unit :=
  let dims := main_dims opts in
  match siemens_meas_setup file start_state with
  | Fatal e s => Fatal e s
  | Ok (vd, hdr) s =>
      let s := set_out (create_cfl dims) s in
      let adc_dims := adc_dims_of dims in
      let s := set_buf (md_alloc adc_dims) s in
      times n (adc_iter file vd dims adc_dims) s
  end.

End Main.

(** ** The fields of the metadata the reader leaves alone *)

(** The offsets within [struct mdh2] of the fields the reader never looks
    at: [evalinfo], [channels], the loop counters 1, 5 and 8 to 13, and
    everything from [dummy1] on. *)
Definition mdh_unused (o : nat) : bool :=
  (o <? 8)%nat
  || ((10 <=? o)%nat && (o <? 12)%nat)
  || ((14 <=? o)%nat && (o <? 16)%nat)
  || ((22 <=? o)%nat && (o <? 24)%nat)
  || ((28 <=? o)%nat && (o <? 60)%nat).

Section Unused.

Context `{mri_dims}.

Variable vd : bool.
Variable dims : list Z.

(** Byte [i] lies in such a field of the metadata of a channel of one of
    the records that follow each other from byte [p0] on. *)
Definition in_unused_mdh (p0 i : nat) : Prop :=
  ∃ k c o : nat,
    (c < Z.to_nat (dims !!! COIL_DIM))%nat ∧ mdh_unused o = true ∧
    i = (mdh_start vd dims (rec_start vd dims p0 k) c + o)%nat.

(** The same as a check that computes, restricted to the first [K]
    records. *)
Definition in_unused_mdhb (p0 K i : nat) : bool :=
  existsb (λ k,
    existsb (λ c,
      existsb (λ o,
        mdh_unused o
        && (i =? mdh_start vd dims (rec_start vd dims p0 k) c + o)%nat)
        (seq 0 sizeof_mdh2))
      (seq 0 (Z.to_nat (dims !!! COIL_DIM))))
    (seq 0 K).

End Unused.

(** ** The option loop and the ways [main] ends before it reads *)

(** Two options with the same letter. *)
Definition same_letter (a b : cli_opt) : bool :=
  match a, b with
  | Opt_x _, Opt_x _ | Opt_y _, Opt_y _ | Opt_z _, Opt_z _
  | Opt_s _, Opt_s _ | Opt_a _, Opt_a _ | Opt_c _, Opt_c _ => true
  | _, _ => false
  end.

(** What [getopt] returns in a round of the loop: an option that takes an
    argument, [-h], or ['?'] for anything else. *)
Inductive getopt_ret :=
  | Got (o : cli_opt)
  | Got_h
  | Got_other.

Inductive stream := Stdout | Stderr.

(** How the process ends: [exit] after the usage, with what the program
    itself has printed; [error("error opening file.")]; or the run on the
    opened file. *)
Inductive outcome :=
  | Exit (code : Z) (printed : list (stream * string))
  | OpenError
  | Ran (r : option (result unit)).

Definition LF : string := String (Ascii.ascii_of_nat 10) EmptyString.
Definition TAB : string := String (Ascii.ascii_of_nat 9) EmptyString.

Definition usage (name : string) (fd : stream)
    : list (stream * string) :=
  [(fd, "Usage: " +:+ name +:+ " [...] [-a A] <dat file> <output>" +:+ LF)].

Definition help : list (stream * string) :=
  [(Stdout,
    LF +:+
    "Read data from Siemens twix (.dat) files." +:+ LF +:+
    LF +:+
    "-x X" +:+ TAB +:+ "number of samples (read-out)" +:+ LF +:+
    "-y Y" +:+ TAB +:+ "phase encoding steps" +:+ LF +:+
    "-z Z" +:+ TAB +:+ "partition encoding steps" +:+ LF +:+
    "-s S" +:+ TAB +:+ "number of slices" +:+ LF +:+
    "-c C" +:+ TAB +:+ "number of channels" +:+ LF +:+
    "-a A" +:+ TAB +:+ "total number of ADCs" +:+ LF +:+
    "-h" +:+ TAB +:+ "help" +:+ LF)].

Section Front.

Context `{mri_dims}.

(** The [getopt] loop with its two ways out. *)
Fixpoint getopt_loop (name : string) (rets : list getopt_ret)
    (st : list Z * Z) : outcome + list Z * Z :=
  match rets with
  | [] => inr st
  | Got o :: rets' => getopt_loop name rets' (cli_step st o)
  | Got_h :: _ => inl (Exit 0 (usage name Stdout ++ help))
  | Got_other :: _ => inl (Exit 1 (usage name Stderr))
  end.

(** [main] from the start: [rets] is what [getopt] returns round by round,
    [operands] the arguments it leaves ([argv] from [optind] on), [fs] the
    files that can be opened for reading. *)
Definition main_argv (name : string) (rets : list getopt_ret)
    (operands : list string)
    (fs : string → option (list byte)) (fuel : nat) : outcome :=
  match getopt_loop name rets (md_singleton_dims DIMS, 0) with
  | inl e => e
  | inr (dims, adcs) =>
      match operands with
      | [input; output] =>
          let adcs :=
            if decide (0 = adcs)
            then to_long (to_long (dims !!! PHS1_DIM * dims !!! PHS2_DIM)
                          * dims !!! SLICE_DIM)
            else adcs in
          match fs input with
          | None => OpenError
          | Some file =>
              match siemens_meas_setup file start_state with
              | Fatal e s => Ran (Some (Fatal e s))
              | Ok (vd, hdr) s =>
                  let s := set_out (create_cfl dims) s in
                  let adc_dims := adc_dims_of dims in
                  let s := set_buf (md_alloc adc_dims) s in
                  Ran (adc_loop file vd dims adc_dims fuel adcs s)
              end
          end
      | _ => Exit 1 (usage name Stderr)
      end
  end.

End Front.

(** ** Concrete axes and synthetic files

    The enumeration as BART declares it (sixteen axes: read, phase 1,
    phase 2, coil, maps, echo, two coefficient axes, iteration, shift, time,
    time 2, level, slice, average, batch), and builders for small twix
    files; both are used to run the definitions on examples. *)

#[global, refine] Instance bart_dims : mri_dims :=
  {| DIMS := 16;
     READ_DIM := 0; PHS1_DIM := 1; PHS2_DIM := 2; COIL_DIM := 3;
     TE_DIM := 5; TIME_DIM := 10; TIME2_DIM := 11; SLICE_DIM := 13 |}.
Proof.
  - apply (bool_decide_unpack _). vm_compute. exact I.
  - apply (bool_decide_unpack _). vm_compute. exact I.
Defined.

Module Synth.

Definition byte_of (z : Z) : byte :=
  default x00 (Byte.of_N (Z.to_N (z `mod` 256))).

Fixpoint le_bytes (n : nat) (z : Z) : list byte :=
  match n with
  | O => []
  | S n' => byte_of z :: le_bytes n' (z / 256)
  end.

Definition zeros (n : nat) : list byte := replicate n x00.

(** The leading header. *)
Definition hdr_bytes (off nsc mid fid doff : Z) : list byte :=
  le_bytes 4 off ++ le_bytes 4 nsc ++ le_bytes 4 mid ++ le_bytes 4 fid
  ++ le_bytes 8 doff.

(** The sixty bytes of a [struct mdh2] with the given sample count, channel
    count and loop counters, everything else zero. *)
Definition mdh_bytes (smp chn : Z) (lc : list Z) : list byte :=
  zeros 8 ++ le_bytes 2 smp ++ le_bytes 2 chn
  ++ mjoin ((λ i, le_bytes 2 (lc !!! i)) <$> seq 0 14) ++ zeros 20.

(** A complex sample with the given bit patterns. *)
Definition sample (re im : Z) : cfl := le_bytes 4 re ++ le_bytes 4 im.

(** A VB channel: 128 bytes of header with the metadata at byte 20, then
    the samples. *)
Definition vb_channel (smp chn : Z) (lc : list Z) (data : list cfl)
    : list byte :=
  zeros 20 ++ mdh_bytes smp chn lc ++ zeros 48 ++ mjoin data.

(** A VD scan header: 192 bytes with the metadata at byte 40. *)
Definition vd_scan_hdr (smp chn : Z) (lc : list Z) : list byte :=
  zeros 40 ++ mdh_bytes smp chn lc ++ zeros 92.

(** A VD channel: 32 bytes of header, each of value [fill], then the
    samples. *)
Definition vd_channel (fill : byte) (data : list cfl) : list byte :=
  replicate 32 fill ++ mjoin data.

(** Loop counters with [sLC[0] = line], [sLC[2] = slice], all others 0. *)
Definition counters (line slc : Z) : list Z :=
  [line; 0; slc; 0; 0; 0; 0; 0; 0; 0; 0; 0; 0; 0].

(** A VB file: the leading header says 64 scans, so it is not VD; the
    records start at byte 32.  Two records of four samples on one channel,
    on lines 0 and 1 (the end-to-end example of the specification). *)
Definition vb_rec0 : list cfl := [sample 1 2; sample 3 4; sample 5 6; sample 7 8].
Definition vb_rec1 : list cfl := [sample 11 12; sample 13 14; sample 15 16; sample 17 18].

Definition file_vb : list byte :=
  hdr_bytes 32 64 0 0 0 ++ zeros 8
  ++ vb_channel 4 1 (counters 0 0) vb_rec0
  ++ vb_channel 4 1 (counters 1 0) vb_rec1.

(** A VD file: offset 0 and one scan in the leading header, the measurement
    at byte 32, its own offset field saying 12, so the records start at
    byte 44.  Two records of two samples on two channels, on lines 1 and 0;
    [fill] is the value of every channel-header byte. *)
Definition vd_rec (seed : Z) : list (list cfl) :=
  [[sample seed 1; sample seed 2]; [sample seed 3; sample seed 4]].

Definition vd_record (fill : byte) (line : Z) (seed : Z) : list byte :=
  vd_scan_hdr 2 2 (counters line 0)
  ++ mjoin (vd_channel fill <$> vd_rec seed).

Definition file_vd_with (fill : byte) : list byte :=
  hdr_bytes 0 1 7 9 32 ++ zeros 8 ++ le_bytes 4 12 ++ zeros 8
  ++ vd_record fill 1 100 ++ vd_record fill 0 200.

Definition file_vd : list byte := file_vd_with x00.

(** A VB file with two records on the same line 0, two samples each. *)
Definition file_dup : list byte :=
  hdr_bytes 32 64 0 0 0 ++ zeros 8
  ++ vb_channel 2 1 (counters 0 0) [sample 1 2; sample 3 4]
  ++ vb_channel 2 1 (counters 0 0) [sample 5 6; sample 7 8].

(** A VB file with one record of two channels, two samples each; the
    second channel's metadata says three samples. *)
Definition file_bad : list byte :=
  hdr_bytes 32 64 0 0 0 ++ zeros 8
  ++ vb_channel 2 2 (counters 0 0) [sample 1 2; sample 3 4]
  ++ vb_channel 3 2 (counters 0 0) [sample 5 6; sample 7 8].

(** A VB file with one record of two channels on line 1, and the same
    with other loop counters in the second channel. *)
Definition file_two (line slc : Z) : list byte :=
  hdr_bytes 32 64 0 0 0 ++ zeros 8
  ++ vb_channel 2 2 (counters 1 0) [sample 1 2; sample 3 4]
  ++ vb_channel 2 2 (counters line slc) [sample 5 6; sample 7 8].

(** A VB file with one record on line 5. *)
Definition file_far : list byte :=
  hdr_bytes 32 64 0 0 0 ++ zeros 8
  ++ vb_channel 2 1 (counters 5 0) [sample 1 2; sample 3 4].

(** The VD file again, with [chn] as the channel count of the metadata
    and [junk] in the loop counters the reader does not use. *)
Definition counters_junk (line slc junk : Z) : list Z :=
  [line; junk; slc; 0; 0; junk; 0; 0; junk; junk; junk; junk; junk; junk].

Definition vd_record_junk (chn junk line seed : Z) : list byte :=
  vd_scan_hdr 2 chn (counters_junk line 0 junk)
  ++ mjoin (vd_channel x00 <$> vd_rec seed).

Definition file_vd_junk (chn junk : Z) : list byte :=
  hdr_bytes 0 1 7 9 32 ++ zeros 8 ++ le_bytes 4 12 ++ zeros 8
  ++ vd_record_junk chn junk 1 100 ++ vd_record_junk chn junk 0 200.

(** A VD file whose re-read offset is 12000, beyond the bound of the test
    for VD: the measurement at byte 24, the records from byte 12024 on (the
    file ends where they would start). *)
Definition file_vd_reread : list byte :=
  hdr_bytes 0 1 7 9 24 ++ le_bytes 4 12000 ++ zeros (Z.to_nat 11996).

(** A file of 64 bytes whose leading header says VD with the data offset
    [doff]. *)
Definition file_doff (doff : Z) : list byte :=
  hdr_bytes 0 1 0 0 doff ++ zeros 40.

End Synth.

(** * Properties *)

(** ** Bytes, fields and slices *)

Lemma byte_val_bound (b : byte) : 0 ≤ byte_val b < 256.
Proof.
  unfold byte_val. pose proof (Byte.to_N_bounded b). lia.
Qed.

Lemma le_uint_bound (bs : list byte) : 0 ≤ le_uint bs < 256 ^ Z.of_nat (length bs).
Proof.
  induction bs as [|b bs IH]; simpl le_uint; simpl length.
  - change (256 ^ Z.of_nat 0) with 1. lia.
  - rewrite Nat2Z.inj_succ, Z.pow_succ_r by lia.
    pose proof (byte_val_bound b). lia.
Qed.

Lemma field_bound (off n : nat) (bs : list byte) :
  0 ≤ field off n bs < 256 ^ Z.of_nat n.
Proof.
  unfold field. pose proof (le_uint_bound (take n (drop off bs))) as Hb.
  assert (length (take n (drop off bs)) ≤ n)%nat as Hl
    by (rewrite length_take; lia).
  assert (256 ^ Z.of_nat (length (take n (drop off bs))) ≤ 256 ^ Z.of_nat n)
    by (apply Z.pow_le_mono_r; lia).
  lia.
Qed.

Lemma length_slice (file : list byte) (p n : nat) :
  length (slice file p n) = (n `min` (length file - p))%nat.
Proof. unfold slice. by rewrite length_take, length_drop. Qed.

Lemma slice_slice (file : list byte) (p m o n : nat) :
  (o + n ≤ m)%nat →
  take n (drop o (slice file p m)) = slice file (p + o) n.
Proof.
  intros Hle. unfold slice. apply list_eq. intros i.
  rewrite !lookup_take, !lookup_drop.
  destruct (decide (i < n)%nat); [|done].
  rewrite lookup_take_lt, lookup_drop by lia. f_equal. lia.
Qed.

Lemma field_slice (file : list byte) (p m o n : nat) :
  (o + n ≤ m)%nat →
  field o n (slice file p m) = field (p + o) n file.
Proof.
  intros Hle. unfold field. rewrite slice_slice by done. done.
Qed.

Lemma slice_0 (file : list byte) (n : nat) : slice file 0 n = take n file.
Proof. done. Qed.

(** ** The state monad *)

Lemma bind_Ok {A B} (m : M A) (f : A → M B) s a s' :
  m s = Ok a s' → (m ≫= f) s = f a s'.
Proof. unfold mbind, M_bind. by intros ->. Qed.

Lemma bind_Fatal {A B} (m : M A) (f : A → M B) s e s' :
  m s = Fatal e s' → (m ≫= f) s = Fatal e s'.
Proof. unfold mbind, M_bind. by intros ->. Qed.

Lemma xread_Ok (file : list byte) (size : nat) s :
  (fd_pos s + size ≤ length file)%nat →
  xread file size s
  = Ok (slice file (fd_pos s) size) (set_fd_pos (fd_pos s + size) s).
Proof.
  intros Hle. unfold xread. rewrite length_slice.
  destruct (decide _) as [|Hne]; [done | lia].
Qed.

Lemma xread_0 (file : list byte) s :
  xread file 0 s = Ok [] s.
Proof.
  unfold xread, slice. simpl. destruct s as [p b o]. unfold set_fd_pos. simpl.
  by rewrite Nat.add_0_r.
Qed.

Lemma xread_Fatal (file : list byte) (size : nat) s :
  (0 < size)%nat → (length file < fd_pos s + size)%nat →
  xread file size s
  = Fatal ReadingFile
      (set_fd_pos (fd_pos s + length (slice file (fd_pos s) size)) s).
Proof.
  intros Hpos Hlt. unfold xread. rewrite length_slice.
  destruct (decide _) as [Heq|]; [lia | done].
Qed.

Lemma xseek_Ok (pos : Z) s :
  0 ≤ pos → xseek pos s = Ok () (set_fd_pos (Z.to_nat pos) s).
Proof. intros Hle. unfold xseek. destruct (decide _); [lia | done]. Qed.

Lemma xseek_Fatal (pos : Z) s :
  pos < 0 → xseek pos s = Fatal Seeking s.
Proof. intros Hlt. unfold xseek. destruct (decide _); [done | lia]. Qed.

Lemma to_off_t_id (z : Z) : - 2 ^ 63 ≤ z < 2 ^ 63 → to_off_t z = z.
Proof.
  intros Hz. unfold to_off_t.
  rewrite Z.mod_small by lia. lia.
Qed.

Lemma to_off_t_small (z : Z) : 0 ≤ z < 2 ^ 63 → to_off_t z = z.
Proof.
  intros Hz. unfold to_off_t.
  rewrite Z.mod_small by lia. lia.
Qed.

Lemma to_off_t_big (z : Z) : 2 ^ 63 ≤ z < 2 ^ 64 → to_off_t z < 0.
Proof.
  intros Hz. unfold to_off_t.
  replace (z + 2 ^ 63) with ((z - 2 ^ 63) + 1 * 2 ^ 64) by lia.
  rewrite Z.mod_add by lia. rewrite Z.mod_small by lia. lia.
Qed.

(** ** The Header Detector *)

Section Setup.

Variable file : list byte.

Let off0 : Z := field 0 4 file.
Let n0 : Z := field 4 4 file.
Let doff : Z := field 16 8 file.
Let off1 : Z := field (Z.to_nat doff) 4 file.

Lemma hdr_of_first_read :
  (24 ≤ length file)%nat →
  hdr_of_bytes (slice file 0 sizeof_hdr_s)
  = Hdr off0 n0 (field 8 4 file) (field 12 4 file) doff.
Proof.
  intros Hlen. unfold hdr_of_bytes, sizeof_hdr_s.
  by rewrite !field_slice by lia.
Qed.

Lemma setup_short s :
  (length file < 24)%nat →
  siemens_meas_setup file s
  = Fatal ReadingFile (set_fd_pos (length file) s).
Proof.
  intros Hlen. unfold siemens_meas_setup. cbv zeta.
  rewrite (bind_Ok _ _ _ _ _ (xseek_Ok 0 s ltac:(lia))).
  erewrite bind_Fatal; [|apply xread_Fatal; unfold sizeof_hdr_s; simpl; lia].
  unfold set_fd_pos, sizeof_hdr_s. cbn [fd_pos buf out].
  rewrite length_slice. f_equal. f_equal. lia.
Qed.

Lemma setup_VB s :
  (24 ≤ length file)%nat →
  ¬ (off0 < 10000 ∧ n0 < 64) →
  siemens_meas_setup file s
  = Ok (false, Hdr off0 1 (field 8 4 file) (field 12 4 file) doff)
       (set_fd_pos (Z.to_nat off0) s).
Proof.
  intros Hlen Hvb. unfold siemens_meas_setup. cbv zeta.
  rewrite (bind_Ok _ _ _ _ _ (xseek_Ok 0 s ltac:(lia))).
  erewrite bind_Ok; [|apply xread_Ok; unfold sizeof_hdr_s; simpl; lia].
  change (fd_pos (set_fd_pos (Z.to_nat 0) s)) with 0%nat.
  rewrite hdr_of_first_read by done. cbn [offset nscans].
  assert (bool_decide (off0 < 10000) && bool_decide (n0 < 64) = false) as ->.
  { apply andb_false_iff. rewrite !bool_decide_eq_false. 
    destruct (decide (off0 < 10000)); [right|left]; lia. }
  pose proof (field_bound 0 4 file) as Hb. fold off0 in Hb.
  change (256 ^ Z.of_nat 4) with (2 ^ 32) in Hb.
  unfold mbind at 1, M_bind at 1. unfold mret at 1, M_ret at 1.
  cbn [set_nscans offset nscans measid fileid datoff].
  rewrite Z.add_0_l, to_off_t_small by lia.
  erewrite bind_Ok; [|apply xseek_Ok; lia].
  done.
Qed.

Lemma setup_VD s :
  (24 ≤ length file)%nat →
  off0 < 10000 → n0 < 64 →
  siemens_meas_setup file s
  = if decide (2 ^ 63 ≤ doff) then Fatal Seeking (set_fd_pos 24 s)
    else if decide (length file < Z.to_nat doff + 4)%nat then
      Fatal ReadingFile
        (set_fd_pos (Z.to_nat doff + length (slice file (Z.to_nat doff) 4)) s)
    else if decide (2 ^ 63 ≤ doff + off1) then
      Fatal Seeking (set_fd_pos (Z.to_nat doff + 4) s)
    else
      Ok (true, Hdr off1 n0 (field 8 4 file) (field 12 4 file) doff)
         (set_fd_pos (Z.to_nat (doff + off1)) s).
Proof.
  intros Hlen Ho Hn. unfold siemens_meas_setup. cbv zeta.
  rewrite (bind_Ok _ _ _ _ _ (xseek_Ok 0 s ltac:(lia))).
  erewrite bind_Ok; [|apply xread_Ok; unfold sizeof_hdr_s; simpl; lia].
  change (fd_pos (set_fd_pos (Z.to_nat 0) s)) with 0%nat.
  rewrite hdr_of_first_read by done. cbn [offset nscans datoff].
  assert (bool_decide (off0 < 10000) && bool_decide (n0 < 64) = true) as ->.
  { apply andb_true_iff. by rewrite !bool_decide_eq_true. }
  pose proof (field_bound 16 8 file) as Hd. fold doff in Hd.
  change (256 ^ Z.of_nat 8) with (2 ^ 64) in Hd.
  pose proof (field_bound (Z.to_nat doff) 4 file) as Hb. fold off1 in Hb.
  change (256 ^ Z.of_nat 4) with (2 ^ 32) in Hb.
  rewrite Z.add_0_l. cbv beta iota.
  set (s1 := set_fd_pos (0 + sizeof_hdr_s) (set_fd_pos (Z.to_nat 0) s)).
  destruct (decide (2 ^ 63 ≤ doff)) as [Hbig|Hsmall].
  { erewrite bind_Fatal; [reflexivity|].
    erewrite bind_Fatal; [reflexivity|].
    apply xseek_Fatal, to_off_t_big. lia. }
  rewrite to_off_t_small by lia.
  destruct (decide (length file < Z.to_nat doff + 4)%nat) as [Hshort|Hfits].
  { erewrite bind_Fatal; cycle 1.
    { erewrite bind_Ok; [|apply xseek_Ok; lia].
      erewrite bind_Fatal; [reflexivity|].
      apply xread_Fatal; cbn [fd_pos set_fd_pos]; lia. }
    reflexivity. }
  erewrite bind_Ok; cycle 1.
  { erewrite bind_Ok; [|apply xseek_Ok; lia].
    erewrite bind_Ok; [|apply xread_Ok; cbn [fd_pos set_fd_pos]; lia].
    reflexivity. }
  change (fd_pos (set_fd_pos (Z.to_nat doff) s1)) with (Z.to_nat doff).
  rewrite field_slice by lia. rewrite Nat.add_0_r. fold off1.
  cbn [set_offset offset nscans measid fileid datoff].
  destruct (decide (2 ^ 63 ≤ doff + off1)) as [Hbig|Hok].
  { erewrite bind_Fatal; [reflexivity|]. apply xseek_Fatal, to_off_t_big. lia. }
  rewrite to_off_t_small by lia.
  erewrite bind_Ok; [|apply xseek_Ok; lia].
  reflexivity.
Qed.

End Setup.

(** C2. Layout detection: the detector selects VD exactly when the offset
    and the scan count of the leading header, as first read from bytes 0-3
    and 4-7 of the file, satisfy [offset < 10000] and [scan_count < 64]; what
    is read later has no say in it.  Whenever the detector returns, its
    verdict is that of the predicate, and it fails only on a file too short
    for the leading header or, later, on the VD path.  A file that meets the
    predicate and holds the four bytes at its data offset and the position
    the records start at is classified, as VD, whatever the offset re-read
    there (also one of 10000 or more); a file that fails the predicate and
    holds a leading header is always classified, as VB, with the scan count
    forced to 1. *)
Theorem C2_layout_detection (file : list byte) (s : state) :
  let vdp := field 0 4 file < 10000 ∧ field 4 4 file < 64 in
  let doff := field 16 8 file in
  let reread := field (Z.to_nat doff) 4 file in
  match siemens_meas_setup file s with
  | Ok (vd, _) _ => vd = true ↔ vdp
  | Fatal _ _ => (length file < 24)%nat ∨ vdp
  end ∧
  ((24 ≤ length file)%nat → Z.of_nat (length file) < 2 ^ 63 → vdp →
   doff + 4 ≤ Z.of_nat (length file) →
   doff + reread ≤ Z.of_nat (length file) →
   ∃ (hdr : hdr_s) (s' : state),
     siemens_meas_setup file s = Ok (true, hdr) s' ∧
     offset hdr = reread ∧ nscans hdr = field 4 4 file) ∧
  ((24 ≤ length file)%nat → ¬ vdp →
   ∃ (hdr : hdr_s) (s' : state),
     siemens_meas_setup file s = Ok (false, hdr) s' ∧
     offset hdr = field 0 4 file ∧ nscans hdr = 1).
Proof.
  cbv zeta. split_and!.
  - destruct (decide (length file < 24)%nat) as [Hshort|Hlen].
    { rewrite setup_short by done. by left. }
    destruct (decide (field 0 4 file < 10000 ∧ field 4 4 file < 64))
      as [[Ho Hn]|Hvb].
    + rewrite setup_VD by (done || lia).
      repeat case_decide; try (right; done). done.
    + rewrite setup_VB by (done || lia).
      split; [done | intros; contradiction].
  - intros Hlen Hsmall [Ho Hn] Hdoff Hstart.
    pose proof (field_bound 16 8 file) as Hd.
    pose proof (field_bound (Z.to_nat (field 16 8 file)) 4 file) as Hr.
    rewrite setup_VD by done.
    rewrite decide_False by lia. rewrite decide_False by lia.
    rewrite decide_False by lia. by eexists _, _.
  - intros Hlen Hvb. rewrite setup_VB by done. by eexists _, _.
Qed.

Lemma C2_witness :
  (∃ (hdr : hdr_s) (s' : state),
     siemens_meas_setup Synth.file_vd_reread start_state = Ok (true, hdr) s' ∧
     offset hdr = 12000 ∧ nscans hdr = 1) ∧
  (∃ (hdr : hdr_s) (s' : state),
     siemens_meas_setup Synth.file_vb start_state = Ok (false, hdr) s' ∧
     offset hdr = 32 ∧ nscans hdr = 1).
Proof.
  split.
  - pose proof (C2_layout_detection Synth.file_vd_reread start_state) as Hall.
    cbv zeta in Hall. destruct Hall as (_ & Hvd & _).
    destruct Hvd as (hdr & s' & Hrun & Hoff & Hn).
    + vm_compute. lia.
    + vm_compute. reflexivity.
    + vm_compute. split; reflexivity.
    + vm_compute. discriminate.
    + vm_compute. discriminate.
    + exists hdr, s'. split; [done|]. rewrite Hoff, Hn.
      vm_compute. split; reflexivity.
  - pose proof (C2_layout_detection Synth.file_vb start_state) as Hall.
    cbv zeta in Hall. destruct Hall as (_ & _ & Hvb).
    destruct Hvb as (hdr & s' & Hrun & Hoff & Hn).
    + vm_compute. lia.
    + vm_compute. intros [_ Hlt]. discriminate Hlt.
    + exists hdr, s'. split; [done|]. rewrite Hoff, Hn.
      vm_compute. split; reflexivity.
Defined.

(** C3. Detector positioning and scan count.  On a file that holds a
    leading header: when VD is detected the offset is the four-byte field
    re-read at [data_offset], the scan count is the one of the leading
    header, and the stream stands at [data_offset] plus the re-read offset;
    when VB is detected the scan count is 1, the offset is the leading
    header's, and the stream stands at that offset.  The detector fails only
    on the VD path: when [data_offset] or the final target is no valid
    position, or the file ends before the re-read field. *)
Theorem C3_detector_positioning (file : list byte) (s : state) :
  (24 ≤ length file)%nat →
  let vdp := field 0 4 file < 10000 ∧ field 4 4 file < 64 in
  let doff := field 16 8 file in
  let reread := field (Z.to_nat doff) 4 file in
  match siemens_meas_setup file s with
  | Ok (true, hdr) s' =>
      vdp ∧ offset hdr = reread ∧ nscans hdr = field 4 4 file ∧
      Z.of_nat (fd_pos s') = doff + reread
  | Ok (false, hdr) s' =>
      ¬ vdp ∧ nscans hdr = 1 ∧ offset hdr = field 0 4 file ∧
      Z.of_nat (fd_pos s') = field 0 4 file
  | Fatal _ _ =>
      vdp ∧ (2 ^ 63 ≤ doff ∨ (length file < Z.to_nat doff + 4)%nat ∨
             2 ^ 63 ≤ doff + reread)
  end.
Proof.
  intros Hlen vdp doff reread.
  pose proof (field_bound 0 4 file) as Ho.
  pose proof (field_bound 16 8 file) as Hd. fold doff in Hd.
  pose proof (field_bound (Z.to_nat doff) 4 file) as Hr. fold reread in Hr.
  destruct (decide vdp) as [[Hvo Hvn]|Hvb].
  - rewrite setup_VD by done. fold doff reread.
    repeat case_decide; try (split; [done|]; auto; fail).
    cbn [offset nscans fd_pos set_fd_pos]. split_and!; try done; lia.
  - rewrite setup_VB by done.
    cbn [offset nscans fd_pos set_fd_pos]. split_and!; try done; lia.
Qed.

Lemma C3_witness_vd :
  (24 ≤ length Synth.file_vd)%nat ∧
  let file := Synth.file_vd in
  let vdp := field 0 4 file < 10000 ∧ field 4 4 file < 64 in
  let doff := field 16 8 file in
  let reread := field (Z.to_nat doff) 4 file in
  match siemens_meas_setup file start_state with
  | Ok (true, hdr) s' =>
      vdp ∧ offset hdr = reread ∧ nscans hdr = field 4 4 file ∧
      Z.of_nat (fd_pos s') = doff + reread
  | Ok (false, hdr) s' =>
      ¬ vdp ∧ nscans hdr = 1 ∧ offset hdr = field 0 4 file ∧
      Z.of_nat (fd_pos s') = field 0 4 file
  | Fatal _ _ =>
      vdp ∧ (2 ^ 63 ≤ doff ∨ (length file < Z.to_nat doff + 4)%nat ∨
             2 ^ 63 ≤ doff + reread)
  end.
Proof.
  split; [vm_compute; lia |].
  apply (C3_detector_positioning Synth.file_vd start_state).
  vm_compute; lia.
Defined.

(** ** Coordinates and the axes *)

Section Axes.

Context `{mri_dims}.

Lemma mri_dims_ne :
  READ_DIM ≠ PHS1_DIM ∧ READ_DIM ≠ PHS2_DIM ∧ READ_DIM ≠ COIL_DIM ∧
  READ_DIM ≠ TE_DIM ∧ READ_DIM ≠ TIME_DIM ∧ READ_DIM ≠ TIME2_DIM ∧
  READ_DIM ≠ SLICE_DIM ∧
  PHS1_DIM ≠ PHS2_DIM ∧ PHS1_DIM ≠ COIL_DIM ∧ PHS1_DIM ≠ TE_DIM ∧
  PHS1_DIM ≠ TIME_DIM ∧ PHS1_DIM ≠ TIME2_DIM ∧ PHS1_DIM ≠ SLICE_DIM ∧
  PHS2_DIM ≠ COIL_DIM ∧ PHS2_DIM ≠ TE_DIM ∧ PHS2_DIM ≠ TIME_DIM ∧
  PHS2_DIM ≠ TIME2_DIM ∧ PHS2_DIM ≠ SLICE_DIM ∧
  COIL_DIM ≠ TE_DIM ∧ COIL_DIM ≠ TIME_DIM ∧ COIL_DIM ≠ TIME2_DIM ∧
  COIL_DIM ≠ SLICE_DIM ∧
  TE_DIM ≠ TIME_DIM ∧ TE_DIM ≠ TIME2_DIM ∧ TE_DIM ≠ SLICE_DIM ∧
  TIME_DIM ≠ TIME2_DIM ∧ TIME_DIM ≠ SLICE_DIM ∧
  TIME2_DIM ≠ SLICE_DIM.
Proof.
  pose proof mri_dims_distinct as Hd.
  repeat (apply list.NoDup_cons in Hd as [? Hd]).
  repeat match goal with
         | Hn : _ ∉ _ :: _ |- _ => apply not_elem_of_cons in Hn as [? ?]
         end.
  split_and!; done.
Qed.

Lemma mri_dims_lt :
  (READ_DIM < DIMS ∧ PHS1_DIM < DIMS ∧ PHS2_DIM < DIMS ∧ COIL_DIM < DIMS ∧
   TE_DIM < DIMS ∧ TIME_DIM < DIMS ∧ TIME2_DIM < DIMS ∧ SLICE_DIM < DIMS)%nat.
Proof.
  pose proof mri_dims_bound as Hb.
  repeat (apply list.Forall_cons in Hb as [? Hb]).
  split_and!; done.
Qed.

End Axes.

(** Two distinct axes differ; an axis is below [DIMS]. *)
Ltac axes_ne :=
  let Hne := fresh in
  pose proof mri_dims_ne as Hne; destruct_and!;
  first [assumption | apply not_eq_sym; assumption].

Ltac axes_lt :=
  let Hlt := fresh in
  pose proof mri_dims_lt as Hlt;
  rewrite ?length_insert; lia.

Section Coordinates.

Context `{mri_dims}.

Lemma md_is_index_spec (D : nat) (pos dims : list Z) :
  md_is_index D pos dims = true ↔
  ∀ i : nat, (i < D)%nat → 0 ≤ pos !!! i < dims !!! i.
Proof.
  unfold md_is_index. rewrite forallb_forall. split.
  - intros Hall i Hi. specialize (Hall i).
    rewrite bool_decide_eq_true in Hall. apply Hall.
    apply in_seq. lia.
  - intros Hall i Hi%in_seq. rewrite bool_decide_eq_true. apply Hall. lia.
Qed.

Lemma length_adc_pos (mdh : mdh2) (pos : list Z) :
  length (adc_pos mdh pos) = length pos.
Proof. unfold adc_pos. by rewrite !length_insert. Qed.

(** [adc_pos] writes the six counter axes and nothing else. *)
Lemma adc_pos_other (mdh : mdh2) (pos : list Z) (i : nat) :
  i ≠ PHS1_DIM → i ≠ SLICE_DIM → i ≠ PHS2_DIM → i ≠ TE_DIM →
  i ≠ TIME_DIM → i ≠ TIME2_DIM →
  adc_pos mdh pos !!! i = pos !!! i.
Proof.
  intros. unfold adc_pos. by rewrite !list_lookup_total_insert_ne.
Qed.

Lemma adc_pos_counters (mdh : mdh2) (pos : list Z) :
  length pos = DIMS →
  adc_pos mdh pos !!! PHS1_DIM = sLC mdh !!! 0%nat ∧
  adc_pos mdh pos !!! SLICE_DIM = sLC mdh !!! 2%nat ∧
  adc_pos mdh pos !!! PHS2_DIM = sLC mdh !!! 3%nat ∧
  adc_pos mdh pos !!! TE_DIM = sLC mdh !!! 4%nat ∧
  adc_pos mdh pos !!! TIME_DIM = sLC mdh !!! 6%nat ∧
  adc_pos mdh pos !!! TIME2_DIM = sLC mdh !!! 7%nat.
Proof.
  intros Hlen. unfold adc_pos.
  split_and!;
    repeat (rewrite list_lookup_total_insert_ne by axes_ne);
    (rewrite list_lookup_total_insert_eq; [done | axes_lt]).
Qed.

Lemma adc_pos_coil (mdh : mdh2) (pos : list Z) :
  adc_pos mdh pos !!! COIL_DIM = pos !!! COIL_DIM.
Proof. apply adc_pos_other; axes_ne. Qed.

Lemma adc_pos_read (mdh : mdh2) (pos : list Z) :
  adc_pos mdh pos !!! READ_DIM = pos !!! READ_DIM.
Proof. apply adc_pos_other; axes_ne. Qed.

(** Setting the coil axis commutes with the counter assignments. *)
Lemma adc_pos_insert_coil (mdh : mdh2) (pos : list Z) (c : Z) :
  <[COIL_DIM := c]> (adc_pos mdh pos) = adc_pos mdh (<[COIL_DIM := c]> pos).
Proof.
  unfold adc_pos.
  repeat (rewrite (list_insert_insert_ne _ COIL_DIM) by axes_ne; f_equal).
Qed.

End Coordinates.

(** ** The Record Reader, one channel at a time *)

Lemma length_cfl_chunks (n : nat) (bs : list byte) :
  length (cfl_chunks n bs) = n.
Proof.
  revert bs. induction n as [|n IH]; intros bs; [done|].
  cbn [cfl_chunks length]. by rewrite IH.
Qed.

Lemma lookup_cfl_chunks (n r : nat) (bs : list byte) :
  (r < n)%nat →
  cfl_chunks n bs !! r = Some (take CFL_SIZE (drop (r * CFL_SIZE) bs)).
Proof.
  revert r bs. induction n as [|n IH]; intros r bs Hr; [lia|].
  destruct r as [|r].
  - done.
  - cbn [cfl_chunks lookup list_lookup]. rewrite IH by lia.
    rewrite drop_drop. do 2 f_equal.
Qed.

Section ReaderProps.

Context `{mri_dims}.

Variable file : list byte.
Variable vd : bool.
Variable dims : list Z.

Lemma sizeof_chan_hdr_pos : (0 < sizeof_chan_hdr vd)%nat.
Proof. unfold sizeof_chan_hdr. destruct vd; lia. Qed.

(** The body of the channel loop with its two reads resolved. *)
Lemma adc_channel_eq (scan_hdr : list byte) (pos : list Z) (s : state) :
  adc_channel file vd dims scan_hdr pos s =
  let q := fd_pos s in
  let n := Z.to_nat (dims !!! READ_DIM) in
  if decide (length file < q + sizeof_chan_hdr vd)%nat then
    Fatal ReadingFile
      (set_fd_pos (q + length (slice file q (sizeof_chan_hdr vd))) s)
  else
    let mdh := adc_mdh vd scan_hdr (slice file q (sizeof_chan_hdr vd)) in
    let pos' :=
      if decide (0 = pos !!! COIL_DIM) then adc_pos mdh pos else pos in
    if decide (dims !!! READ_DIM ≠ samples mdh) then
      Fatal WrongSamples (set_fd_pos (q + sizeof_chan_hdr vd) s)
    else if negb (md_is_index DIMS pos' dims) then
      Fatal NotAnIndex (set_fd_pos (q + sizeof_chan_hdr vd) s)
    else if decide (length file < q + sizeof_chan_hdr vd + n * CFL_SIZE)%nat
    then
      Fatal ReadingFile
        (set_fd_pos
           (q + sizeof_chan_hdr vd
            + length (slice file (q + sizeof_chan_hdr vd) (n * CFL_SIZE))) s)
    else
      Ok pos'
        (State (q + sizeof_chan_hdr vd + n * CFL_SIZE)
           (list_inserts (Z.to_nat (pos' !!! COIL_DIM * dims !!! READ_DIM))
              (cfl_chunks n
                 (slice file (q + sizeof_chan_hdr vd) (n * CFL_SIZE)))
              (buf s))
           (out s)).
Proof.
  cbv zeta. unfold adc_channel.
  pose proof sizeof_chan_hdr_pos as Hch.
  destruct (decide (length file < fd_pos s + sizeof_chan_hdr vd)%nat)
    as [Hshort|Hfits].
  { erewrite bind_Fatal; [reflexivity|]. by apply xread_Fatal. }
  erewrite bind_Ok; [|apply xread_Ok; lia].
  cbv zeta.
  destruct (decide (dims !!! READ_DIM ≠ samples _)) as [Hne|Heq]; [done|].
  destruct (md_is_index _ _ _); [|done].
  cbn [negb]. unfold xread_cfl.
  set (s1 := set_fd_pos (fd_pos s + sizeof_chan_hdr vd) s).
  destruct (decide (length file
                    < fd_pos s + sizeof_chan_hdr vd
                      + Z.to_nat (dims !!! READ_DIM) * CFL_SIZE)%nat)
    as [Hshort|Hfits'].
  { erewrite bind_Fatal; cycle 1.
    { erewrite bind_Fatal; [reflexivity|].
      apply xread_Fatal; unfold s1; cbn [fd_pos set_fd_pos]; lia. }
    reflexivity. }
  erewrite bind_Ok; cycle 1.
  { erewrite bind_Ok; [|apply xread_Ok; unfold s1; cbn [fd_pos set_fd_pos]; lia].
    reflexivity. }
  reflexivity.
Qed.

(** The metadata the body decodes is the one at [mdh_start]. *)
Lemma adc_mdh_slices (p c : nat) :
  adc_mdh vd (slice file p (sizeof_scan_hdr vd))
    (slice file (chan_start vd dims p c) (sizeof_chan_hdr vd))
  = rec_mdh file vd dims p c.
Proof.
  unfold adc_mdh, rec_mdh, mdh_start, sizeof_scan_hdr, sizeof_chan_hdr,
    sizeof_mdh2.
  destruct vd; by rewrite slice_slice by lia.
Qed.

Lemma chan_start_S (p c : nat) :
  chan_start vd dims p (S c)
  = (chan_start vd dims p c + sizeof_chan_hdr vd
     + Z.to_nat (dims !!! READ_DIM) * CFL_SIZE)%nat.
Proof. unfold chan_start, chan_size. lia. Qed.

Lemma chan_start_0 (p : nat) :
  chan_start vd dims p 0 = (p + sizeof_scan_hdr vd)%nat.
Proof. unfold chan_start. lia. Qed.

Lemma chan_ok_no_fault (p : nat) (pos : list Z) (c : nat) (e : fatal) :
  chan_ok file vd dims p pos c → chan_fault file vd dims p pos c e → False.
Proof.
  intros (Hfit & Hsmp & Hidx) Hfault.
  rewrite chan_start_S in Hfit.
  destruct e; cbn [chan_fault] in Hfault.
  - destruct Hfault as [Hshort|(_ & _ & _ & Hshort)].
    + lia.
    + rewrite chan_start_S in Hshort. lia.
  - done.
  - destruct Hfault as (_ & Hne). done.
  - destruct Hfault as (_ & _ & Hno). congruence.
Qed.

Section Record.

(** A record that starts at byte [p], read into the coordinate [pos0]. *)
Variable p : nat.
Variable pos0 : list Z.
Hypothesis Hpos0 : length pos0 = DIMS.

(** The coordinate at the entry of the body for channel [c], and after
    the body. *)
Let pos_in (c : nat) : list Z :=
  match c with
  | O => <[COIL_DIM := 0]> pos0
  | S _ => <[COIL_DIM := Z.of_nat c]> (rec_pos file vd dims p pos0)
  end.

Let pos_out (c : nat) : list Z :=
  <[COIL_DIM := Z.of_nat c]> (rec_pos file vd dims p pos0).

Lemma length_rec_pos : length (rec_pos file vd dims p pos0) = DIMS.
Proof. unfold rec_pos. by rewrite length_adc_pos, length_insert. Qed.

Lemma rec_pos_coil : rec_pos file vd dims p pos0 !!! COIL_DIM = 0.
Proof.
  unfold rec_pos. rewrite adc_pos_coil, list_lookup_total_insert_eq; [done|].
  axes_lt.
Qed.

Lemma pos_out_coil (c : nat) : pos_out c !!! COIL_DIM = Z.of_nat c.
Proof.
  unfold pos_out. rewrite list_lookup_total_insert_eq; [done|].
  rewrite length_rec_pos. pose proof mri_dims_lt. lia.
Qed.

Lemma pos_out_0 : pos_out 0 = rec_pos file vd dims p pos0.
Proof.
  unfold pos_out. apply list_insert_id.
  rewrite list_lookup_lookup_total_lt.
  - by rewrite rec_pos_coil.
  - rewrite length_rec_pos. pose proof mri_dims_lt. lia.
Qed.

Lemma pos_body (c : nat) :
  (if decide (0 = pos_in c !!! COIL_DIM)
   then adc_pos (rec_mdh file vd dims p c) (pos_in c)
   else pos_in c) = pos_out c.
Proof.
  pose proof mri_dims_lt as Hlt.
  destruct c as [|c].
  - rewrite pos_out_0. cbn [pos_in].
    rewrite list_lookup_total_insert_eq by lia.
    by destruct (decide (0 = 0)).
  - cbn [pos_in]. fold (pos_out (S c)). rewrite pos_out_coil.
    destruct (decide _); [lia | done].
Qed.

Lemma pos_next (c : nat) :
  <[COIL_DIM := pos_out c !!! COIL_DIM + 1]> (pos_out c) = pos_in (S c).
Proof.
  rewrite pos_out_coil. unfold pos_out. cbn [pos_in].
  rewrite list_insert_insert_eq. f_equal. lia.
Qed.

(** One channel: what the body does, in terms of the layout. *)
Lemma adc_channel_at (c : nat) (s : state) :
  fd_pos s = chan_start vd dims p c →
  match adc_channel file vd dims (slice file p (sizeof_scan_hdr vd))
          (pos_in c) s with
  | Ok pos' s' =>
      chan_ok file vd dims p pos0 c ∧ pos' = pos_out c ∧
      s' = State (chan_start vd dims p (S c))
             (list_inserts (c * Z.to_nat (dims !!! READ_DIM))
                (rec_data file vd dims p c) (buf s))
             (out s)
  | Fatal e s' =>
      chan_fault file vd dims p pos0 c e ∧ out s' = out s ∧ buf s' = buf s
  end.
Proof.
  intros Hq. rewrite adc_channel_eq. cbv zeta. rewrite Hq.
  rewrite adc_mdh_slices, pos_body.
  unfold chan_ok, chan_fault. fold (pos_out c).
  destruct (decide (length file < _)%nat) as [Hshort|Hfits].
  { split; [by left | done]. }
  destruct (decide (dims !!! READ_DIM ≠ samples _)) as [Hne|Heq].
  { split; [|done]. split; [lia | congruence]. }
  apply dec_stable in Heq.
  destruct (md_is_index DIMS (pos_out c) dims) eqn:Hidx; cbn [negb].
  2:{ split; [|done]. split; [lia|]. split; [congruence | done]. }
  rewrite <- chan_start_S.
  destruct (decide (length file < _)%nat) as [Hshort|Hfits'].
  { split; [|done]. right. split; [lia|]. split; [congruence|]. done. }
  split; [split; [lia|]; split; [congruence | done]|].
  split; [done|]. f_equal.
  rewrite pos_out_coil. f_equal.
  pose proof (field_bound 8 2 (slice file (mdh_start vd dims p c) sizeof_mdh2))
    as Hb.
  change (field 8 2 _) with (samples (rec_mdh file vd dims p c)) in Hb.
  rewrite Z2Nat.inj_mul, Nat2Z.id by lia. done.
Qed.

(** The channel loop from channel [c] on, for [n] channels. *)
Lemma adc_channels_at (n : nat) :
  ∀ (c : nat) (s : state) (b0 : list cfl),
    fd_pos s = chan_start vd dims p c →
    buf s = rec_buf file vd dims p c b0 →
    match adc_channels file vd dims (slice file p (sizeof_scan_hdr vd)) n
            (pos_in c) s with
    | Ok pos' s' =>
        (∀ c' : nat, (c ≤ c' < c + n)%nat → chan_ok file vd dims p pos0 c') ∧
        pos' = pos_in (c + n) ∧
        s' = State (chan_start vd dims p (c + n))
               (rec_buf file vd dims p (c + n) b0) (out s)
    | Fatal e s' =>
        out s' = out s ∧
        ∃ c' : nat, (c ≤ c' < c + n)%nat ∧
          (∀ c'' : nat, (c ≤ c'' < c')%nat → chan_ok file vd dims p pos0 c'') ∧
          chan_fault file vd dims p pos0 c' e
    end.
Proof.
  induction n as [|n IH]; intros c s b0 Hq Hb.
  - cbn [adc_channels]. unfold mret, M_ret. rewrite Nat.add_0_r.
    split; [intros; lia|]. split; [done|].
    destruct s as [q b o]. cbn [fd_pos buf out] in *. by subst.
  - cbn [adc_channels]. unfold mbind, M_bind.
    pose proof (adc_channel_at c s Hq) as Hc.
    destruct (adc_channel _ _ _ _ _ s) as [pos' s'|e s'].
    + destruct Hc as (Hok & -> & ->). rewrite pos_next.
      assert (list_inserts (c * Z.to_nat (dims !!! READ_DIM))
                (rec_data file vd dims p c) (buf s)
              = rec_buf file vd dims p (S c) b0) as Hb'
        by (cbn [rec_buf]; by rewrite Hb).
      specialize (IH (S c) (State (chan_start vd dims p (S c))
        (list_inserts (c * Z.to_nat (dims !!! READ_DIM))
           (rec_data file vd dims p c) (buf s)) (out s)) b0 eq_refl Hb').
      cbn [out] in IH.
      replace (c + S n)%nat with (S c + n)%nat by lia.
      destruct (adc_channels _ _ _ _ _ _ _) as [pos'' s''|e s''].
      * destruct IH as (Hoks & -> & ->). split; [|done].
        intros c' Hc'. destruct (decide (c' = c)) as [->|]; [done|].
        apply Hoks. lia.
      * destruct IH as (Hout & c' & Hc' & Hoks & Hfault).
        split; [done|]. exists c'. split; [lia|]. split; [|done].
        intros c'' Hc''. destruct (decide (c'' = c)) as [->|]; [done|].
        apply Hoks. lia.
    + destruct Hc as (Hfault & Hout & _). split; [done|].
      exists c. split; [lia|]. split; [intros; lia | done].
Qed.

Lemma xread_scan_hdr (s : state) :
  fd_pos s = p →
  (vd = true → p + sizeof_scan_hdr vd ≤ length file)%nat →
  xread file (sizeof_scan_hdr vd) s
  = Ok (slice file p (sizeof_scan_hdr vd))
       (set_fd_pos (p + sizeof_scan_hdr vd) s).
Proof.
  intros Hq Hfit. subst p. unfold sizeof_scan_hdr in *. destruct vd.
  - apply xread_Ok. by apply Hfit.
  - rewrite xread_0. destruct s as [q b o]. unfold set_fd_pos, slice.
    cbn [fd_pos buf out take]. by rewrite Nat.add_0_r.
Qed.

(** The reader on the record at [p]: either every channel passes, and
    the result is laid down by the layout, or some first channel stops
    the program and the output array stays as it was. *)
Lemma siemens_adc_read_at (s : state) :
  fd_pos s = p →
  match siemens_adc_read file vd dims pos0 s with
  | Ok pos' s' =>
      rec_ok file vd dims p pos0 ∧
      pos' = rec_coord file vd dims p pos0 ∧
      s' = State (p + rec_size vd dims)
             (rec_buf file vd dims p (Z.to_nat (dims !!! COIL_DIM)) (buf s))
             (out s)
  | Fatal e s' =>
      out s' = out s ∧
      ((e = ReadingFile ∧ vd = true ∧
        (length file < p + sizeof_scan_hdr vd)%nat) ∨
       ((vd = true → p + sizeof_scan_hdr vd ≤ length file)%nat ∧
        ∃ c : nat, (c < Z.to_nat (dims !!! COIL_DIM))%nat ∧
          (∀ c' : nat, (c' < c)%nat → chan_ok file vd dims p pos0 c') ∧
          chan_fault file vd dims p pos0 c e))
  end.
Proof.
  intros Hq. unfold siemens_adc_read.
  destruct (decide (vd = true ∧ length file < p + sizeof_scan_hdr vd)%nat)
    as [[Hvd Hshort]|Hfit].
  { erewrite bind_Fatal; cycle 1.
    { apply xread_Fatal; [|lia]. rewrite Hvd. unfold sizeof_scan_hdr. lia. }
    split; [done|]. left. done. }
  assert (vd = true → p + sizeof_scan_hdr vd ≤ length file)%nat as Hscan.
  { intros Hvd. destruct (decide (length file < p + sizeof_scan_hdr vd)%nat);
      [tauto | lia]. }
  erewrite bind_Ok; [|by apply xread_scan_hdr].
  set (s1 := set_fd_pos (p + sizeof_scan_hdr vd) s).
  pose proof (adc_channels_at (Z.to_nat (dims !!! COIL_DIM)) 0 s1 (buf s))
    as Hloop.
  rewrite chan_start_0 in Hloop. specialize (Hloop eq_refl eq_refl).
  cbn [pos_in] in Hloop. unfold mbind, M_bind.
  destruct (adc_channels _ _ _ _ _ _ s1) as [pos' s'|e s'].
  - destruct Hloop as (Hoks & -> & ->). unfold mret, M_ret.
    split; [split; [done|]; intros c Hc; apply Hoks; lia|].
    split.
    + unfold rec_coord. rewrite Nat.add_0_l.
      destruct (Z.to_nat (dims !!! COIL_DIM)) as [|k] eqn:Hk.
      * cbn [pos_in]. rewrite decide_True by done.
        by rewrite list_insert_insert_eq.
      * cbn [pos_in]. rewrite decide_False by done.
        rewrite list_insert_insert_eq. apply pos_out_0.
    + rewrite Nat.add_0_l. f_equal. unfold chan_start, rec_size. lia.
  - destruct Hloop as (Hout & c & Hc & Hoks & Hfault).
    split; [done|]. right. split; [done|].
    exists c. split; [lia|]. split; [|done].
    intros c' Hc'. apply Hoks. lia.
Qed.

End Record.

End ReaderProps.

(** ** The block of a record *)

Section Block.

Context `{mri_dims}.

Variable file : list byte.
Variable vd : bool.
Variable dims : list Z.

Lemma length_rec_data (p c : nat) :
  length (rec_data file vd dims p c) = Z.to_nat (dims !!! READ_DIM).
Proof. unfold rec_data. apply length_cfl_chunks. Qed.

Lemma lookup_rec_data (p c r : nat) :
  (r < Z.to_nat (dims !!! READ_DIM))%nat →
  rec_data file vd dims p c !! r = Some (rec_sample file vd dims p c r).
Proof.
  intros Hr. unfold rec_data, rec_sample.
  rewrite lookup_cfl_chunks by done. f_equal.
  apply slice_slice. unfold CFL_SIZE. lia.
Qed.

Lemma length_rec_buf (p n : nat) (b : list cfl) :
  length (rec_buf file vd dims p n b) = length b.
Proof.
  induction n as [|n IH]; [done|].
  cbn [rec_buf]. by rewrite length_inserts.
Qed.

(** After [n] channels, the block holds sample [r] of channel [c < n] at
    [c * dims[READ_DIM] + r]. *)
Lemma lookup_rec_buf (p n c r : nat) (b : list cfl) :
  (c < n)%nat → (r < Z.to_nat (dims !!! READ_DIM))%nat →
  (n * Z.to_nat (dims !!! READ_DIM) ≤ length b)%nat →
  rec_buf file vd dims p n b !! (c * Z.to_nat (dims !!! READ_DIM) + r)%nat
  = Some (rec_sample file vd dims p c r).
Proof.
  set (m := Z.to_nat (dims !!! READ_DIM)).
  induction n as [|n IH]; intros Hc Hr Hlen; [lia|].
  cbn [rec_buf]. fold m.
  destruct (decide (c = n)) as [->|Hne].
  - rewrite list_lookup_inserts.
    + replace (n * m + r - n * m)%nat with r by lia.
      by apply lookup_rec_data.
    + rewrite length_rec_data. fold m. lia.
    + rewrite length_rec_buf. lia.
  - assert (S c * m ≤ n * m)%nat by (apply Nat.mul_le_mono_r; lia).
    rewrite list_lookup_inserts_lt by lia.
    apply IH; lia.
Qed.

End Block.

(** ** Placing a block *)

Section Placement.

Context `{mri_dims}.

(** An element inside the block's extent takes the block's sample. *)
Lemma md_copy_block_in (pos odims : list Z) (optr : cfl_array)
    (idims : list Z) (iptr : list cfl) (r c : Z) :
  length pos = DIMS →
  0 ≤ r < idims !!! READ_DIM → 0 ≤ c < idims !!! COIL_DIM →
  md_copy_block pos odims optr idims iptr
    (<[READ_DIM := r]> (<[COIL_DIM := c]> pos))
  = iptr !!! Z.to_nat (c * idims !!! READ_DIM + r).
Proof.
  intros Hlen Hr Hc. unfold md_copy_block.
  rewrite list_lookup_total_insert_eq by axes_lt.
  rewrite list_lookup_total_insert_ne by axes_ne.
  rewrite list_lookup_total_insert_eq by axes_lt.
  by rewrite bool_decide_eq_true_2.
Qed.

(** Every other element keeps its value. *)
Lemma md_copy_block_out (pos odims : list Z) (optr : cfl_array)
    (idims : list Z) (iptr : list cfl) (idx : list Z) :
  (∀ r c : Z, 0 ≤ r < idims !!! READ_DIM → 0 ≤ c < idims !!! COIL_DIM →
     idx ≠ <[READ_DIM := r]> (<[COIL_DIM := c]> pos)) →
  md_copy_block pos odims optr idims iptr idx = optr idx.
Proof.
  intros Hout. unfold md_copy_block.
  rewrite bool_decide_eq_false_2; [done|].
  intros (Hr & Hc & Heq). by apply (Hout _ _ Hr Hc).
Qed.

(** The shape of the block: the read and coil extents of [dims]. *)
Lemma lookup_md_select_dims (flags : Z) (dims : list Z) (i : nat) :
  md_select_dims flags dims !! i
  = (λ d, if Z.testbit flags (Z.of_nat i) then d else 1) <$> dims !! i.
Proof. unfold md_select_dims. apply list_lookup_imap. Qed.

Lemma testbit_read_coil (i : nat) :
  Z.testbit (Z.lor READ_FLAG COIL_FLAG) (Z.of_nat i)
  = bool_decide (i = READ_DIM ∨ i = COIL_DIM).
Proof.
  unfold READ_FLAG, COIL_FLAG.
  rewrite Z.lor_spec, !Z.shiftl_1_l, !Z.pow2_bits_eqb by lia.
  destruct (decide (i = READ_DIM)) as [->|Hr].
  { rewrite Z.eqb_refl. by rewrite bool_decide_eq_true_2 by auto. }
  destruct (decide (i = COIL_DIM)) as [->|Hc].
  { rewrite Z.eqb_refl, orb_true_r. by rewrite bool_decide_eq_true_2 by auto. }
  rewrite (proj2 (Z.eqb_neq _ _)) by lia.
  rewrite (proj2 (Z.eqb_neq _ _)) by lia.
  by rewrite bool_decide_eq_false_2 by tauto.
Qed.

Lemma adc_dims_of_read (dims : list Z) :
  length dims = DIMS →
  adc_dims_of dims !!! READ_DIM = dims !!! READ_DIM.
Proof.
  intros Hlen. unfold adc_dims_of.
  rewrite !list_lookup_total_alt, lookup_md_select_dims, testbit_read_coil.
  rewrite bool_decide_eq_true_2 by auto.
  by destruct (dims !! READ_DIM).
Qed.

Lemma adc_dims_of_coil (dims : list Z) :
  length dims = DIMS →
  adc_dims_of dims !!! COIL_DIM = dims !!! COIL_DIM.
Proof.
  intros Hlen. unfold adc_dims_of.
  rewrite !list_lookup_total_alt, lookup_md_select_dims, testbit_read_coil.
  rewrite bool_decide_eq_true_2 by auto.
  by destruct (dims !! COIL_DIM).
Qed.

Lemma adc_dims_of_other (dims : list Z) (i : nat) :
  (i < length dims)%nat → i ≠ READ_DIM → i ≠ COIL_DIM →
  adc_dims_of dims !! i = Some 1.
Proof.
  intros Hi Hr Hc. unfold adc_dims_of.
  rewrite lookup_md_select_dims, testbit_read_coil.
  rewrite bool_decide_eq_false_2 by tauto.
  by destruct (lookup_lt_is_Some_2 dims i Hi) as [d ->].
Qed.

Lemma length_adc_dims_of (dims : list Z) :
  length (adc_dims_of dims) = length dims.
Proof. unfold adc_dims_of, md_select_dims. apply length_imap. Qed.

End Placement.

(** ** The driver loop *)

Section Loop.

Context `{mri_dims}.

Variable file : list byte.
Variable vd : bool.
Variable dims : list Z.
Variable adc_dims : list Z.

(** One round of the loop on the record at the read position. *)
Lemma adc_iter_at (s : state) :
  let p := fd_pos s in
  let zeros := replicate DIMS 0 in
  let block :=
    rec_buf file vd dims p (Z.to_nat (dims !!! COIL_DIM)) (buf s) in
  match adc_iter file vd dims adc_dims s with
  | Ok _ s' =>
      rec_ok file vd dims p zeros ∧
      s' = State (p + rec_size vd dims) block
             (md_copy_block (rec_coord file vd dims p zeros) dims (out s)
                adc_dims block)
  | Fatal e s' =>
      out s' = out s ∧
      ((e = ReadingFile ∧ vd = true ∧
        (length file < p + sizeof_scan_hdr vd)%nat) ∨
       ((vd = true → p + sizeof_scan_hdr vd ≤ length file)%nat ∧
        ∃ c : nat, (c < Z.to_nat (dims !!! COIL_DIM))%nat ∧
          (∀ c' : nat, (c' < c)%nat → chan_ok file vd dims p zeros c') ∧
          chan_fault file vd dims p zeros c e))
  end.
Proof.
  cbv zeta. unfold adc_iter. cbv zeta. unfold mbind, M_bind.
  pose proof (siemens_adc_read_at file vd dims (fd_pos s)
                (replicate DIMS 0) (length_replicate _ _) s eq_refl) as Hr.
  destruct (siemens_adc_read _ _ _ _ s) as [pos' s'|e s']; [|done].
  destruct Hr as (Hok & -> & ->). unfold modify. cbn [buf out]. done.
Qed.

Lemma adc_loop_0 (fuel : nat) (s : state) :
  adc_loop file vd dims adc_dims (S fuel) 0 s = Some (Ok () s).
Proof. done. Qed.

Lemma adc_loop_step (fuel : nat) (adcs : Z) (s : state) :
  adcs ≠ 0 → - 2 ^ 63 < adcs < 2 ^ 63 →
  adc_loop file vd dims adc_dims (S fuel) adcs s
  = match adc_iter file vd dims adc_dims s with
    | Ok _ s' => adc_loop file vd dims adc_dims fuel (adcs - 1) s'
    | Fatal e s' => Some (Fatal e s')
    end.
Proof.
  intros Hne Hrange. cbn [adc_loop].
  destruct (decide (adcs = 0)) as [|_]; [done|].
  cbv zeta. unfold to_long. by rewrite to_off_t_id by lia.
Qed.

(** A loop entered with a count [n ≥ 0] is [n] rounds of its body. *)
Lemma adc_loop_times (n : nat) :
  ∀ (fuel : nat) (s : state),
    (n < fuel)%nat → Z.of_nat n < 2 ^ 63 →
    adc_loop file vd dims adc_dims fuel (Z.of_nat n) s
    = Some (times n (adc_iter file vd dims adc_dims) s).
Proof.
  induction n as [|n IH]; intros fuel s Hfuel Hn.
  - destruct fuel as [|fuel]; [lia|]. done.
  - destruct fuel as [|fuel]; [lia|].
    rewrite adc_loop_step by lia.
    cbn [times]. unfold mbind, M_bind.
    destruct (adc_iter _ _ _ _ s) as [[] s'|e s']; [|done].
    replace (Z.of_nat (S n) - 1) with (Z.of_nat n) by lia.
    apply IH; lia.
Qed.

End Loop.

(** ** Records one after the other *)

Section RoundTrip.

Context `{mri_dims}.

Variable file : list byte.
Variable vd : bool.
Variable dims : list Z.
Hypothesis Hdims : length dims = DIMS.

Local Abbreviation zeros := (replicate DIMS 0).
Local Abbreviation nR := (Z.to_nat (dims !!! READ_DIM)).
Local Abbreviation nC := (Z.to_nat (dims !!! COIL_DIM)).

(** A record that passes is read and placed. *)
Lemma adc_iter_ok (s : state) :
  rec_ok file vd dims (fd_pos s) zeros →
  adc_iter file vd dims (adc_dims_of dims) s
  = Ok ()
      (State (fd_pos s + rec_size vd dims)
         (rec_buf file vd dims (fd_pos s) nC (buf s))
         (md_copy_block (rec_coord file vd dims (fd_pos s) zeros) dims
            (out s) (adc_dims_of dims)
            (rec_buf file vd dims (fd_pos s) nC (buf s)))).
Proof.
  intros [Hscan Hoks].
  pose proof (adc_iter_at file vd dims (adc_dims_of dims) s) as Hit.
  cbv zeta in Hit.
  destruct (adc_iter _ _ _ _ s) as [[] s'|e s'].
  - by destruct Hit as [_ ->].
  - exfalso. destruct Hit as [_ [(_ & Hvd & Hshort)|(_ & c & Hc & _ & Hf)]].
    + specialize (Hscan Hvd). lia.
    + eapply chan_ok_no_fault; [exact (Hoks c Hc) | exact Hf].
Qed.

Lemma length_rec_coord (p : nat) :
  length (rec_coord file vd dims p zeros) = DIMS.
Proof.
  unfold rec_coord. destruct (decide _).
  - by rewrite length_insert, length_replicate.
  - apply length_rec_pos. apply length_replicate.
Qed.

Lemma rec_coord_coil (p : nat) :
  rec_coord file vd dims p zeros !!! COIL_DIM = 0.
Proof.
  unfold rec_coord. destruct (decide _).
  - rewrite list_lookup_total_insert_eq; [done|].
    rewrite length_replicate. axes_lt.
  - apply rec_pos_coil. apply length_replicate.
Qed.

Lemma rec_coord_read (p : nat) :
  rec_coord file vd dims p zeros !!! READ_DIM = 0.
Proof.
  assert (<[COIL_DIM := 0]> zeros !!! READ_DIM = 0) as Hz.
  { rewrite list_lookup_total_insert_ne by axes_ne.
    apply lookup_total_replicate_2. axes_lt. }
  unfold rec_coord. destruct (decide _); [done|].
  unfold rec_pos. by rewrite adc_pos_read.
Qed.

(** A coordinate with read = coil = 0 is recovered from any element of its
    block, and so are the channel and the sample. *)
Lemma block_index_inj (pos pos' : list Z) (c r c' r' : nat) :
  length pos = DIMS → length pos' = DIMS →
  pos !!! READ_DIM = 0 → pos !!! COIL_DIM = 0 →
  pos' !!! READ_DIM = 0 → pos' !!! COIL_DIM = 0 →
  block_index pos c r = block_index pos' c' r' →
  pos = pos' ∧ c = c' ∧ r = r'.
Proof.
  intros Hl Hl' Hr Hc Hr' Hc' Heq. unfold block_index in Heq.
  assert (∀ (q : list Z) (a b : nat), length q = DIMS →
            q !!! READ_DIM = 0 → q !!! COIL_DIM = 0 →
            <[READ_DIM := 0]>
              (<[COIL_DIM := 0]>
                 (<[READ_DIM := Z.of_nat b]> (<[COIL_DIM := Z.of_nat a]> q)))
            = q) as Hback.
  { intros q a b Hq Hqr Hqc.
    rewrite (list_insert_insert_ne _ COIL_DIM READ_DIM) by axes_ne.
    rewrite !list_insert_insert_eq.
    rewrite (list_insert_id q COIL_DIM).
    - apply list_insert_id. rewrite list_lookup_lookup_total_lt by axes_lt.
      by rewrite Hqr.
    - rewrite list_lookup_lookup_total_lt by axes_lt. by rewrite Hqc. }
  split_and!.
  - rewrite <- (Hback pos c r), <- (Hback pos' c' r') by done.
    by rewrite Heq.
  - apply (f_equal (λ l, l !!! COIL_DIM)) in Heq.
    rewrite !(list_lookup_total_insert_ne _ READ_DIM COIL_DIM) in Heq
      by axes_ne.
    rewrite !list_lookup_total_insert_eq in Heq by axes_lt. lia.
  - apply (f_equal (λ l, l !!! READ_DIM)) in Heq.
    rewrite !list_lookup_total_insert_eq in Heq by axes_lt. lia.
Qed.

Lemma rec_start_S (p k : nat) :
  rec_start vd dims (p + rec_size vd dims) k = rec_start vd dims p (S k).
Proof. unfold rec_start. lia. Qed.

Lemma rec_start_0 (p : nat) : rec_start vd dims p 0 = p.
Proof. unfold rec_start. lia. Qed.

Lemma adc_coord_S (p k : nat) :
  adc_coord file vd dims (p + rec_size vd dims) k
  = adc_coord file vd dims p (S k).
Proof. unfold adc_coord. by rewrite rec_start_S. Qed.

(** What one placement does to the output array. *)
Lemma placed_sample (p : nat) (o : cfl_array) (b : list cfl) (c r : nat) :
  (c < nC)%nat → (r < nR)%nat → (nC * nR ≤ length b)%nat →
  md_copy_block (rec_coord file vd dims p zeros) dims o (adc_dims_of dims)
    (rec_buf file vd dims p nC b)
    (block_index (rec_coord file vd dims p zeros) c r)
  = rec_sample file vd dims p c r.
Proof.
  intros Hc Hr Hlen. unfold block_index.
  rewrite md_copy_block_in.
  - rewrite adc_dims_of_read by done.
    replace (Z.to_nat (Z.of_nat c * dims !!! READ_DIM + Z.of_nat r))
      with (c * nR + r)%nat by nia.
    apply list_lookup_total_correct. by apply lookup_rec_buf.
  - apply length_rec_coord.
  - rewrite adc_dims_of_read by done. lia.
  - rewrite adc_dims_of_coil by done. lia.
Qed.

Lemma placed_other (pos : list Z) (o : cfl_array) (b : list cfl)
    (idx : list Z) :
  (∀ c r : nat, (c < nC)%nat → (r < nR)%nat → idx ≠ block_index pos c r) →
  md_copy_block pos dims o (adc_dims_of dims) b idx = o idx.
Proof.
  intros Hout. apply md_copy_block_out.
  intros r c. rewrite adc_dims_of_read, adc_dims_of_coil by done.
  intros Hr Hc. specialize (Hout (Z.to_nat c) (Z.to_nat r)).
  unfold block_index in Hout. rewrite !Z2Nat.id in Hout by lia.
  apply Hout; lia.
Qed.

(** [n] records that pass: each is read and placed, a later record
    overwrites an earlier one at the same coordinate, and nothing else in
    the output changes. *)
Lemma times_adc_iter_ok (n : nat) :
  ∀ (p : nat) (s : state),
    fd_pos s = p → (nC * nR ≤ length (buf s))%nat →
    (∀ k : nat, (k < n)%nat →
       rec_ok file vd dims (rec_start vd dims p k) zeros) →
    ∃ s' : state,
      times n (adc_iter file vd dims (adc_dims_of dims)) s = Ok () s' ∧
      fd_pos s' = rec_start vd dims p n ∧
      length (buf s') = length (buf s) ∧
      (∀ k c r : nat, (k < n)%nat → (c < nC)%nat → (r < nR)%nat →
         (∀ k' : nat, (k < k' < n)%nat →
            adc_coord file vd dims p k' ≠ adc_coord file vd dims p k) →
         out s' (block_index (adc_coord file vd dims p k) c r)
         = rec_sample file vd dims (rec_start vd dims p k) c r) ∧
      (∀ idx : list Z,
         (∀ k c r : nat, (k < n)%nat → (c < nC)%nat → (r < nR)%nat →
            idx ≠ block_index (adc_coord file vd dims p k) c r) →
         out s' idx = out s idx).
Proof.
  induction n as [|n IH]; intros p s Hp Hlen Hoks.
  - exists s. rewrite rec_start_0. split_and!; try done. intros; lia.
  - cbn [times]. unfold mbind, M_bind.
    pose proof (Hoks 0%nat ltac:(lia)) as Hok0.
    rewrite rec_start_0, <- Hp in Hok0.
    rewrite (adc_iter_ok s Hok0). rewrite Hp.
    set (s1 := State _ _ _).
    destruct (IH (p + rec_size vd dims)%nat s1 eq_refl) as
      (s' & Hrun & Hpos & Hbuf & Hin & Hout).
    { unfold s1. cbn [buf]. by rewrite length_rec_buf. }
    { intros k Hk. rewrite rec_start_S. apply Hoks. lia. }
    exists s'. split; [done|]. split; [by rewrite Hpos, rec_start_S|].
    split; [rewrite Hbuf; unfold s1; cbn [buf]; by rewrite length_rec_buf|].
    split.
    + intros k c r Hk Hc Hr Hlast.
      destruct k as [|k].
      * rewrite Hout.
        -- unfold s1. cbn [out]. unfold adc_coord. rewrite rec_start_0.
           by apply placed_sample.
        -- intros k' c' r' Hk' Hc' Hr' Heq. rewrite adc_coord_S in Heq.
           apply (Hlast (S k') ltac:(lia)). symmetry.
           unfold adc_coord in *.
           eapply block_index_inj; [..|exact Heq];
             auto using length_rec_coord, rec_coord_read, rec_coord_coil.
      * rewrite <- adc_coord_S, <- rec_start_S. apply Hin; [lia|done|done|].
        intros k' Hk'. rewrite !adc_coord_S. apply Hlast. lia.
    + intros idx Hfree. rewrite Hout.
      * unfold s1. cbn [out]. apply placed_other.
        intros c r Hc Hr. specialize (Hfree 0%nat c r ltac:(lia) Hc Hr).
        unfold adc_coord in Hfree. by rewrite rec_start_0 in Hfree.
      * intros k c r Hk Hc Hr. rewrite adc_coord_S. apply Hfree; lia.
Qed.

End RoundTrip.

(** ** Checking a file by computation *)

Section Checks.

Context `{mri_dims}.

Variable file : list byte.
Variable vd : bool.
Variable dims : list Z.

Lemma chan_okb_ok (p : nat) (pos : list Z) (c : nat) :
  chan_okb file vd dims p pos c = true → chan_ok file vd dims p pos c.
Proof.
  unfold chan_okb, chan_ok. rewrite !andb_true_iff.
  intros [[Hfit Hsmp] Hidx]. split_and!.
  - by apply Nat.leb_le.
  - by apply Z.eqb_eq.
  - done.
Qed.

Lemma rec_okb_ok (p : nat) (pos : list Z) :
  rec_okb file vd dims p pos = true → rec_ok file vd dims p pos.
Proof.
  unfold rec_okb, rec_ok. rewrite andb_true_iff, forallb_forall.
  intros [Hscan Hall]. split.
  - intros ->. cbn [implb] in Hscan. by apply Nat.leb_le.
  - intros c Hc. apply chan_okb_ok, Hall, in_seq. lia.
Qed.

Lemma recs_okb_ok (p n : nat) :
  recs_okb file vd dims p n = true →
  ∀ k : nat, (k < n)%nat →
    rec_ok file vd dims (rec_start vd dims p k) (replicate DIMS 0).
Proof.
  unfold recs_okb. rewrite forallb_forall. intros Hall k Hk.
  apply rec_okb_ok, Hall, in_seq. lia.
Qed.

End Checks.

(** ** What [main] sets up *)

Lemma lookup_total_cons_0 (y : Z) (l : list Z) : (y :: l) !!! 0%nat = y.
Proof. reflexivity. Qed.

Lemma lookup_total_cons_S (y : Z) (l : list Z) (i : nat) :
  (y :: l) !!! S i = l !!! i.
Proof. reflexivity. Qed.

Lemma prod_ones (l : list Z) :
  (∀ (k : nat) (x : Z), l !! k = Some x → x = 1) → foldr Z.mul 1 l = 1.
Proof.
  induction l as [|y l IH]; intros Hone; [done|].
  cbn [foldr]. rewrite (Hone 0%nat y eq_refl), IH; [done|].
  intros k x Hk. by apply (Hone (S k)).
Qed.

Lemma prod_one (l : list Z) :
  ∀ i : nat, (i < length l)%nat →
    (∀ (k : nat) (x : Z), k ≠ i → l !! k = Some x → x = 1) →
    foldr Z.mul 1 l = l !!! i.
Proof.
  induction l as [|y l IH]; intros i Hi Hone; [cbn in Hi; lia|].
  cbn [foldr]. cbn [length] in Hi. destruct i as [|i].
  - rewrite lookup_total_cons_0, prod_ones; [lia|].
    intros k x Hk. by apply (Hone (S k)).
  - rewrite lookup_total_cons_S, (Hone 0%nat y) by done.
    rewrite (IH i); [lia | lia |].
    intros k x Hne Hk. apply (Hone (S k)); [lia | done].
Qed.

Lemma prod_two (l : list Z) :
  ∀ i j : nat, i ≠ j → (i < length l)%nat → (j < length l)%nat →
    (∀ (k : nat) (x : Z), k ≠ i → k ≠ j → l !! k = Some x → x = 1) →
    foldr Z.mul 1 l = l !!! i * l !!! j.
Proof.
  induction l as [|y l IH]; intros i j Hij Hi Hj Hone; [cbn in Hi; lia|].
  cbn [foldr]. cbn [length] in Hi, Hj.
  destruct i as [|i], j as [|j]; [done|..];
    rewrite ?lookup_total_cons_0, ?lookup_total_cons_S.
  - rewrite (prod_one l j); [done | lia |].
    intros k x Hne Hk. apply (Hone (S k)); [lia | lia | done].
  - rewrite (prod_one l i); [lia | lia |].
    intros k x Hne Hk. apply (Hone (S k)); [lia | lia | done].
  - rewrite (Hone 0%nat y) by done.
    rewrite (IH i j); [lia | lia | lia | lia |].
    intros k x Hni Hnj Hk. apply (Hone (S k)); [lia | lia | done].
Qed.

Section MainSetup.

Context `{mri_dims}.

Lemma length_cli_parse (opts : list cli_opt) :
  length (main_dims opts) = DIMS.
Proof.
  unfold main_dims, cli_parse.
  assert (∀ st : list Z * Z, length st.1 = DIMS →
            length (foldl cli_step st opts).1 = DIMS) as Hgen.
  { induction opts as [|o opts IH]; intros [d a] Hlen; [done|].
    cbn [foldl]. apply IH.
    destruct o; cbn [cli_step fst]; by rewrite ?length_insert. }
  apply Hgen. apply length_replicate.
Qed.

(** The block [main] allocates holds [dims[READ_DIM] * dims[COIL_DIM]]
    samples. *)
Lemma length_md_alloc (dims : list Z) :
  length dims = DIMS →
  (Z.to_nat (dims !!! COIL_DIM) * Z.to_nat (dims !!! READ_DIM)
   ≤ length (md_alloc (adc_dims_of dims)))%nat.
Proof.
  intros Hlen. unfold md_alloc. rewrite length_replicate.
  rewrite (prod_two _ READ_DIM COIL_DIM).
  - rewrite adc_dims_of_read, adc_dims_of_coil by done.
    destruct (decide (0 ≤ dims !!! READ_DIM)); [|lia].
    destruct (decide (0 ≤ dims !!! COIL_DIM)); [|lia].
    rewrite Z2Nat.inj_mul by lia. lia.
  - axes_ne.
  - rewrite length_adc_dims_of. axes_lt.
  - rewrite length_adc_dims_of. axes_lt.
  - intros k x Hr Hc Hk.
    assert (k < length dims)%nat as Hlt.
    { rewrite <- length_adc_dims_of. by eapply lookup_lt_Some. }
    rewrite adc_dims_of_other in Hk by done. congruence.
Qed.

End MainSetup.

(** ** The metadata as bytes of the file *)

Section Metadata.

Context `{mri_dims}.

Variable file : list byte.
Variable vd : bool.
Variable dims : list Z.

(** The sample count is the 16-bit field at byte 8 of the metadata. *)
Lemma samples_rec_mdh (p c : nat) :
  samples (rec_mdh file vd dims p c)
  = field (mdh_start vd dims p c + 8) 2 file.
Proof.
  unfold rec_mdh, mdh2_of_bytes, sizeof_mdh2. cbn [samples].
  by rewrite field_slice by lia.
Qed.

(** Loop counter [i] is the 16-bit field at byte [12 + 2 * i]. *)
Lemma sLC_rec_mdh (p c i : nat) :
  (i < 14)%nat →
  sLC (rec_mdh file vd dims p c) !!! i
  = field (mdh_start vd dims p c + 12 + 2 * i) 2 file.
Proof.
  intros Hi. unfold rec_mdh, mdh2_of_bytes, sizeof_mdh2. cbn [sLC].
  unfold fields. rewrite list_lookup_total_alt, list_lookup_fmap.
  rewrite lookup_seq_lt by done. cbn [fmap option_fmap option_map default].
  rewrite field_slice by (cbn [Init.Nat.add]; lia).
  unfold id. f_equal. lia.
Qed.

Lemma mdh_start_vd (p c : nat) :
  vd = true → mdh_start vd dims p c = (p + 40)%nat.
Proof. intros ->. done. Qed.

Lemma mdh_start_vb (p c : nat) :
  vd = false →
  mdh_start vd dims p c
  = (p + c * (128 + Z.to_nat (dims !!! READ_DIM) * 8) + 20)%nat.
Proof.
  intros ->. unfold mdh_start, chan_start, chan_size, sizeof_scan_hdr,
    sizeof_chan_hdr, CFL_SIZE. lia.
Qed.

(** The coordinate the reader hands back has the coil axis at 0 and the
    read axis as it was given. *)
Lemma rec_coord_axes (p : nat) (pos : list Z) :
  length pos = DIMS →
  rec_coord file vd dims p pos !!! COIL_DIM = 0 ∧
  rec_coord file vd dims p pos !!! READ_DIM = pos !!! READ_DIM.
Proof.
  intros Hlen. unfold rec_coord. destruct (decide _).
  - split.
    + apply list_lookup_total_insert_eq. axes_lt.
    + apply list_lookup_total_insert_ne. axes_ne.
  - split.
    + by apply rec_pos_coil.
    + unfold rec_pos. rewrite adc_pos_read.
      apply list_lookup_total_insert_ne. axes_ne.
Qed.

(** With a channel to read, the coordinate carries the loop counters of
    the first channel's metadata. *)
Lemma rec_coord_counters (p : nat) (pos : list Z) :
  length pos = DIMS → (0 < Z.to_nat (dims !!! COIL_DIM))%nat →
  let mdh := rec_mdh file vd dims p 0 in
  rec_coord file vd dims p pos !!! PHS1_DIM = sLC mdh !!! 0%nat ∧
  rec_coord file vd dims p pos !!! SLICE_DIM = sLC mdh !!! 2%nat ∧
  rec_coord file vd dims p pos !!! PHS2_DIM = sLC mdh !!! 3%nat ∧
  rec_coord file vd dims p pos !!! TE_DIM = sLC mdh !!! 4%nat ∧
  rec_coord file vd dims p pos !!! TIME_DIM = sLC mdh !!! 6%nat ∧
  rec_coord file vd dims p pos !!! TIME2_DIM = sLC mdh !!! 7%nat.
Proof.
  intros Hlen HC. cbv zeta. unfold rec_coord.
  rewrite decide_False by lia. unfold rec_pos.
  apply adc_pos_counters. by rewrite length_insert.
Qed.

End Metadata.

(** ** The whole run *)

Section Run.

Context `{mri_dims}.

(** After the Header Detector, [main] is the driver loop on a fresh block
    and a fresh output array. *)
Lemma main_loop (opts : list cli_opt) (file : list byte) (fuel : nat)
    (vd : bool) (hdr : hdr_s) (s1 : state) :
  siemens_meas_setup file start_state = Ok (vd, hdr) s1 →
  main opts file fuel
  = adc_loop file vd (main_dims opts) (adc_dims_of (main_dims opts)) fuel
      (main_adcs opts)
      (State (fd_pos s1) (md_alloc (adc_dims_of (main_dims opts)))
         (create_cfl (main_dims opts))).
Proof. intros Hsetup. unfold main. by rewrite Hsetup. Qed.

(** A loop over [K] records that pass reads and places them all. *)
Lemma adc_loop_ok (file : list byte) (vd : bool) (dims : list Z)
    (fuel K : nat) (s : state) :
  length dims = DIMS →
  (K < fuel)%nat → Z.of_nat K < 2 ^ 63 →
  (Z.to_nat (dims !!! COIL_DIM) * Z.to_nat (dims !!! READ_DIM)
   ≤ length (buf s))%nat →
  (∀ k : nat, (k < K)%nat →
     rec_ok file vd dims (rec_start vd dims (fd_pos s) k)
       (replicate DIMS 0)) →
  ∃ s' : state,
    adc_loop file vd dims (adc_dims_of dims) fuel (Z.of_nat K) s
    = Some (Ok () s') ∧
    fd_pos s' = rec_start vd dims (fd_pos s) K ∧
    records_placed file vd dims (fd_pos s) K (out s') ∧
    (∀ idx : list Z,
       (∀ k c r : nat, (k < K)%nat →
          (c < Z.to_nat (dims !!! COIL_DIM))%nat →
          (r < Z.to_nat (dims !!! READ_DIM))%nat →
          idx ≠ block_index (adc_coord file vd dims (fd_pos s) k) c r) →
       out s' idx = out s idx).
Proof.
  intros Hdims Hfuel HK Hbuf Hoks.
  destruct (times_adc_iter_ok file vd dims Hdims K (fd_pos s) s eq_refl
              Hbuf Hoks) as (s' & Hrun & Hpos & _ & Hin & Hout).
  exists s'. rewrite adc_loop_times by done. by rewrite Hrun.
Qed.

End Run.

(** ** Aborting runs *)

Section Abort.

Context `{mri_dims}.

Variable file : list byte.
Variable vd : bool.
Variable dims : list Z.
Hypothesis Hdims : length dims = DIMS.

Local Abbreviation zeros := (replicate DIMS 0).
Local Abbreviation nR := (Z.to_nat (dims !!! READ_DIM)).
Local Abbreviation nC := (Z.to_nat (dims !!! COIL_DIM)).
Local Abbreviation iter := (adc_iter file vd dims (adc_dims_of dims)).
Local Abbreviation loop := (adc_loop file vd dims (adc_dims_of dims)).

(** After [k] rounds that pass, the loop goes on from where they end. *)
Lemma adc_loop_prefix (k : nat) :
  ∀ (fuel : nat) (adcs : Z) (s0 s : state),
    times k iter s0 = Ok () s →
    0 ≤ adcs → Z.of_nat k + adcs < 2 ^ 63 →
    loop (k + fuel)%nat (Z.of_nat k + adcs) s0 = loop fuel adcs s.
Proof.
  induction k as [|k IH]; intros fuel adcs s0 s Hrun Hadcs Hrange.
  - cbn in Hrun. unfold mret, M_ret in Hrun. injection Hrun as ->.
    by rewrite Z.add_0_l.
  - cbn [times] in Hrun. unfold mbind, M_bind in Hrun.
    replace (S k + fuel)%nat with (S (k + fuel)) by lia.
    rewrite adc_loop_step by lia.
    destruct (adc_iter _ _ _ _ s0) as [[] s1|e s1]; [|done].
    replace (Z.of_nat (S k) + adcs - 1) with (Z.of_nat k + adcs) by lia.
    apply IH; [done | lia | lia].
Qed.

Lemma adc_loop_fatal (fuel : nat) (adcs : Z) (s : state) (e : fatal)
    (s' : state) :
  iter s = Fatal e s' → adcs ≠ 0 → - 2 ^ 63 < adcs < 2 ^ 63 →
  loop (S fuel) adcs s = Some (Fatal e s').
Proof. intros Hit Hne Hrange. by rewrite adc_loop_step, Hit. Qed.

(** A record that passes is placed within the shape. *)
Lemma block_index_in_bounds (p c r : nat) :
  rec_ok file vd dims p zeros → (c < nC)%nat → (r < nR)%nat →
  md_is_index DIMS (block_index (rec_coord file vd dims p zeros) c r) dims
  = true.
Proof.
  intros [_ Hoks] Hc Hr.
  destruct (Hoks 0%nat ltac:(lia)) as (_ & _ & Hidx).
  rewrite (pos_out_0 file vd dims p zeros (length_replicate _ _)) in Hidx.
  rewrite md_is_index_spec in Hidx. apply md_is_index_spec. intros i Hi.
  unfold rec_coord. rewrite decide_False by lia. unfold block_index.
  pose proof (length_rec_pos file vd dims p zeros (length_replicate _ _))
    as Hlen.
  destruct (decide (i = READ_DIM)) as [->|Hnr].
  { rewrite list_lookup_total_insert_eq by (rewrite length_insert; lia). lia. }
  rewrite list_lookup_total_insert_ne by done.
  destruct (decide (i = COIL_DIM)) as [->|Hnc].
  { rewrite list_lookup_total_insert_eq by lia. lia. }
  rewrite list_lookup_total_insert_ne by done. by apply Hidx.
Qed.

(** The loop writes nothing outside the shape of the output array. *)
Lemma adc_loop_in_bounds (fuel : nat) :
  ∀ (adcs : Z) (s : state) (r : result ()),
    loop fuel adcs s = Some r →
    ∀ idx : list Z, md_is_index DIMS idx dims = false →
      out (final_state r) idx = out s idx.
Proof.
  induction fuel as [|fuel IH]; intros adcs s r Hrun idx Hidx; [done|].
  cbn [adc_loop] in Hrun.
  destruct (decide (adcs = 0)) as [_|_].
  { injection Hrun as <-. done. }
  cbv zeta in Hrun.
  pose proof (adc_iter_at file vd dims (adc_dims_of dims) s) as Hit.
  cbv zeta in Hit.
  destruct (adc_iter _ _ _ _ s) as [[] s1|e s1].
  - destruct Hit as [Hok ->].
    rewrite (IH _ _ _ Hrun idx Hidx). cbn [out].
    apply placed_other; [done|]. intros c r' Hc Hr Heq.
    pose proof (block_index_in_bounds (fd_pos s) c r' Hok Hc Hr) as Hin.
    congruence.
  - injection Hrun as <-. cbn [final_state]. by destruct Hit as [-> _].
Qed.



End Abort.

(** ** Two files that the reader cannot tell apart *)

Section Ext.

Context `{mri_dims}.

Variable f1 f2 : list byte.
Variable vd : bool.
Variable dims : list Z.
Hypothesis Hlen : length f1 = length f2.

Local Abbreviation nR := (Z.to_nat (dims !!! READ_DIM)).
Local Abbreviation nC := (Z.to_nat (dims !!! COIL_DIM)).

Lemma slice_ext (a n : nat) :
  (∀ i : nat, (a ≤ i < a + n)%nat → f1 !! i = f2 !! i) →
  slice f1 a n = slice f2 a n.
Proof.
  clear Hlen. intros Hagree. unfold slice. apply list_eq. intros i.
  rewrite !lookup_take, !lookup_drop.
  destruct (decide (i < n)%nat); [|done]. apply Hagree. lia.
Qed.

Lemma field_ext (a n : nat) :
  (∀ i : nat, (a ≤ i < a + n)%nat → f1 !! i = f2 !! i) →
  field a n f1 = field a n f2.
Proof.
  clear Hlen. intros Hagree. unfold field.
  change (take n (drop a f1)) with (slice f1 a n).
  change (take n (drop a f2)) with (slice f2 a n).
  by rewrite slice_ext.
Qed.

Lemma length_slice_ext (a n : nat) :
  length (slice f1 a n) = length (slice f2 a n).
Proof. by rewrite !length_slice, Hlen. Qed.

(** One channel, read from either file. *)
Lemma adc_channel_ext (scan1 scan2 : list byte) (pos : list Z) (s : state) :
  samples (adc_mdh vd scan1 (slice f1 (fd_pos s) (sizeof_chan_hdr vd)))
  = samples (adc_mdh vd scan2 (slice f2 (fd_pos s) (sizeof_chan_hdr vd))) →
  (0 = pos !!! COIL_DIM →
   adc_pos (adc_mdh vd scan1 (slice f1 (fd_pos s) (sizeof_chan_hdr vd))) pos
   = adc_pos (adc_mdh vd scan2 (slice f2 (fd_pos s) (sizeof_chan_hdr vd)))
       pos) →
  slice f1 (fd_pos s + sizeof_chan_hdr vd) (nR * CFL_SIZE)
  = slice f2 (fd_pos s + sizeof_chan_hdr vd) (nR * CFL_SIZE) →
  adc_channel f1 vd dims scan1 pos s = adc_channel f2 vd dims scan2 pos s.
Proof.
  intros Hsmp Hpos Hdata. rewrite !adc_channel_eq. cbv zeta.
  rewrite Hlen, Hsmp, Hdata.
  rewrite (length_slice_ext (fd_pos s) (sizeof_chan_hdr vd)).
  destruct (decide (0 = pos !!! COIL_DIM)) as [Hc|Hc].
  - by rewrite (Hpos Hc).
  - done.
Qed.

Section Record.

Variable p : nat.
Variable pos0 : list Z.
Hypothesis Hpos0 : length pos0 = DIMS.

(** What the reader uses of the record at [p] is the same in both
    files. *)
Hypothesis Hrec_pos :
  rec_pos f1 vd dims p pos0 = rec_pos f2 vd dims p pos0.
Hypothesis Hchan :
  ∀ c : nat, (c < nC)%nat →
    samples (rec_mdh f1 vd dims p c) = samples (rec_mdh f2 vd dims p c) ∧
    slice f1 (chan_start vd dims p c + sizeof_chan_hdr vd) (nR * CFL_SIZE)
    = slice f2 (chan_start vd dims p c + sizeof_chan_hdr vd) (nR * CFL_SIZE).

Let pos_in (c : nat) : list Z :=
  match c with
  | O => <[COIL_DIM := 0]> pos0
  | S _ => <[COIL_DIM := Z.of_nat c]> (rec_pos f1 vd dims p pos0)
  end.

Lemma adc_channels_ext (n : nat) :
  ∀ (c : nat) (s : state),
    fd_pos s = chan_start vd dims p c → (c + n ≤ nC)%nat →
    adc_channels f1 vd dims (slice f1 p (sizeof_scan_hdr vd)) n (pos_in c) s
    = adc_channels f2 vd dims (slice f2 p (sizeof_scan_hdr vd)) n (pos_in c) s.
Proof.
  induction n as [|n IH]; intros c s Hq Hc; [done|].
  cbn [adc_channels]. unfold mbind, M_bind.
  assert (adc_channel f1 vd dims (slice f1 p (sizeof_scan_hdr vd)) (pos_in c) s
          = adc_channel f2 vd dims (slice f2 p (sizeof_scan_hdr vd))
              (pos_in c) s) as Hstep.
  { destruct (Hchan c ltac:(lia)) as [Hsmp Hdata].
    apply adc_channel_ext; rewrite Hq, ?adc_mdh_slices.
    - done.
    - intros Hzero. destruct c as [|c].
      + exact Hrec_pos.
      + exfalso. cbn [pos_in] in Hzero.
        rewrite list_lookup_total_insert_eq in Hzero; [lia|].
        rewrite length_rec_pos by done. axes_lt.
    - done. }
  rewrite <- Hstep.
  pose proof (adc_channel_at f1 vd dims p pos0 Hpos0 c s Hq) as Hat.
  fold (pos_in c) in Hat.
  destruct (adc_channel f1 _ _ _ _ s) as [pos' s'|e s']; [|done].
  destruct Hat as (_ & -> & ->).
  rewrite (pos_next f1 vd dims p pos0 Hpos0 c). fold (pos_in (S c)).
  apply IH; [done | lia].
Qed.

Lemma siemens_adc_read_ext (s : state) :
  fd_pos s = p →
  siemens_adc_read f1 vd dims pos0 s = siemens_adc_read f2 vd dims pos0 s.
Proof.
  intros Hq. unfold siemens_adc_read. unfold mbind at 1 3, M_bind at 1 3.
  unfold xread. rewrite (length_slice_ext (fd_pos s) (sizeof_scan_hdr vd)).
  destruct (decide _) as [Hfit|Hshort]; [|done].
  rewrite Hq.
  pose proof (adc_channels_ext nC 0
                (set_fd_pos (p + sizeof_scan_hdr vd) s)) as Hloop.
  cbn [pos_in] in Hloop. unfold mbind, M_bind.
  rewrite Hloop; [done | | lia].
  rewrite chan_start_0. done.
Qed.

End Record.

End Ext.

(** ** Files that differ in a region of bytes *)

Lemma differ_only_ok (region : nat → bool) (f1 f2 : list byte) :
  differ_only region f1 f2 = true →
  length f1 = length f2 ∧
  ∀ i : nat, region i = false → f1 !! i = f2 !! i.
Proof.
  unfold differ_only. rewrite andb_true_iff, forallb_forall.
  intros [Hlen%Nat.eqb_eq Hall]. split; [done|].
  intros i Hout. destruct (decide (i < length f1)%nat) as [Hi|Hi].
  - specialize (Hall i). rewrite Hout in Hall. cbn [orb] in Hall.
    eapply bool_decide_eq_true_1, Hall, in_seq. lia.
  - rewrite !lookup_ge_None_2; [done | lia | lia].
Qed.

Section Regions.

Context `{mri_dims}.

Variable vd : bool.
Variable dims : list Z.

Local Abbreviation nC := (Z.to_nat (dims !!! COIL_DIM)).

Lemma later_countersb_ok (p i : nat) :
  later_countersb vd dims p i = true → later_counters vd dims p i.
Proof.
  unfold later_countersb, later_counters. rewrite existsb_exists.
  intros (c & Hc%in_seq & Hin). rewrite !andb_true_iff in Hin.
  destruct Hin as [[H0%Nat.ltb_lt Hlo%Nat.leb_le] Hhi%Nat.ltb_lt].
  exists c. lia.
Qed.

Lemma in_chan_hdrb_ok (p0 K i : nat) :
  in_chan_hdrb vd dims p0 K i = true → in_chan_hdr vd dims p0 i.
Proof.
  unfold in_chan_hdrb, in_chan_hdr. rewrite existsb_exists.
  intros (k & _ & Hk). rewrite existsb_exists in Hk.
  destruct Hk as (c & Hc%in_seq & Hin). rewrite andb_true_iff in Hin.
  destruct Hin as [Hlo%Nat.leb_le Hhi%Nat.ltb_lt].
  exists k, c. lia.
Qed.

(** The channels of a record follow each other, inside the record, and
    the records follow each other. *)
Lemma chan_size_ge : (sizeof_chan_hdr vd ≤ chan_size vd dims)%nat.
Proof. unfold chan_size. lia. Qed.

Lemma chan_start_lt (p c c' : nat) :
  (c < c')%nat →
  (chan_start vd dims p c + chan_size vd dims ≤ chan_start vd dims p c')%nat.
Proof.
  intros Hc. unfold chan_start.
  pose proof (Nat.mul_le_mono_r (S c) c' (chan_size vd dims) ltac:(lia)).
  lia.
Qed.

Lemma chan_start_in_rec (p c : nat) :
  (c < nC)%nat →
  (chan_start vd dims p c + chan_size vd dims ≤ p + rec_size vd dims)%nat.
Proof.
  intros Hc. unfold chan_start, rec_size.
  pose proof (Nat.mul_le_mono_r (S c) nC (chan_size vd dims) ltac:(lia)).
  lia.
Qed.

Lemma chan_start_ge (p c : nat) :
  (p + sizeof_scan_hdr vd ≤ chan_start vd dims p c)%nat.
Proof. unfold chan_start. lia. Qed.

Lemma rec_start_lt (p k k' : nat) :
  (k < k')%nat →
  (rec_start vd dims p k + rec_size vd dims ≤ rec_start vd dims p k')%nat.
Proof.
  intros Hk. unfold rec_start.
  pose proof (Nat.mul_le_mono_r (S k) k' (rec_size vd dims) ltac:(lia)).
  lia.
Qed.

End Regions.

(** In a VB record, the loop counters of the channels after the first are
    bytes the reader does not use. *)
Lemma later_counters_unused `{mri_dims} (f1 f2 : list byte) (dims : list Z)
    (p : nat) (pos0 : list Z) :
  (∀ i : nat, ¬ later_counters false dims p i → f1 !! i = f2 !! i) →
  rec_pos f1 false dims p pos0 = rec_pos f2 false dims p pos0 ∧
  ∀ c : nat, (c < Z.to_nat (dims !!! COIL_DIM))%nat →
    samples (rec_mdh f1 false dims p c) = samples (rec_mdh f2 false dims p c) ∧
    slice f1 (chan_start false dims p c + sizeof_chan_hdr false)
      (Z.to_nat (dims !!! READ_DIM) * CFL_SIZE)
    = slice f2 (chan_start false dims p c + sizeof_chan_hdr false)
        (Z.to_nat (dims !!! READ_DIM) * CFL_SIZE).
Proof.
  intros Hagree.
  assert (∀ c c' : nat, (c < c')%nat →
            chan_start false dims p c + 128 ≤ chan_start false dims p c')%nat
    as Hmono.
  { intros c c' Hc. pose proof (chan_start_lt false dims p c c' Hc).
    pose proof (chan_size_ge false dims).
    unfold sizeof_chan_hdr in *. lia. }
  split.
  - unfold rec_pos, rec_mdh. f_equal. f_equal.
    apply slice_ext. intros i Hi. apply Hagree.
    intros (c & Hc & Hin). unfold mdh_start, sizeof_mdh2 in *.
    specialize (Hmono 0%nat c ltac:(lia)). lia.
  - intros c Hc. split.
    + rewrite !samples_rec_mdh. apply field_ext. intros i Hi.
      apply Hagree. intros (c' & Hc' & Hin). unfold mdh_start in *.
      destruct (Nat.lt_trichotomy c c') as [Hlt|[->|Hgt]].
      * specialize (Hmono c c' Hlt). lia.
      * lia.
      * specialize (Hmono c' c Hgt). lia.
    + apply slice_ext. intros i Hi. apply Hagree.
      intros (c' & Hc' & Hin). unfold mdh_start, sizeof_chan_hdr in *.
      pose proof (chan_start_S false dims p c) as HS.
      unfold sizeof_chan_hdr in HS.
      destruct (decide (c' ≤ c)%nat) as [Hle|Hgt].
      * destruct (decide (c' = c)) as [->|Hne]; [lia|].
        specialize (Hmono c' c ltac:(lia)). lia.
      * destruct (decide (c' = S c)) as [->|Hne]; [lia|].
        specialize (Hmono (S c) c' ltac:(lia)). lia.
Qed.

(** In a run of VD records, the channel headers are bytes the reader
    does not use. *)
Lemma chan_hdr_unused `{mri_dims} (f1 f2 : list byte) (dims : list Z)
    (p0 k : nat) (pos0 : list Z) :
  (∀ i : nat, ¬ in_chan_hdr true dims p0 i → f1 !! i = f2 !! i) →
  let p := rec_start true dims p0 k in
  rec_pos f1 true dims p pos0 = rec_pos f2 true dims p pos0 ∧
  ∀ c : nat, (c < Z.to_nat (dims !!! COIL_DIM))%nat →
    samples (rec_mdh f1 true dims p c) = samples (rec_mdh f2 true dims p c) ∧
    slice f1 (chan_start true dims p c + sizeof_chan_hdr true)
      (Z.to_nat (dims !!! READ_DIM) * CFL_SIZE)
    = slice f2 (chan_start true dims p c + sizeof_chan_hdr true)
        (Z.to_nat (dims !!! READ_DIM) * CFL_SIZE).
Proof.
  intros Hagree p.
  assert (∀ (k' c' i : nat),
            (c' < Z.to_nat (dims !!! COIL_DIM))%nat →
            (chan_start true dims (rec_start true dims p0 k') c' ≤ i
             < chan_start true dims (rec_start true dims p0 k') c' + 32)%nat →
            (k' < k → i < p)%nat ∧
            (k < k' → p + rec_size true dims + 192 ≤ i)%nat ∧
            (k' = k → p + 192 ≤ i)%nat) as Hwhere.
  { intros k' c' i Hc' Hin.
    pose proof (chan_start_in_rec true dims (rec_start true dims p0 k') c' Hc').
    pose proof (chan_start_ge true dims (rec_start true dims p0 k') c').
    pose proof (chan_size_ge true dims).
    unfold sizeof_chan_hdr, sizeof_scan_hdr in *.
    split_and!.
    - intros Hlt. pose proof (rec_start_lt true dims p0 k' k Hlt).
      unfold p. lia.
    - intros Hgt. pose proof (rec_start_lt true dims p0 k k' Hgt).
      unfold p in *. lia.
    - intros ->. unfold p. lia. }
  assert (∀ c : nat, rec_mdh f1 true dims p c = rec_mdh f2 true dims p c)
    as Hmdh.
  { intros c. unfold rec_mdh. f_equal. apply slice_ext. intros i Hi.
    apply Hagree. intros (k' & c' & Hc' & Hin).
    destruct (Hwhere k' c' i Hc' Hin) as (Hlt & Hgt & Heq).
    unfold mdh_start, sizeof_mdh2 in Hi.
    destruct (Nat.lt_trichotomy k' k) as [Hk|[Hk|Hk]]; [specialize (Hlt Hk) | specialize (Heq Hk) | specialize (Hgt Hk)]; lia. }
  split.
  - unfold rec_pos. by rewrite Hmdh.
  - intros c Hc. split; [by rewrite Hmdh|].
    apply slice_ext. intros i Hi. apply Hagree.
    intros (k' & c' & Hc' & Hin).
    destruct (Hwhere k' c' i Hc' Hin) as (Hlt & Hgt & _).
    pose proof (chan_start_S true dims p c) as HS.
    pose proof (chan_start_in_rec true dims p c Hc) as Hrec.
    pose proof (chan_start_ge true dims p c) as Hge.
    unfold chan_size in Hrec.
    unfold sizeof_chan_hdr, sizeof_scan_hdr in *.
    destruct (Nat.lt_trichotomy k' k) as [Hk|[->|Hk]].
    + specialize (Hlt Hk). lia.
    + fold p in Hin.
      destruct (Nat.lt_trichotomy c' c) as [Hlc|[->|Hgc]].
      * pose proof (chan_start_lt true dims p c' c Hlc).
        pose proof (chan_size_ge true dims).
        unfold sizeof_chan_hdr in *. lia.
      * lia.
      * destruct (decide (c' = S c)) as [->|Hne]; [lia|].
        pose proof (chan_start_lt true dims p (S c) c' ltac:(lia)). lia.
    + specialize (Hgt Hk). lia.
Qed.

Section LoopExt.

Context `{mri_dims}.

Variable f1 f2 : list byte.
Variable vd : bool.
Variable dims : list Z.
Variable adc_dims : list Z.
Hypothesis Hlen : length f1 = length f2.

Local Abbreviation zeros := (replicate DIMS 0).

(** The two files look the same to the reader at the record at [p]. *)
Let same_record (p : nat) : Prop :=
  rec_pos f1 vd dims p zeros = rec_pos f2 vd dims p zeros ∧
  ∀ c : nat, (c < Z.to_nat (dims !!! COIL_DIM))%nat →
    samples (rec_mdh f1 vd dims p c) = samples (rec_mdh f2 vd dims p c) ∧
    slice f1 (chan_start vd dims p c + sizeof_chan_hdr vd)
      (Z.to_nat (dims !!! READ_DIM) * CFL_SIZE)
    = slice f2 (chan_start vd dims p c + sizeof_chan_hdr vd)
        (Z.to_nat (dims !!! READ_DIM) * CFL_SIZE).

Lemma adc_iter_ext (s : state) :
  same_record (fd_pos s) →
  adc_iter f1 vd dims adc_dims s = adc_iter f2 vd dims adc_dims s.
Proof.
  intros [Hrec Hchan]. unfold adc_iter. cbv zeta.
  unfold mbind, M_bind.
  by rewrite (siemens_adc_read_ext f1 f2 vd dims Hlen (fd_pos s) zeros
                (length_replicate _ _) Hrec Hchan s eq_refl).
Qed.

Lemma adc_loop_ext (fuel : nat) :
  ∀ (adcs : Z) (s : state),
    (∀ k : nat, same_record (rec_start vd dims (fd_pos s) k)) →
    adc_loop f1 vd dims adc_dims fuel adcs s
    = adc_loop f2 vd dims adc_dims fuel adcs s.
Proof.
  induction fuel as [|fuel IH]; intros adcs s Hsame; [done|].
  cbn [adc_loop]. destruct (decide (adcs = 0)); [done|]. cbv zeta.
  pose proof (Hsame 0%nat) as Hsame0. unfold rec_start in Hsame0.
  rewrite Nat.mul_0_l, Nat.add_0_r in Hsame0.
  rewrite (adc_iter_ext s Hsame0).
  pose proof (adc_iter_at f2 vd dims adc_dims s) as Hit. cbv zeta in Hit.
  destruct (adc_iter f2 _ _ _ s) as [[] s'|e s']; [|done].
  destruct Hit as [_ ->]. apply IH. intros k. cbn [fd_pos].
  specialize (Hsame (S k)). unfold rec_start in *.
  replace (fd_pos s + rec_size vd dims + k * rec_size vd dims)%nat
    with (fd_pos s + S k * rec_size vd dims)%nat by lia.
  exact Hsame.
Qed.

End LoopExt.

(** The Header Detector reads the leading header and, for VD, the four
    bytes at [data_offset]. *)
Lemma setup_ext (f1 f2 : list byte) (s : state) :
  length f1 = length f2 →
  (∀ i : nat, (i < 24)%nat → f1 !! i = f2 !! i) →
  (∀ i : nat,
     (Z.to_nat (field 16 8 f1) ≤ i < Z.to_nat (field 16 8 f1) + 4)%nat →
     f1 !! i = f2 !! i) →
  siemens_meas_setup f1 s = siemens_meas_setup f2 s.
Proof.
  intros Hlen Hhead Hoff.
  assert (∀ a n : nat, (a + n ≤ 24)%nat → field a n f1 = field a n f2)
    as Hfield.
  { intros a n Han. apply field_ext. intros i Hi. apply Hhead. lia. }
  destruct (decide (length f1 < 24)%nat) as [Hshort|Hlong].
  { rewrite !setup_short by lia. by rewrite Hlen. }
  destruct (decide (field 0 4 f1 < 10000 ∧ field 4 4 f1 < 64))
    as [[Ho Hn]|Hvb].
  - rewrite (setup_VD f1) by (done || lia).
    rewrite (setup_VD f2) by (rewrite <- ?Hfield by lia; done || lia).
    rewrite <- ?(Hfield 0%nat 4%nat), <- ?(Hfield 4%nat 4%nat),
      <- ?(Hfield 8%nat 4%nat), <- ?(Hfield 12%nat 4%nat),
      <- ?(Hfield 16%nat 8%nat) by lia.
    rewrite <- Hlen.
    rewrite <- (field_ext f1 f2 (Z.to_nat (field 16 8 f1)) 4 Hoff).
    rewrite <- (slice_ext f1 f2 (Z.to_nat (field 16 8 f1)) 4 Hoff).
    done.
  - rewrite (setup_VB f1) by (done || lia).
    rewrite (setup_VB f2) by (rewrite <- ?Hfield by lia; done || lia).
    by rewrite <- ?(Hfield 0%nat 4%nat), <- ?(Hfield 4%nat 4%nat),
      <- ?(Hfield 8%nat 4%nat), <- ?(Hfield 12%nat 4%nat),
      <- ?(Hfield 16%nat 8%nat) by lia.
Qed.

(** Where a VD run starts. *)
Lemma setup_VD_start (file : list byte) (s : state) (hdr : hdr_s)
    (s1 : state) :
  siemens_meas_setup file s = Ok (true, hdr) s1 →
  (Z.to_nat (field 16 8 file) ≤ fd_pos s1)%nat.
Proof.
  intros Hsetup.
  pose proof (field_bound (Z.to_nat (field 16 8 file)) 4 file) as Hb.
  destruct (decide (length file < 24)%nat) as [Hshort|Hlong].
  { by rewrite setup_short in Hsetup by lia. }
  destruct (decide (field 0 4 file < 10000 ∧ field 4 4 file < 64))
    as [[Ho Hn]|Hvb].
  - rewrite setup_VD in Hsetup by (done || lia).
    repeat case_decide; try done.
    injection Hsetup as _ <-. cbn [fd_pos set_fd_pos]. lia.
  - by rewrite setup_VB in Hsetup by (done || lia).
Qed.

(** ** The definitions at work *)

(** The Header Detector on a VB and on a VD file. *)
Example setup_file_vb :
  siemens_meas_setup Synth.file_vb start_state
  = Ok (false, Hdr 32 1 0 0 0) (set_fd_pos 32 start_state).
Proof. vm_compute. reflexivity. Qed.

Example setup_file_vd :
  siemens_meas_setup Synth.file_vd start_state
  = Ok (true, Hdr 12 1 7 9 32) (set_fd_pos 44 start_state).
Proof. vm_compute. reflexivity. Qed.

(** The end-to-end example of the specification: read = 4, phase1 = 2, two
    VB records on lines 0 and 1; the second sample of each record. *)
Example main_file_vb :
  match main [Opt_x 4; Opt_y 2] Synth.file_vb 3 with
  | Some (Ok _ s) =>
      fd_pos s = 352%nat ∧
      out s (block_index (<[PHS1_DIM := 0]> (replicate DIMS 0)) 0 1)
      = Synth.sample 3 4 ∧
      out s (block_index (<[PHS1_DIM := 1]> (replicate DIMS 0)) 0 1)
      = Synth.sample 13 14 ∧
      out s (block_index (<[PHS1_DIM := 2]> (replicate DIMS 0)) 0 1)
      = cfl_zero
  | _ => False
  end.
Proof. vm_compute. by split_and!. Qed.

(** A sample count that is not the read extent, and a line outside the
    shape. *)
Example main_file_bad :
  match main [Opt_x 2; Opt_c 2] Synth.file_bad 2 with
  | Some (Fatal e _) => e = WrongSamples
  | _ => False
  end.
Proof. vm_compute. reflexivity. Qed.

Example main_file_far :
  match main [Opt_x 2] Synth.file_far 2 with
  | Some (Fatal e _) => e = NotAnIndex
  | _ => False
  end.
Proof. vm_compute. reflexivity. Qed.

(** C1 (as amended). End-to-end round trip: when the Header Detector
    succeeds and the [K] records the driver loop is to read all pass, [main]
    ends normally, and the output array holds each record's samples, byte for
    byte, at the coordinate derived from the record's first channel
    ([output[coordinate with read = r, coil = c] = block[c * read_extent + r]],
    which is sample [r] of channel [c] in the file), for every record whose
    coordinate is not taken again by a later record; every element that no
    record's block covers is zero. *)
Theorem C1_round_trip `{mri_dims} (opts : list cli_opt) (file : list byte)
    (fuel K : nat) (vd : bool) (hdr : hdr_s) (s1 : state) :
  siemens_meas_setup file start_state = Ok (vd, hdr) s1 →
  main_adcs opts = Z.of_nat K → Z.of_nat K < 2 ^ 63 → (K < fuel)%nat →
  (∀ k : nat, (k < K)%nat →
     rec_ok file vd (main_dims opts)
       (rec_start vd (main_dims opts) (fd_pos s1) k) (replicate DIMS 0)) →
  ∃ s' : state,
    main opts file fuel = Some (Ok () s') ∧
    records_placed file vd (main_dims opts) (fd_pos s1) K (out s') ∧
    zero_elsewhere file vd (main_dims opts) (fd_pos s1) K (out s').
Proof.
  intros Hsetup Hadcs HK Hfuel Hoks.
  rewrite (main_loop _ _ _ _ _ _ Hsetup), Hadcs.
  set (s2 := State _ _ _).
  destruct (adc_loop_ok file vd (main_dims opts) fuel K s2
              (length_cli_parse opts) Hfuel HK) as (s' & Hrun & _ & Hin & Hout).
  { apply length_md_alloc, length_cli_parse. }
  { exact Hoks. }
  exists s'. split; [done|]. split; [done|].
  intros idx Hfree. by rewrite (Hout idx Hfree).
Qed.

Lemma C1_witness :
  let opts := [Opt_x 4; Opt_y 2] in
  let file := Synth.file_vb in
  let s1 := set_fd_pos 32 start_state in
  siemens_meas_setup file start_state = Ok (false, Hdr 32 1 0 0 0) s1 ∧
  main_adcs opts = Z.of_nat 2 ∧ Z.of_nat 2 < 2 ^ 63 ∧ (2 < 3)%nat ∧
  (∀ k : nat, (k < 2)%nat →
     rec_ok file false (main_dims opts)
       (rec_start false (main_dims opts) (fd_pos s1) k) (replicate DIMS 0)) ∧
  ∃ s' : state,
    main opts file 3 = Some (Ok () s') ∧
    records_placed file false (main_dims opts) (fd_pos s1) 2 (out s') ∧
    zero_elsewhere file false (main_dims opts) (fd_pos s1) 2 (out s').
Proof.
  intros opts file s1.
  assert (siemens_meas_setup file start_state
          = Ok (false, Hdr 32 1 0 0 0) s1) as Hsetup
    by (vm_compute; reflexivity).
  assert (main_adcs opts = Z.of_nat 2) as Hadcs by (vm_compute; reflexivity).
  assert (Z.of_nat 2 < 2 ^ 63) as HK by (vm_compute; reflexivity).
  assert (2 < 3)%nat as Hfuel by lia.
  assert (∀ k : nat, (k < 2)%nat →
            rec_ok file false (main_dims opts)
              (rec_start false (main_dims opts) (fd_pos s1) k)
              (replicate DIMS 0)) as Hoks
    by (apply recs_okb_ok; vm_compute; reflexivity).
  split_and!; try done.
  exact (C1_round_trip opts file 3 2 false _ s1 Hsetup Hadcs HK Hfuel Hoks).
Defined.

(** The claim as first stated asks for every record's samples at its
    coordinate.  Two records on the same line refute it: the second one
    overwrites the first. *)
Lemma C1_counterexample :
  ¬ (∀ (opts : list cli_opt) (file : list byte) (fuel K : nat) (vd : bool)
       (hdr : hdr_s) (s1 s' : state),
       siemens_meas_setup file start_state = Ok (vd, hdr) s1 →
       main_adcs opts = Z.of_nat K →
       (∀ k : nat, (k < K)%nat →
          rec_ok file vd (main_dims opts)
            (rec_start vd (main_dims opts) (fd_pos s1) k)
            (replicate DIMS 0)) →
       main opts file fuel = Some (Ok () s') →
       ∀ k c r : nat,
         (k < K)%nat →
         (c < Z.to_nat (main_dims opts !!! COIL_DIM))%nat →
         (r < Z.to_nat (main_dims opts !!! READ_DIM))%nat →
         out s' (block_index (adc_coord file vd (main_dims opts) (fd_pos s1) k)
                   c r)
         = rec_sample file vd (main_dims opts)
             (rec_start vd (main_dims opts) (fd_pos s1) k) c r).
Proof.
  intros Hclaim.
  set (opts := [Opt_x 2; Opt_a 2]).
  set (file := Synth.file_dup).
  set (s1 := set_fd_pos 32 start_state).
  assert (siemens_meas_setup file start_state
          = Ok (false, Hdr 32 1 0 0 0) s1) as Hsetup
    by (vm_compute; reflexivity).
  assert (∀ k : nat, (k < 2)%nat →
            rec_ok file false (main_dims opts)
              (rec_start false (main_dims opts) (fd_pos s1) k)
              (replicate DIMS 0)) as Hoks
    by (apply recs_okb_ok; vm_compute; reflexivity).
  pose proof (main_loop opts file 3 false _ s1 Hsetup) as Hmain.
  set (s2 := State _ _ _) in Hmain.
  destruct (adc_loop_ok file false (main_dims opts) 3 2 s2
              (length_cli_parse opts) ltac:(lia) ltac:(vm_compute; reflexivity))
    as (s' & Hrun & _ & Hin & _).
  { apply length_md_alloc, length_cli_parse. }
  { exact Hoks. }
  change (main_adcs opts) with (Z.of_nat 2) in Hmain.
  rewrite Hrun in Hmain.
  assert (0 < Z.to_nat (main_dims opts !!! COIL_DIM))%nat as Hc
    by (vm_compute; lia).
  assert (0 < Z.to_nat (main_dims opts !!! READ_DIM))%nat as Hr
    by (vm_compute; lia).
  pose proof (Hclaim opts file 3%nat 2%nat false _ s1 s' Hsetup eq_refl Hoks
                Hmain 0%nat 0%nat 0%nat ltac:(lia) Hc Hr) as Hfirst.
  pose proof (Hin 1%nat 0%nat 0%nat ltac:(lia) Hc Hr ltac:(intros; lia))
    as Hlast.
  change (fd_pos s2) with (fd_pos s1) in Hlast.
  assert (adc_coord file false (main_dims opts) (fd_pos s1) 1
          = adc_coord file false (main_dims opts) (fd_pos s1) 0) as Hsame
    by (vm_compute; reflexivity).
  rewrite Hsame, Hfirst in Hlast.
  vm_compute in Hlast. discriminate Hlast.
Qed.



(** C6. Coordinate bounds check.  Whatever records were read and placed
    before: if the coordinate derived from the loop counters of the next
    record's first channel is no index of the output array, the whole run
    stops there, and the output array is the one that record found: the
    record is not placed, neither out of bounds nor at a clamped coordinate.
    Nor does any run ever change an element outside the shape. *)
Theorem C6_coordinate_bounds `{mri_dims} (file : list byte) (vd : bool)
    (dims : list Z) (k fuel : nat) (adcs : Z) (s0 s : state) :
  length dims = DIMS →
  times k (adc_iter file vd dims (adc_dims_of dims)) s0 = Ok () s →
  0 < adcs → Z.of_nat k + adcs < 2 ^ 63 →
  (0 < Z.to_nat (dims !!! COIL_DIM))%nat →
  md_is_index DIMS (rec_pos file vd dims (fd_pos s) (replicate DIMS 0)) dims
  = false →
  ∃ (e : fatal) (s' : state),
    adc_loop file vd dims (adc_dims_of dims) (k + S fuel)
      (Z.of_nat k + adcs) s0
    = Some (Fatal e s') ∧
    out s' = out s ∧
    ∀ idx : list Z, md_is_index DIMS idx dims = false →
      out s' idx = out s0 idx.
Proof.
  intros Hdims Hrun Hadcs Hrange HC Hidx.
  pose proof (adc_iter_at file vd dims (adc_dims_of dims) s) as Hit.
  cbv zeta in Hit.
  destruct (adc_iter _ _ _ _ s) as [[] s1|e s1] eqn:Hiter.
  - exfalso. destruct Hit as [[_ Hoks] _].
    destruct (Hoks 0%nat HC) as (_ & _ & Htrue).
    rewrite (pos_out_0 file vd dims (fd_pos s) _ (length_replicate _ _))
      in Htrue.
    congruence.
  - exists e, s1.
    assert (adc_loop file vd dims (adc_dims_of dims) (k + S fuel)
              (Z.of_nat k + adcs) s0 = Some (Fatal e s1)) as Hloop.
    { rewrite (adc_loop_prefix file vd dims Hdims k (S fuel) adcs s0 s Hrun)
        by lia.
      apply adc_loop_fatal; [done | lia | lia]. }
    split; [done|]. split; [by destruct Hit as [-> _]|].
    intros idx Hout.
    apply (adc_loop_in_bounds file vd dims Hdims _ _ _ _ Hloop idx Hout).
Qed.

Lemma C6_witness :
  let dims := main_dims [Opt_x 2] in
  let s := set_fd_pos 32 start_state in
  ∃ (e : fatal) (s' : state),
    adc_loop Synth.file_far false dims (adc_dims_of dims) 1 1 s
    = Some (Fatal e s') ∧
    out s' = out s ∧
    ∀ idx : list Z, md_is_index DIMS idx dims = false →
      out s' idx = out s idx.
Proof.
  intros dims s.
  refine (C6_coordinate_bounds Synth.file_far false dims 0 0 1 s s
            _ eq_refl _ _ _ _).
  - vm_compute. reflexivity.
  - lia.
  - vm_compute. reflexivity.
  - vm_compute. lia.
  - vm_compute. reflexivity.
Defined.

(** C7. Per-record byte consumption and metadata location.  The scan
    header read takes 192 bytes for VD and none for VB, where it leaves the
    stream where it was.  A record that the reader gets through is consumed
    as the scan header followed, per channel, by a channel header of 32 (VD)
    or 128 (VB) bytes and the samples; the sample count checked for a channel
    and the loop counters of the coordinate are the fields of the metadata
    block at byte 40 of the scan header (VD, one block for all channels) or at
    byte 20 of the channel's own header (VB); the block holds the samples as
    they lie behind the channel headers.  The reader gets through a record
    exactly when the record passes these checks. *)
Theorem C7_record_layout `{mri_dims} (file : list byte) (vd : bool)
    (dims pos : list Z) (s : state) :
  length pos = DIMS →
  let p := fd_pos s in
  let nR := Z.to_nat (dims !!! READ_DIM) in
  let nC := Z.to_nat (dims !!! COIL_DIM) in
  let sh := (if vd then 192 else 0)%nat in
  let ch := (if vd then 32 else 128)%nat in
  let chan (c : nat) := (p + sh + c * (ch + nR * 8))%nat in
  let meta (c : nat) := (if vd then p + 40 else chan c + 20)%nat in
  (vd = false → xread file (sizeof_scan_hdr vd) s = Ok [] s) ∧
  (vd = true → (p + 192 ≤ length file)%nat →
   xread file (sizeof_scan_hdr vd) s
   = Ok (slice file p 192) (set_fd_pos (p + 192) s)) ∧
  match siemens_adc_read file vd dims pos s with
  | Ok pos' s' =>
      rec_ok file vd dims p pos ∧
      fd_pos s' = (p + sh + nC * (ch + nR * 8))%nat ∧
      (∀ c : nat, (c < nC)%nat →
         field (meta c + 8) 2 file = dims !!! READ_DIM) ∧
      ((0 < nC)%nat →
         pos' !!! PHS1_DIM = field (meta 0%nat + 12) 2 file ∧
         pos' !!! SLICE_DIM = field (meta 0%nat + 16) 2 file ∧
         pos' !!! PHS2_DIM = field (meta 0%nat + 18) 2 file ∧
         pos' !!! TE_DIM = field (meta 0%nat + 20) 2 file ∧
         pos' !!! TIME_DIM = field (meta 0%nat + 24) 2 file ∧
         pos' !!! TIME2_DIM = field (meta 0%nat + 26) 2 file) ∧
      ((nC * nR ≤ length (buf s))%nat →
       ∀ c r : nat, (c < nC)%nat → (r < nR)%nat →
         buf s' !! (c * nR + r)%nat
         = Some (slice file (chan c + ch + r * 8) 8))
  | Fatal _ _ => ¬ rec_ok file vd dims p pos
  end.
Proof.
  intros Hpos p nR nC sh ch chan meta.
  assert (∀ c : nat, chan c = chan_start vd dims p c) as Hchan.
  { intros c. unfold chan, chan_start, chan_size, sizeof_scan_hdr,
      sizeof_chan_hdr, CFL_SIZE. by destruct vd. }
  assert (∀ c : nat, meta c = mdh_start vd dims p c) as Hmeta.
  { intros c. unfold meta, mdh_start. rewrite Hchan. by destruct vd. }
  split_and!.
  - intros ->. apply xread_0.
  - intros -> Hfit. by apply xread_Ok.
  - pose proof (siemens_adc_read_at file vd dims p pos Hpos s eq_refl) as Hr.
    destruct (siemens_adc_read _ _ _ _ s) as [pos' s'|e s'].
    + destruct Hr as (Hok & -> & ->). split; [done|]. split_and!.
      * cbn [fd_pos]. unfold sh, ch, nC, nR, rec_size, chan_size,
          sizeof_scan_hdr, sizeof_chan_hdr, CFL_SIZE. destruct vd; lia.
      * intros c Hc. rewrite Hmeta, <- samples_rec_mdh.
        destruct Hok as [_ Hoks]. by destruct (Hoks c Hc) as (_ & Hsmp & _).
      * intros HC. rewrite Hmeta.
        destruct (rec_coord_counters file vd dims p pos Hpos HC)
          as (H0 & H2 & H3 & H4 & H6 & H7).
        rewrite H0, H2, H3, H4, H6, H7.
        rewrite !sLC_rec_mdh by lia.
        split_and!; f_equal; lia.
      * intros Hbuf c r Hc Hr. cbn [buf]. rewrite Hchan.
        unfold nR, nC in *.
        by rewrite lookup_rec_buf by done.
    + intros [Hscan Hoks].
      destruct Hr as [_ [(_ & Hvd & Hshort)|(_ & c & Hc & _ & Hfault)]].
      * specialize (Hscan Hvd). lia.
      * eapply chan_ok_no_fault; [exact (Hoks c Hc) | exact Hfault].
Qed.

Lemma C7_witness :
  let dims := main_dims [Opt_x 2; Opt_c 2; Opt_y 2] in
  let s := State 44 (md_alloc (adc_dims_of dims)) (create_cfl dims) in
  ∃ (pos' : list Z) (s' : state),
    siemens_adc_read Synth.file_vd true dims (replicate DIMS 0) s
    = Ok pos' s' ∧
    fd_pos s' = 332%nat ∧
    pos' !!! PHS1_DIM = 1 ∧
    buf s' !! 3%nat = Some (Synth.sample 100 4).
Proof.
  intros dims s.
  destruct (C7_record_layout Synth.file_vd true dims (replicate DIMS 0) s
              (length_replicate _ _)) as (_ & _ & Hrec).
  destruct (siemens_adc_read _ _ _ _ s) as [pos' s'|e s'].
  - destruct Hrec as (_ & Hpos & _ & Hctr & Hbuf).
    exists pos', s'. split; [done|]. split_and!.
    + rewrite Hpos. vm_compute. reflexivity.
    + destruct Hctr as [-> _]; [vm_compute; lia|]. vm_compute. reflexivity.
    + pose proof (Hbuf ltac:(vm_compute; lia) 1%nat 1%nat
                    ltac:(vm_compute; lia) ltac:(vm_compute; lia)) as Hb.
      vm_compute in Hb. vm_compute. exact Hb.
  - exfalso. apply Hrec. apply rec_okb_ok. vm_compute. reflexivity.
Defined.

(** C9. Coordinate reset.  The coordinate the reader returns has the coil
    axis at 0, whatever the number of channels it has walked, and the read
    axis as the caller set it: the reader never positions it.  The driver
    loop hands in a coordinate of zeros for every record, so both axes are 0
    when the block is placed. *)
Theorem C9_coordinate_reset `{mri_dims} (file : list byte) (vd : bool)
    (dims pos : list Z) (s : state) (pos' : list Z) (s' : state) :
  length pos = DIMS →
  siemens_adc_read file vd dims pos s = Ok pos' s' →
  pos' !!! COIL_DIM = 0 ∧
  pos' !!! READ_DIM = pos !!! READ_DIM ∧
  (pos = replicate DIMS 0 → pos' !!! READ_DIM = 0).
Proof.
  intros Hpos Hread.
  pose proof (siemens_adc_read_at file vd dims (fd_pos s) pos Hpos s eq_refl)
    as Hr.
  rewrite Hread in Hr. destruct Hr as (_ & -> & _).
  destruct (rec_coord_axes file vd dims (fd_pos s) pos Hpos) as [Hc Hrd].
  split_and!; [done | done |].
  intros ->. rewrite Hrd. apply lookup_total_replicate_2. axes_lt.
Qed.

Lemma C9_witness :
  let dims := main_dims [Opt_x 4; Opt_y 2] in
  let s := set_fd_pos 32 start_state in
  ∃ (pos' : list Z) (s' : state),
    siemens_adc_read Synth.file_vb false dims (replicate DIMS 0) s
    = Ok pos' s' ∧
    pos' !!! COIL_DIM = 0 ∧
    pos' !!! READ_DIM = replicate DIMS 0 !!! READ_DIM ∧
    (replicate DIMS 0 = replicate DIMS 0 → pos' !!! READ_DIM = 0).
Proof.
  intros dims s.
  destruct (siemens_adc_read Synth.file_vb false dims (replicate DIMS 0) s)
    as [pos' s'|e s'] eqn:Hread.
  - exists pos', s'. split; [done|].
    exact (C9_coordinate_reset Synth.file_vb false dims (replicate DIMS 0) s
             pos' s' (length_replicate _ _) Hread).
  - exfalso. vm_compute in Hread. discriminate Hread.
Defined.

(** ** The record count *)

Section Count.

Context `{mri_dims}.

(** After the options, [adcs] is the last [-a] value, or still 0. *)
Lemma cli_parse_adcs (opts : list cli_opt) :
  (cli_parse opts).2 = default 0 (cli_supplied opts).
Proof.
  unfold cli_parse, cli_supplied.
  assert (∀ (st : list Z * Z) (acc : option Z),
            st.2 = default 0 acc →
            (foldl cli_step st opts).2
            = default 0
                (foldl (λ acc o, match o with Opt_a v => Some v | _ => acc end)
                   acc opts)) as Hgen.
  { induction opts as [|o opts IH]; intros [d a] acc Hst; [done|].
    cbn [foldl]. apply IH. by destruct o. }
  by apply Hgen.
Qed.

Lemma main_adcs_eq (opts : list cli_opt) :
  main_adcs opts
  = let dims := main_dims opts in
    if decide (0 = default 0 (cli_supplied opts))
    then to_long (to_long (dims !!! PHS1_DIM * dims !!! PHS2_DIM)
                  * dims !!! SLICE_DIM)
    else default 0 (cli_supplied opts).
Proof.
  unfold main_adcs, main_dims. rewrite <- cli_parse_adcs.
  by destruct (cli_parse opts) as [d a].
Qed.

(** With a count [n ≥ 0], [main] is the Header Detector, the allocations
    and [n] rounds of the loop body. *)
Lemma main_times (opts : list cli_opt) (file : list byte) (fuel : nat) :
  0 ≤ main_adcs opts < 2 ^ 63 →
  (Z.to_nat (main_adcs opts) < fuel)%nat →
  main opts file fuel
  = Some (main_rounds opts file (Z.to_nat (main_adcs opts))).
Proof.
  intros Hrange Hfuel. unfold main, main_rounds. cbv zeta.
  destruct (siemens_meas_setup file start_state) as [[vd hdr] s|e s]; [|done].
  rewrite <- (Z2Nat.id (main_adcs opts)) at 1 by lia.
  apply adc_loop_times; lia.
Qed.

End Count.

(** C8 (as amended). Record count: when the caller supplies no total ADC
    count, or supplies 0, the driver loop runs the Record Reader and the
    Placement Engine [phase1_extent * phase2_extent * slice_extent] times
    (in [long] arithmetic); when the caller supplies a count other than 0,
    that many times.  The rounds are counted, not found by scanning to the
    end of the file, and a record that stops the program ends them early. *)
Theorem C8_record_count `{mri_dims} (opts : list cli_opt) (file : list byte)
    (fuel : nat) :
  let dims := main_dims opts in
  let product :=
    to_long (to_long (dims !!! PHS1_DIM * dims !!! PHS2_DIM)
             * dims !!! SLICE_DIM) in
  let n :=
    match cli_supplied opts with
    | Some v => if decide (v = 0) then product else v
    | None => product
    end in
  0 ≤ n < 2 ^ 63 → (Z.to_nat n < fuel)%nat →
  main opts file fuel = Some (main_rounds opts file (Z.to_nat n)) ∧
  (- 2 ^ 63 ≤ dims !!! PHS1_DIM * dims !!! PHS2_DIM < 2 ^ 63 →
   - 2 ^ 63 ≤ dims !!! PHS1_DIM * dims !!! PHS2_DIM * dims !!! SLICE_DIM
     < 2 ^ 63 →
   product = dims !!! PHS1_DIM * dims !!! PHS2_DIM * dims !!! SLICE_DIM).
Proof.
  intros dims product n Hrange Hfuel.
  assert (main_adcs opts = n) as Hn.
  { rewrite main_adcs_eq. cbv zeta. fold dims product. unfold n.
    destruct (cli_supplied opts) as [v|]; cbn [default]; unfold id.
    - destruct (decide (v = 0)) as [->|Hv].
      + by rewrite decide_True by done.
      + by rewrite decide_False by lia.
    - by rewrite decide_True by done. }
  split.
  - rewrite <- Hn in *. by apply main_times.
  - intros H12 H123. unfold product, to_long.
    by rewrite (to_off_t_id _ H12), (to_off_t_id _ H123).
Qed.

Lemma C8_witness :
  let opts := [Opt_x 4; Opt_y 2] in
  0 ≤ 2 < 2 ^ 63 ∧ (Z.to_nat 2 < 3)%nat ∧
  main opts Synth.file_vb 3 = Some (main_rounds opts Synth.file_vb 2).
Proof.
  intros opts. split; [lia|]. split; [lia|].
  refine (proj1 (C8_record_count opts Synth.file_vb 3 _ _)).
  - vm_compute. split; [discriminate | reflexivity].
  - vm_compute. lia.
Defined.

(** The claim as first stated lets a supplied count decide in every case.
    A supplied 0 refutes it: the loop runs once on the default shape, and
    reads a record, where no round was asked for. *)
Lemma C8_counterexample :
  ¬ (∀ (opts : list cli_opt) (file : list byte) (fuel : nat) (v : Z),
       cli_supplied opts = Some v → 0 ≤ v → (Z.to_nat v < fuel)%nat →
       main opts file fuel = Some (main_rounds opts file (Z.to_nat v))).
Proof.
  intros Hclaim.
  specialize (Hclaim [Opt_x 4; Opt_a 0] Synth.file_vb 2%nat 0 eq_refl
                ltac:(lia) ltac:(vm_compute; lia)).
  apply (f_equal (λ r, match r with
                       | Some r => fd_pos (final_state r)
                       | None => 0%nat
                       end)) in Hclaim.
  vm_compute in Hclaim. discriminate Hclaim.
Qed.

(** C4. Coordinate derivation.  When the reader gets through a record
    with at least one channel, the coordinate it returns has
    phase1 = loop_counter[0], slice = loop_counter[2],
    phase2 = loop_counter[3], echo = loop_counter[4], time = loop_counter[6]
    and time2 = loop_counter[7] of the metadata seen at the first channel, as
    they are (no center counter is subtracted), and every other axis but the
    coil axis as it was given.  And the reader's result, the coordinate
    included, does not depend on the loop counters of the other channels: two
    VB files that differ only in those give the same result, and so do two
    VD files that differ only in channel headers, where a channel's own
    counters would lie. *)
Theorem C4_coordinate_derivation `{mri_dims} (f1 f2 : list byte) (vd : bool)
    (dims pos : list Z) (s : state) :
  length pos = DIMS →
  (∀ (pos' : list Z) (s' : state),
     (0 < Z.to_nat (dims !!! COIL_DIM))%nat →
     siemens_adc_read f1 vd dims pos s = Ok pos' s' →
     let mdh := rec_mdh f1 vd dims (fd_pos s) 0 in
     pos' !!! PHS1_DIM = sLC mdh !!! 0%nat ∧
     pos' !!! SLICE_DIM = sLC mdh !!! 2%nat ∧
     pos' !!! PHS2_DIM = sLC mdh !!! 3%nat ∧
     pos' !!! TE_DIM = sLC mdh !!! 4%nat ∧
     pos' !!! TIME_DIM = sLC mdh !!! 6%nat ∧
     pos' !!! TIME2_DIM = sLC mdh !!! 7%nat ∧
     ∀ i : nat,
       i ≠ PHS1_DIM → i ≠ SLICE_DIM → i ≠ PHS2_DIM → i ≠ TE_DIM →
       i ≠ TIME_DIM → i ≠ TIME2_DIM → i ≠ COIL_DIM →
       pos' !!! i = pos !!! i) ∧
  (length f1 = length f2 →
   (∀ i : nat, ¬ later_counters false dims (fd_pos s) i →
      f1 !! i = f2 !! i) →
   siemens_adc_read f1 false dims pos s
   = siemens_adc_read f2 false dims pos s) ∧
  (length f1 = length f2 →
   (∀ i : nat, ¬ in_chan_hdr true dims (fd_pos s) i → f1 !! i = f2 !! i) →
   siemens_adc_read f1 true dims pos s
   = siemens_adc_read f2 true dims pos s).
Proof.
  intros Hpos. split_and!.
  - intros pos' s' HC Hread. cbv zeta.
    pose proof (siemens_adc_read_at f1 vd dims (fd_pos s) pos Hpos s eq_refl)
      as Hr.
    rewrite Hread in Hr. destruct Hr as (_ & -> & _).
    destruct (rec_coord_counters f1 vd dims (fd_pos s) pos Hpos HC)
      as (H0 & H2 & H3 & H4 & H6 & H7).
    split_and!; try done.
    intros i ? ? ? ? ? ? ?. unfold rec_coord.
    rewrite decide_False by lia. unfold rec_pos.
    rewrite adc_pos_other by done.
    by apply list_lookup_total_insert_ne.
  - intros Hlen Hagree.
    destruct (later_counters_unused f1 f2 dims (fd_pos s) pos Hagree)
      as [Hrec Hchan].
    by apply (siemens_adc_read_ext f1 f2 false dims Hlen (fd_pos s) pos Hpos
                Hrec Hchan).
  - intros Hlen Hagree.
    destruct (chan_hdr_unused f1 f2 dims (fd_pos s) 0 pos Hagree)
      as [Hrec Hchan].
    unfold rec_start in Hrec, Hchan.
    rewrite Nat.mul_0_l, Nat.add_0_r in Hrec, Hchan.
    by apply (siemens_adc_read_ext f1 f2 true dims Hlen (fd_pos s) pos Hpos
                Hrec Hchan).
Qed.

Lemma C4_witness :
  let dims := main_dims [Opt_x 2; Opt_c 2; Opt_y 2] in
  let s := State 32 (md_alloc (adc_dims_of dims)) (create_cfl dims) in
  let f1 := Synth.file_two 1 0 in
  let f2 := Synth.file_two 0 9 in
  f1 ≠ f2 ∧
  siemens_adc_read f1 false dims (replicate DIMS 0) s
  = siemens_adc_read f2 false dims (replicate DIMS 0) s ∧
  ∃ (pos' : list Z) (s' : state),
    siemens_adc_read f1 false dims (replicate DIMS 0) s = Ok pos' s' ∧
    pos' !!! PHS1_DIM = 1.
Proof.
  intros dims s f1 f2.
  destruct (C4_coordinate_derivation f1 f2 false dims (replicate DIMS 0) s
              (length_replicate _ _)) as (Hcoord & Hsame & _).
  split; [vm_compute; discriminate|]. split.
  - destruct (differ_only_ok (later_countersb false dims 32) f1 f2)
      as [Hlen Hagree]; [vm_compute; reflexivity|].
    apply Hsame; [done|]. intros i Hout. apply Hagree.
    destruct (later_countersb false dims 32 i) eqn:Hb; [|done].
    exfalso. by apply Hout, later_countersb_ok.
  - destruct (siemens_adc_read f1 false dims (replicate DIMS 0) s)
      as [pos' s'|e s'] eqn:Hread.
    + exists pos', s'. split; [done|].
      destruct (Hcoord pos' s' ltac:(vm_compute; lia) eq_refl) as [-> _].
      vm_compute. reflexivity.
    + exfalso. vm_compute in Hread. discriminate Hread.
Defined.

(** C10. VD channel headers do not count.  Two VD files of the same
    length that differ only in bytes of channel headers (of the records that
    follow each other from where the Header Detector leaves the stream) give
    the same run of [main]: the same outcome, error or not, and the same
    output array; and at every record the reader gives the same result, so
    the same coordinate and the same verdict of the checks. *)
Theorem C10_vd_channel_headers `{mri_dims} (opts : list cli_opt)
    (f1 f2 : list byte) (fuel : nat) (hdr : hdr_s) (s1 : state) :
  siemens_meas_setup f1 start_state = Ok (true, hdr) s1 →
  length f1 = length f2 →
  (∀ i : nat, ¬ in_chan_hdr true (main_dims opts) (fd_pos s1) i →
     f1 !! i = f2 !! i) →
  main opts f1 fuel = main opts f2 fuel ∧
  ∀ (k : nat) (pos : list Z) (s : state),
    length pos = DIMS →
    fd_pos s = rec_start true (main_dims opts) (fd_pos s1) k →
    siemens_adc_read f1 true (main_dims opts) pos s
    = siemens_adc_read f2 true (main_dims opts) pos s.
Proof.
  intros Hsetup Hlen Hagree.
  assert (∀ (k c i : nat),
            (chan_start true (main_dims opts)
               (rec_start true (main_dims opts) (fd_pos s1) k) c ≤ i)%nat →
            (fd_pos s1 + 192 ≤ i)%nat) as Hfar.
  { intros k c i Hi.
    pose proof (chan_start_ge true (main_dims opts)
                  (rec_start true (main_dims opts) (fd_pos s1) k) c) as Hge.
    unfold sizeof_scan_hdr, rec_start in *. lia. }
  pose proof (setup_VD_start f1 start_state hdr s1 Hsetup) as Hstart.
  assert (siemens_meas_setup f2 start_state = Ok (true, hdr) s1) as Hsetup2.
  { rewrite <- Hsetup. symmetry. apply setup_ext; [done | |].
    - intros i Hi. apply Hagree. intros (k & c & _ & Hin & _).
      specialize (Hfar k c i Hin). lia.
    - intros i Hi. apply Hagree. intros (k & c & _ & Hin & _).
      specialize (Hfar k c i Hin). lia. }
  split.
  - rewrite (main_loop opts f1 fuel true hdr s1 Hsetup).
    rewrite (main_loop opts f2 fuel true hdr s1 Hsetup2).
    apply adc_loop_ext; [done|]. intros k. cbn [fd_pos].
    apply (chan_hdr_unused f1 f2 (main_dims opts) (fd_pos s1) k
             (replicate DIMS 0) Hagree).
  - intros k pos s Hpos Hq.
    destruct (chan_hdr_unused f1 f2 (main_dims opts) (fd_pos s1) k pos Hagree)
      as [Hrec Hchan].
    by apply (siemens_adc_read_ext f1 f2 true (main_dims opts) Hlen
                (rec_start true (main_dims opts) (fd_pos s1) k) pos Hpos
                Hrec Hchan).
Qed.

Lemma C10_witness :
  let opts := [Opt_x 2; Opt_c 2; Opt_y 2] in
  let f1 := Synth.file_vd_with x00 in
  let f2 := Synth.file_vd_with xff in
  let s1 := set_fd_pos 44 start_state in
  f1 ≠ f2 ∧
  main opts f1 3 = main opts f2 3 ∧
  ∀ (k : nat) (pos : list Z) (s : state),
    length pos = DIMS →
    fd_pos s = rec_start true (main_dims opts) (fd_pos s1) k →
    siemens_adc_read f1 true (main_dims opts) pos s
    = siemens_adc_read f2 true (main_dims opts) pos s.
Proof.
  intros opts f1 f2 s1.
  split; [vm_compute; discriminate|].
  assert (siemens_meas_setup f1 start_state = Ok (true, Hdr 12 1 7 9 32) s1)
    as Hsetup by (vm_compute; reflexivity).
  destruct (differ_only_ok (in_chan_hdrb true (main_dims opts) 44 2) f1 f2)
    as [Hlen Hagree]; [vm_compute; reflexivity|].
  apply (C10_vd_channel_headers opts f1 f2 3 _ s1 Hsetup Hlen).
  intros i Hout. apply Hagree.
  destruct (in_chan_hdrb true (main_dims opts) 44 2 i) eqn:Hb; [|done].
  exfalso. apply Hout. by apply (in_chan_hdrb_ok true (main_dims opts) 44 2).
Defined.

(** * Further properties of the code *)

(** ** Reading, seeking and the Header Detector *)

Lemma slice_app (file : list byte) (p a b : nat) :
  slice file p a ++ slice file (p + a) b = slice file p (a + b).
Proof.
  unfold slice. rewrite <- (drop_drop file a p). apply take_take_drop.
Qed.

(** X1. Reads follow each other without a gap: reading [a] bytes and then
    [b] bytes is reading [a + b] bytes at once, with the same bytes, the
    same final position and the same failure when the file ends before. *)
Theorem xread_app (file : list byte) (a b : nat) (s : state) :
  (x ← xread file a; y ← xread file b; mret (x ++ y)) s
  = xread file (a + b) s.
Proof.
  destruct s as [p bf o].
  unfold mbind, M_bind, mret, M_ret, xread.
  unfold set_fd_pos. cbn [fd_pos buf out]. rewrite length_slice.
  destruct (decide ((a `min` (length file - p))%nat = a)) as [Ha|Ha];
    cbn [fd_pos buf out]; rewrite ?length_slice;
    repeat case_decide; try lia.
  - rewrite slice_app. do 2 f_equal. lia.
  - do 2 f_equal. lia.
  - do 2 f_equal. lia.
Qed.

(** *** With the limit of the file system *)

Lemma xseek_max_Ok (max pos : Z) s :
  0 ≤ pos ≤ max → xseek_max max pos s = Ok () (set_fd_pos (Z.to_nat pos) s).
Proof. intros Hle. unfold xseek_max. destruct (decide _); [lia | done]. Qed.

Lemma xseek_max_Fatal (max pos : Z) s :
  pos < 0 ∨ max < pos → xseek_max max pos s = Fatal Seeking s.
Proof. intros Hlt. unfold xseek_max. destruct (decide _); [done | lia]. Qed.

Section SetupMax.

Variable max : Z.
Variable file : list byte.
Hypothesis Hmax : 0 ≤ max < 2 ^ 63.

Let off0 : Z := field 0 4 file.
Let n0 : Z := field 4 4 file.
Let doff : Z := field 16 8 file.
Let off1 : Z := field (Z.to_nat doff) 4 file.

Lemma setup_max_short s :
  (length file < 24)%nat →
  siemens_meas_setup_max max file s
  = Fatal ReadingFile (set_fd_pos (length file) s).
Proof.
  intros Hlen. unfold siemens_meas_setup_max. cbv zeta.
  rewrite (bind_Ok _ _ _ _ _ (xseek_max_Ok max 0 s ltac:(lia))).
  erewrite bind_Fatal; [|apply xread_Fatal; unfold sizeof_hdr_s; simpl; lia].
  unfold set_fd_pos, sizeof_hdr_s. cbn [fd_pos buf out].
  rewrite length_slice. f_equal. f_equal. lia.
Qed.

Lemma setup_max_VB s :
  (24 ≤ length file)%nat →
  ¬ (off0 < 10000 ∧ n0 < 64) →
  siemens_meas_setup_max max file s
  = if decide (max < off0) then Fatal Seeking (set_fd_pos 24 s)
    else Ok (false, Hdr off0 1 (field 8 4 file) (field 12 4 file) doff)
           (set_fd_pos (Z.to_nat off0) s).
Proof.
  intros Hlen Hvb. unfold siemens_meas_setup_max. cbv zeta.
  rewrite (bind_Ok _ _ _ _ _ (xseek_max_Ok max 0 s ltac:(lia))).
  erewrite bind_Ok; [|apply xread_Ok; unfold sizeof_hdr_s; simpl; lia].
  change (fd_pos (set_fd_pos (Z.to_nat 0) s)) with 0%nat.
  rewrite (hdr_of_first_read file) by done. cbn [offset nscans].
  fold off0 n0 doff.
  assert (bool_decide (off0 < 10000) && bool_decide (n0 < 64) = false) as ->.
  { apply andb_false_iff. rewrite !bool_decide_eq_false.
    destruct (decide (off0 < 10000)); [right|left]; lia. }
  pose proof (field_bound 0 4 file) as Hb. fold off0 in Hb.
  change (256 ^ Z.of_nat 4) with (2 ^ 32) in Hb.
  unfold mbind at 1, M_bind at 1. unfold mret at 1, M_ret at 1.
  cbn [set_nscans offset nscans measid fileid datoff].
  rewrite Z.add_0_l, to_off_t_small by lia.
  destruct (decide (max < off0)) as [Hbig|Hok].
  { erewrite bind_Fatal; [reflexivity|]. apply xseek_max_Fatal. lia. }
  erewrite bind_Ok; [|apply xseek_max_Ok; lia].
  done.
Qed.

Lemma setup_max_VD s :
  (24 ≤ length file)%nat →
  off0 < 10000 → n0 < 64 →
  siemens_meas_setup_max max file s
  = if decide (max < doff) then Fatal Seeking (set_fd_pos 24 s)
    else if decide (length file < Z.to_nat doff + 4)%nat then
      Fatal ReadingFile
        (set_fd_pos (Z.to_nat doff + length (slice file (Z.to_nat doff) 4)) s)
    else if decide (max < doff + off1) then
      Fatal Seeking (set_fd_pos (Z.to_nat doff + 4) s)
    else
      Ok (true, Hdr off1 n0 (field 8 4 file) (field 12 4 file) doff)
         (set_fd_pos (Z.to_nat (doff + off1)) s).
Proof.
  intros Hlen Ho Hn. unfold siemens_meas_setup_max. cbv zeta.
  rewrite (bind_Ok _ _ _ _ _ (xseek_max_Ok max 0 s ltac:(lia))).
  erewrite bind_Ok; [|apply xread_Ok; unfold sizeof_hdr_s; simpl; lia].
  change (fd_pos (set_fd_pos (Z.to_nat 0) s)) with 0%nat.
  rewrite (hdr_of_first_read file) by done. cbn [offset nscans datoff].
  fold off0 n0 doff.
  assert (bool_decide (off0 < 10000) && bool_decide (n0 < 64) = true) as ->.
  { apply andb_true_iff. by rewrite !bool_decide_eq_true. }
  pose proof (field_bound 16 8 file) as Hd. fold doff in Hd.
  change (256 ^ Z.of_nat 8) with (2 ^ 64) in Hd.
  pose proof (field_bound (Z.to_nat doff) 4 file) as Hb. fold off1 in Hb.
  change (256 ^ Z.of_nat 4) with (2 ^ 32) in Hb.
  rewrite Z.add_0_l. cbv beta iota.
  set (s1 := set_fd_pos (0 + sizeof_hdr_s) (set_fd_pos (Z.to_nat 0) s)).
  destruct (decide (max < doff)) as [Hbig|Hsmall].
  { erewrite bind_Fatal; [reflexivity|].
    erewrite bind_Fatal; [reflexivity|].
    apply xseek_max_Fatal.
    destruct (decide (doff < 2 ^ 63)) as [Hin|Hout].
    - rewrite to_off_t_small by lia. lia.
    - left. apply to_off_t_big. lia. }
  rewrite to_off_t_small by lia.
  destruct (decide (length file < Z.to_nat doff + 4)%nat) as [Hshort|Hfits].
  { erewrite bind_Fatal; cycle 1.
    { erewrite bind_Ok; [|apply xseek_max_Ok; lia].
      erewrite bind_Fatal; [reflexivity|].
      apply xread_Fatal; cbn [fd_pos set_fd_pos]; lia. }
    reflexivity. }
  erewrite bind_Ok; cycle 1.
  { erewrite bind_Ok; [|apply xseek_max_Ok; lia].
    erewrite bind_Ok; [|apply xread_Ok; cbn [fd_pos set_fd_pos]; lia].
    reflexivity. }
  change (fd_pos (set_fd_pos (Z.to_nat doff) s1)) with (Z.to_nat doff).
  rewrite field_slice by lia. rewrite Nat.add_0_r. fold off1.
  cbn [set_offset offset nscans measid fileid datoff].
  destruct (decide (max < doff + off1)) as [Hbig|Hok].
  { erewrite bind_Fatal; [reflexivity|]. apply xseek_max_Fatal.
    destruct (decide (doff + off1 < 2 ^ 63)) as [Hin|Hout].
    - rewrite to_off_t_small by lia. lia.
    - left. apply to_off_t_big. lia. }
  rewrite to_off_t_small by lia.
  erewrite bind_Ok; [|apply xseek_max_Ok; lia].
  reflexivity.
Qed.

End SetupMax.

(** A file system that sets no limit within the range of [off_t] gives the
    Header Detector of the other properties. *)
Lemma setup_max_off_t (file : list byte) (s : state) :
  siemens_meas_setup_max (2 ^ 63 - 1) file s = siemens_meas_setup file s.
Proof.
  pose proof (field_bound 0 4 file) as Ho.
  change (256 ^ Z.of_nat 4) with (2 ^ 32) in Ho.
  destruct (decide (length file < 24)%nat) as [Hshort|Hlong].
  { rewrite setup_short by done. apply setup_max_short; [lia | done]. }
  destruct (decide (field 0 4 file < 10000 ∧ field 4 4 file < 64))
    as [[Hvo Hvn]|Hvb].
  - rewrite setup_VD, setup_max_VD by (done || lia).
    repeat case_decide; (done || lia).
  - rewrite setup_VB, setup_max_VB by (done || lia).
    by rewrite decide_False by lia.
Qed.

(** X2. The ways the Header Detector ends, each with the files that take
    it, on a file system whose largest file size is [max].  It succeeds
    when the leading header is there and every position it seeks is one the
    file system accepts: for VB the offset of the leading header, for VD
    the data offset, where the four bytes to re-read must be there, and the
    data offset plus the offset re-read.  It stops with "reading file" when
    the leading header or those four bytes are cut short, with "seeking"
    when a position is beyond [max] (as every position is that does not fit
    [off_t]), and in no other way. *)
Theorem setup_outcomes (max : Z) (file : list byte) (s : state) :
  0 ≤ max < 2 ^ 63 →
  let vdp := field 0 4 file < 10000 ∧ field 4 4 file < 64 in
  let off := field 0 4 file in
  let doff := field 16 8 file in
  let reread := field (Z.to_nat doff) 4 file in
  ((∃ vd hdr s', siemens_meas_setup_max max file s = Ok (vd, hdr) s') ↔
   (24 ≤ length file)%nat ∧
   (vdp → doff ≤ max ∧ (Z.to_nat doff + 4 ≤ length file)%nat ∧
          doff + reread ≤ max) ∧
   (¬ vdp → off ≤ max)) ∧
  ((∃ s', siemens_meas_setup_max max file s = Fatal ReadingFile s') ↔
   (length file < 24)%nat ∨
   (vdp ∧ doff ≤ max ∧ (length file < Z.to_nat doff + 4)%nat)) ∧
  ((∃ s', siemens_meas_setup_max max file s = Fatal Seeking s') ↔
   (24 ≤ length file)%nat ∧
   ((vdp ∧
     (max < doff ∨
      ((Z.to_nat doff + 4 ≤ length file)%nat ∧ max < doff + reread))) ∨
    (¬ vdp ∧ max < off))) ∧
  (∀ e s', siemens_meas_setup_max max file s = Fatal e s' →
     e = ReadingFile ∨ e = Seeking).
Proof.
  intros Hmax. cbv zeta.
  destruct (decide (length file < 24)%nat) as [Hshort|Hlong].
  { rewrite setup_max_short by done. split_and!.
    - split; [by intros (? & ? & ? & ?) | lia].
    - split; [by left | by eexists].
    - split; [by intros [? ?] | lia].
    - intros e s' [= <- _]. by left. }
  destruct (decide (field 0 4 file < 10000 ∧ field 4 4 file < 64))
    as [[Ho Hn]|Hvb].
  - rewrite setup_max_VD by (done || lia).
    destruct (decide (max < field 16 8 file)) as [Hbig|Hsmall].
    { split_and!.
      - split; [by intros (? & ? & ? & ?) | intros (_ & Hvd & _)].
        destruct Hvd as (? & _); [done | lia].
      - split; [by intros [? ?] | intros [?|(_ & ? & _)]; lia].
      - split; [intros _; split; [lia|]; left; split; [done | by left]
               | by eexists].
      - intros e s' [= <- _]. by right. }
    destruct (decide (length file < Z.to_nat (field 16 8 file) + 4)%nat)
      as [Hcut|Hfits].
    { split_and!.
      - split; [by intros (? & ? & ? & ?) | intros (_ & Hvd & _)].
        destruct Hvd as (_ & ? & _); [done | lia].
      - split; [intros _; right; split_and!; (lia || done) | by eexists].
      - split; [by intros [? ?] | intros (_ & [(_ & [?|[? _]])|[? _]])];
          (lia || tauto).
      - intros e s' [= <- _]. by left. }
    destruct (decide (max < field 16 8 file
                            + field (Z.to_nat (field 16 8 file)) 4 file))
      as [Hwrap|Hin].
    { split_and!.
      - split; [by intros (? & ? & ? & ?) | intros (_ & Hvd & _)].
        destruct Hvd as (_ & _ & ?); [done | lia].
      - split; [by intros [? ?] | intros [?|(_ & _ & ?)]; lia].
      - split; [intros _; split; [lia|]; left; split; [done|]; right; lia
               | by eexists].
      - intros e s' [= <- _]. by right. }
    split_and!.
    + split; [intros _; split_and!; [lia | intros _; lia | tauto]
             | by do 3 eexists].
    + split; [by intros [? ?] | intros [?|(_ & _ & ?)]; lia].
    + split; [by intros [? ?] | intros (_ & [(_ & [?|[_ ?]])|[? _]])];
        (lia || tauto).
    + by intros e s' [=].
  - rewrite setup_max_VB by (done || lia).
    destruct (decide (max < field 0 4 file)) as [Hbig|Hok].
    { split_and!.
      - split; [by intros (? & ? & ? & ?) | intros (_ & _ & Hle)].
        specialize (Hle Hvb). lia.
      - split; [by intros [? ?] | intros [?|[? _]]; [lia | done]].
      - split; [intros _; split; [lia|]; by right | by eexists].
      - intros e s' [= <- _]. by right. }
    split_and!.
    + split; [intros _; split_and!; [lia | tauto | intros _; lia]
             | by do 3 eexists].
    + split; [by intros [? ?] | intros [?|[? _]]; [lia | done]].
    + split; [by intros [? ?] | intros (_ & [[? _]|[_ ?]])]; [done | lia].
    + by intros e s' [=].
Qed.

Lemma setup_outcomes_witness :
  (∃ s' : state,
     siemens_meas_setup_max (2 ^ 44 - 4096) (Synth.file_doff (2 ^ 44))
       start_state
     = Fatal Seeking s') ∧
  (∃ s' : state,
     siemens_meas_setup_max (2 ^ 63 - 1) (Synth.file_doff (2 ^ 44))
       start_state
     = Fatal ReadingFile s').
Proof.
  split.
  - pose proof (setup_outcomes (2 ^ 44 - 4096) (Synth.file_doff (2 ^ 44))
                  start_state ltac:(lia)) as Hall.
    cbv zeta in Hall. destruct Hall as (_ & _ & [_ Hseek] & _).
    apply Hseek. split; [vm_compute; lia|]. left.
    split; [vm_compute; split; reflexivity|]. left. vm_compute. reflexivity.
  - pose proof (setup_outcomes (2 ^ 63 - 1) (Synth.file_doff (2 ^ 44))
                  start_state ltac:(lia)) as Hall.
    cbv zeta in Hall. destruct Hall as (_ & [_ Hread] & _).
    apply Hread. right. split_and!.
    + vm_compute. reflexivity.
    + vm_compute. reflexivity.
    + vm_compute. intros Hgt. discriminate Hgt.
    + assert (field 16 8 (Synth.file_doff (2 ^ 44)) = 2 ^ 44) as ->
        by (vm_compute; reflexivity).
      assert (length (Synth.file_doff (2 ^ 44)) = 64%nat) as ->
        by (vm_compute; reflexivity).
      lia.
Defined.

(** X3. A file shorter than the 24-byte leading header stops [main] with
    "reading file" before any record is read, whatever the options and
    however many records were asked for; the read position is at the end of
    the file and nothing has been placed. *)
Theorem main_short_file `{mri_dims} (opts : list cli_opt) (file : list byte)
    (fuel : nat) :
  (length file < 24)%nat →
  main opts file fuel
  = Some (Fatal ReadingFile (set_fd_pos (length file) start_state)).
Proof.
  intros Hshort. unfold main. cbv zeta. by rewrite setup_short by done.
Qed.

Lemma main_short_file_witness :
  main [Opt_x 4; Opt_a 7] [] 0
  = Some (Fatal ReadingFile (set_fd_pos (length (@nil byte)) start_state)).
Proof. apply main_short_file. simpl. lia. Defined.

(** X4. What the Header Detector looks at: the 24 bytes of the leading
    header and, when that header says VD, the four bytes at its data
    offset.  Two files that agree there, of whatever lengths, give the
    same result, and so does a descriptor that stood anywhere before. *)
Theorem setup_footprint (f1 f2 : list byte) (p : nat) (s : state) :
  slice f1 0 24 = slice f2 0 24 →
  (field 0 4 f1 < 10000 → field 4 4 f1 < 64 →
   slice f1 (Z.to_nat (field 16 8 f1)) 4
   = slice f2 (Z.to_nat (field 16 8 f1)) 4) →
  siemens_meas_setup f1 (set_fd_pos p s) = siemens_meas_setup f2 s.
Proof.
  intros Hhead Hoff.
  assert (∀ o n : nat, (o + n ≤ 24)%nat → field o n f2 = field o n f1)
    as Hf.
  { intros o n Hon.
    pose proof (field_slice f1 0 24 o n Hon) as E1.
    pose proof (field_slice f2 0 24 o n Hon) as E2.
    cbn [Nat.add] in E1, E2. by rewrite <- E1, <- E2, Hhead. }
  pose proof (f_equal length Hhead) as Hl. rewrite !length_slice in Hl.
  destruct (decide (length f1 < 24)%nat) as [Hshort|Hlong].
  { rewrite !setup_short by lia. unfold set_fd_pos. cbn [fd_pos buf out].
    do 2 f_equal. lia. }
  destruct (decide (field 0 4 f1 < 10000 ∧ field 4 4 f1 < 64))
    as [[Ho Hn]|Hvb].
  - specialize (Hoff Ho Hn).
    rewrite (setup_VD f1) by (done || lia).
    rewrite (setup_VD f2) by (rewrite ?Hf by lia; done || lia).
    rewrite ?(Hf 0%nat 4%nat), ?(Hf 4%nat 4%nat), ?(Hf 8%nat 4%nat),
      ?(Hf 12%nat 4%nat), ?(Hf 16%nat 8%nat) by lia.
    set (d := Z.to_nat (field 16 8 f1)) in *.
    pose proof (f_equal length Hoff) as Hl4. rewrite !length_slice in Hl4.
    assert (field d 4 f2 = field d 4 f1) as ->.
    { pose proof (field_slice f1 d 4 0 4 ltac:(lia)) as E1.
      pose proof (field_slice f2 d 4 0 4 ltac:(lia)) as E2.
      rewrite Nat.add_0_r in E1, E2. by rewrite <- E1, <- E2, Hoff. }
    rewrite <- Hoff. unfold set_fd_pos. cbn [fd_pos buf out].
    repeat case_decide; try lia; done.
  - rewrite (setup_VB f1) by (done || lia).
    rewrite (setup_VB f2) by (rewrite ?Hf by lia; done || lia).
    by rewrite ?(Hf 0%nat 4%nat), ?(Hf 4%nat 4%nat), ?(Hf 8%nat 4%nat),
      ?(Hf 12%nat 4%nat), ?(Hf 16%nat 8%nat) by lia.
Qed.

Lemma setup_footprint_witness :
  let f1 := Synth.file_vd in
  let f2 := take 36 Synth.file_vd in
  f1 ≠ f2 ∧
  siemens_meas_setup f1 (set_fd_pos 77 start_state)
  = siemens_meas_setup f2 start_state.
Proof.
  intros f1 f2. split; [vm_compute; discriminate|].
  apply setup_footprint; [vm_compute; reflexivity|].
  intros _ _. vm_compute. reflexivity.
Defined.

(** ** The Record Reader *)

Section Frame.

Context `{mri_dims}.

Variable file : list byte.
Variable vd : bool.
Variable dims : list Z.

(** What every step of the reader keeps: the output array, the size of the
    block, and a read position that only moves forward and not past the end
    of the file. *)
Local Abbreviation framed s s' :=
  (out s' = out s ∧ length (buf s') = length (buf s) ∧
   Nat.le (fd_pos s) (fd_pos s') ∧
   Nat.le (fd_pos s') (Nat.max (fd_pos s) (length file))).

Lemma xread_cases (n : nat) (s : state) :
  xread file n s
  = Ok (slice file (fd_pos s) n) (set_fd_pos (fd_pos s + n) s) ∧
    (n = 0%nat ∨ (fd_pos s + n ≤ length file)%nat)
  ∨ xread file n s
    = Fatal ReadingFile
        (set_fd_pos (fd_pos s + length (slice file (fd_pos s) n)) s) ∧
    (length file < fd_pos s + n)%nat.
Proof.
  unfold xread. rewrite length_slice.
  destruct (decide _) as [Heq|Hne]; [left | right]; (split; [done | lia]).
Qed.

Lemma xread_frame (n : nat) (s : state) :
  framed s (final_state (xread file n s)).
Proof.
  destruct (xread_cases n s) as [[-> Hn]|[-> Hn]];
    cbn [final_state set_fd_pos fd_pos buf out]; rewrite ?length_slice;
    split_and!; (done || lia).
Qed.

Lemma adc_channel_frame (scan_hdr : list byte) (pos : list Z) (s : state) :
  framed s (final_state (adc_channel file vd dims scan_hdr pos s)).
Proof.
  rewrite adc_channel_eq. cbv zeta.
  repeat (case_decide || case_match);
    cbn [final_state set_fd_pos fd_pos buf out];
    rewrite ?length_slice, ?length_inserts;
    split_and!; (done || lia).
Qed.

Lemma adc_channels_frame (scan_hdr : list byte) (n : nat) :
  ∀ (pos : list Z) (s : state),
    framed s (final_state (adc_channels file vd dims scan_hdr n pos s)).
Proof.
  induction n as [|n IH]; intros pos s.
  { cbn. split_and!; (done || lia). }
  cbn [adc_channels]. unfold mbind, M_bind.
  pose proof (adc_channel_frame scan_hdr pos s) as Hc.
  destruct (adc_channel file vd dims scan_hdr pos s) as [pos1 s1|e s1];
    cbn [final_state] in Hc; [|exact Hc].
  specialize (IH (<[COIL_DIM := pos1 !!! COIL_DIM + 1]> pos1) s1).
  destruct Hc as (Ho & Hb & Hp & Hq). destruct IH as (Ho' & Hb' & Hp' & Hq').
  split_and!; [congruence | congruence | lia | lia].
Qed.

(** The same for a reader that stops on the way. *)
Lemma siemens_adc_read_stops (pos : list Z) (s : state) (e : fatal)
    (s' : state) :
  siemens_adc_read file vd dims pos s = Fatal e s' → framed s s'.
Proof.
  unfold siemens_adc_read, mbind, M_bind.
  pose proof (xread_frame (sizeof_scan_hdr vd) s) as Hx.
  destruct (xread file (sizeof_scan_hdr vd) s) as [scan s1|e1 s1];
    cbn [final_state] in Hx; [|by intros [= _ <-]].
  pose proof (adc_channels_frame scan (Z.to_nat (dims !!! COIL_DIM))
                (<[COIL_DIM := 0]> pos) s1) as Hc.
  destruct (adc_channels file vd dims scan _ _ s1) as [pos1 s2|e2 s2];
    cbn [final_state] in Hc; [done|].
  intros [= _ <-].
  destruct Hx as (Ho & Hb & Hp & Hq). destruct Hc as (Ho' & Hb' & Hp' & Hq').
  split_and!; (congruence || lia).
Qed.

End Frame.

(** X5. The reader never writes the output array, never changes the size
    of the block it fills, never moves the read position backwards, and
    never leaves it beyond the end of the file (unless it was there
    already), whether it gets through the record or stops on the way. *)
Theorem reader_frame `{mri_dims} (file : list byte) (vd : bool)
    (dims pos : list Z) (s : state) :
  let s' := final_state (siemens_adc_read file vd dims pos s) in
  out s' = out s ∧ length (buf s') = length (buf s) ∧
  (fd_pos s ≤ fd_pos s')%nat ∧ (fd_pos s' ≤ fd_pos s `max` length file)%nat.
Proof.
  cbv zeta. unfold siemens_adc_read, mbind, M_bind.
  pose proof (xread_frame file (sizeof_scan_hdr vd) s) as Hx.
  destruct (xread file (sizeof_scan_hdr vd) s) as [scan s1|e s1];
    cbn [final_state] in Hx; [|exact Hx].
  pose proof (adc_channels_frame file vd dims scan
                (Z.to_nat (dims !!! COIL_DIM)) (<[COIL_DIM := 0]> pos) s1)
    as Hc.
  destruct (adc_channels file vd dims scan _ _ s1) as [pos1 s2|e s2];
    cbn [final_state mret M_ret] in Hc |- *;
    destruct Hx as (Ho & Hb & Hp & Hq); destruct Hc as (Ho' & Hb' & Hp' & Hq');
    split_and!; (congruence || lia).
Qed.

(** X6. A channel's samples are stored only where the block has room for
    them.  When the body of the channel loop gets through, the channel index
    [c] it stored at is the one it was called with, it is below
    [dims[COIL_DIM]], the read extent is positive, the stored elements
    [c * R .. c * R + R - 1] lie within the [R * C] elements [main]
    allocated, and every other element of the block is as before. *)
Theorem adc_channel_store `{mri_dims} (file : list byte) (vd : bool)
    (dims : list Z) (scan_hdr : list byte) (pos : list Z) (s : state)
    (pos' : list Z) (s' : state) :
  length dims = DIMS →
  adc_channel file vd dims scan_hdr pos s = Ok pos' s' →
  let R := Z.to_nat (dims !!! READ_DIM) in
  let C := Z.to_nat (dims !!! COIL_DIM) in
  ∃ c : nat,
    pos !!! COIL_DIM = Z.of_nat c ∧ pos' !!! COIL_DIM = Z.of_nat c ∧
    (c < C)%nat ∧ (0 < R)%nat ∧
    (c * R + R ≤ length (md_alloc (adc_dims_of dims)))%nat ∧
    length (buf s') = length (buf s) ∧
    ∀ i : nat, ¬ (c * R ≤ i < c * R + R)%nat → buf s' !! i = buf s !! i.
Proof.
  intros Hdims. rewrite adc_channel_eq. cbv zeta.
  set (mdh := adc_mdh vd scan_hdr _).
  set (pos1 := if decide (0 = pos !!! COIL_DIM) then adc_pos mdh pos else pos).
  assert (pos1 !!! COIL_DIM = pos !!! COIL_DIM) as Hcoil.
  { unfold pos1. case_decide; [apply adc_pos_coil | done]. }
  case_decide; [done|]. case_decide; [done|].
  destruct (md_is_index DIMS pos1 dims) eqn:Hidx; [|done]. cbn [negb].
  case_decide; [done|]. intros [= <- <-]. cbn [buf].
  rewrite md_is_index_spec in Hidx.
  pose proof (Hidx COIL_DIM ltac:(axes_lt)) as Hc.
  pose proof (Hidx READ_DIM ltac:(axes_lt)) as Hr.
  pose proof (length_md_alloc dims Hdims) as Halloc.
  exists (Z.to_nat (pos1 !!! COIL_DIM)).
  assert (Z.to_nat (pos1 !!! COIL_DIM * dims !!! READ_DIM)
          = (Z.to_nat (pos1 !!! COIL_DIM) * Z.to_nat (dims !!! READ_DIM))%nat)
    as -> by (rewrite Z2Nat.inj_mul; lia).
  split_and!.
  - lia.
  - lia.
  - lia.
  - lia.
  - nia.
  - by rewrite length_inserts.
  - intros i Hi.
    destruct (decide (i < Z.to_nat (pos1 !!! COIL_DIM)
                          * Z.to_nat (dims !!! READ_DIM))%nat).
    + by rewrite list_lookup_inserts_lt.
    + rewrite list_lookup_inserts_ge; [done|].
      rewrite length_cfl_chunks. lia.
Qed.

Lemma adc_channel_store_witness :
  let dims := main_dims [Opt_x 2; Opt_c 2] in
  let s := State 176 (md_alloc (adc_dims_of dims)) (create_cfl dims) in
  let pos := <[COIL_DIM := 1]> (replicate DIMS 0) in
  ∃ (pos' : list Z) (s' : state),
    adc_channel (Synth.file_two 1 0) false dims [] pos s = Ok pos' s' ∧
    buf s' !! 2%nat = Some (Synth.sample 5 6) ∧
    buf s' !! 0%nat = buf s !! 0%nat.
Proof.
  intros dims s pos.
  destruct (adc_channel (Synth.file_two 1 0) false dims [] pos s)
    as [pos' s'|e s'] eqn:Hch.
  - exists pos', s'. split; [done|].
    destruct (adc_channel_store (Synth.file_two 1 0) false dims [] pos s
                pos' s' (length_cli_parse _) Hch)
      as (c & Hc & _ & _ & _ & _ & _ & Hother).
    assert (pos !!! COIL_DIM = 1) as E by (vm_compute; reflexivity).
    assert (c = 1%nat) as -> by lia.
    split; [|apply Hother; vm_compute; lia].
    vm_compute in Hch. injection Hch as _ <-. vm_compute. reflexivity.
  - exfalso. vm_compute in Hch. discriminate Hch.
Defined.

(** X7. The sample count of the metadata is a 16-bit field, so a read
    extent outside 1..65535 cannot be met: with at least one channel the
    reader then never gets through a record.  It stops with "reading file"
    when the first channel header is cut short, else with "wrong number of
    samples", or, for a read extent of 0 that the metadata repeats, at the
    bounds check; the output array is untouched. *)
Theorem read_extent_range `{mri_dims} (file : list byte) (vd : bool)
    (dims pos : list Z) (s : state) :
  (0 < Z.to_nat (dims !!! COIL_DIM))%nat →
  ¬ (0 < dims !!! READ_DIM < 65536) →
  ∃ (e : fatal) (s' : state),
    siemens_adc_read file vd dims pos s = Fatal e s' ∧
    out s' = out s ∧
    (e = ReadingFile ∨ e = WrongSamples ∨
     (e = NotAnIndex ∧ dims !!! READ_DIM = 0)).
Proof.
  intros HC HR. unfold siemens_adc_read, mbind, M_bind.
  destruct (xread_cases file (sizeof_scan_hdr vd) s) as [[-> _]|[-> _]];
    [|by eexists _, _; split_and!; [done | done | left]].
  destruct (Z.to_nat (dims !!! COIL_DIM)) as [|n]; [lia|].
  cbn [adc_channels]. unfold mbind, M_bind.
  rewrite adc_channel_eq. cbv zeta. cbn [fd_pos set_fd_pos buf out].
  set (mdh := adc_mdh vd _ _).
  set (pos1 := if decide _ then adc_pos mdh _ else _).
  assert (0 ≤ samples mdh < 65536) as Hs.
  { unfold mdh, adc_mdh, mdh2_of_bytes. cbn [samples].
    pose proof (field_bound 8 2
                  (take sizeof_mdh2
                     (if vd
                      then drop 40 (slice file (fd_pos s) (sizeof_scan_hdr vd))
                      else drop 20
                             (slice file (fd_pos s + sizeof_scan_hdr vd)
                                (sizeof_chan_hdr vd))))) as Hb.
    change (256 ^ Z.of_nat 2) with 65536 in Hb. exact Hb. }
  case_decide; [by eexists _, _; split_and!; [done | done | left]|].
  case_decide; [by eexists _, _; split_and!; [done | done | right; left]|].
  destruct (md_is_index DIMS pos1 dims) eqn:Hidx; cbn [negb].
  { rewrite md_is_index_spec in Hidx.
    pose proof (Hidx READ_DIM ltac:(axes_lt)). lia. }
  eexists _, _. split_and!; [done | done |]. right. right. split; [done|lia].
Qed.

Lemma read_extent_range_witness :
  let dims := main_dims [Opt_x 70000] in
  let s := set_fd_pos 32 start_state in
  ∃ (e : fatal) (s' : state),
    siemens_adc_read Synth.file_vb false dims (replicate DIMS 0) s
    = Fatal e s' ∧
    out s' = out s ∧
    (e = ReadingFile ∨ e = WrongSamples ∨
     (e = NotAnIndex ∧ dims !!! READ_DIM = 0)).
Proof.
  intros dims s. apply read_extent_range; vm_compute; [lia|].
  intros [_ Hlt]. discriminate Hlt.
Defined.

(** ** Whole runs *)

Section Rounds.

Context `{mri_dims}.

Variable file : list byte.
Variable vd : bool.
Variable dims : list Z.
Variable adc_dims : list Z.

Local Abbreviation zeros := (replicate DIMS 0).
Local Abbreviation iter := (adc_iter file vd dims adc_dims).
Local Abbreviation loop := (adc_loop file vd dims adc_dims).

(** A loop that ends well was entered with enough fuel for its count and
    is that many rounds of its body. *)
Lemma adc_loop_Ok_inv (fuel : nat) :
  ∀ (adcs : Z) (s s' : state),
    0 ≤ adcs < 2 ^ 63 →
    loop fuel adcs s = Some (Ok () s') →
    (Z.to_nat adcs < fuel)%nat ∧ times (Z.to_nat adcs) iter s = Ok () s'.
Proof.
  induction fuel as [|fuel IH]; intros adcs s s' Hrange Hloop; [done|].
  destruct (decide (adcs = 0)) as [->|Hne].
  { rewrite adc_loop_0 in Hloop. injection Hloop as <-.
    split; [simpl; lia | done]. }
  rewrite adc_loop_step in Hloop by lia.
  replace (Z.to_nat adcs) with (S (Z.to_nat (adcs - 1))) by lia.
  cbn [times]. unfold mbind, M_bind.
  destruct (iter s) as [[] s1|e s1]; [|done].
  destruct (IH (adcs - 1) s1 s' ltac:(lia) Hloop) as [Hlt Hrun].
  split; [lia | done].
Qed.

(** A record that passes lies within the file. *)
Lemma rec_ok_in_file (p : nat) (pos : list Z) :
  rec_ok file vd dims p pos → (0 < rec_size vd dims)%nat →
  (p + rec_size vd dims ≤ length file)%nat.
Proof.
  intros [Hscan Hchan] Hsize. unfold rec_size in *.
  destruct (Z.to_nat (dims !!! COIL_DIM)) as [|n] eqn:HC.
  - destruct vd; [|unfold sizeof_scan_hdr in Hsize; lia].
    specialize (Hscan eq_refl). lia.
  - destruct (Hchan n ltac:(lia)) as [Hlen _]. unfold chan_start in Hlen. lia.
Qed.

(** Rounds that all end well have each read a record that passes, one
    behind the other. *)
Lemma times_iter_Ok_inv (n : nat) :
  ∀ s s' : state,
    times n iter s = Ok () s' →
    fd_pos s' = rec_start vd dims (fd_pos s) n ∧
    ∀ k : nat, (k < n)%nat →
      rec_ok file vd dims (rec_start vd dims (fd_pos s) k) zeros.
Proof.
  induction n as [|n IH]; intros s s' Hrun.
  { injection Hrun as <-. split; [unfold rec_start; lia | lia]. }
  cbn [times] in Hrun. unfold mbind, M_bind in Hrun.
  pose proof (adc_iter_at file vd dims adc_dims s) as Hit. cbv zeta in Hit.
  destruct (iter s) as [[] s1|e s1]; [|done].
  destruct Hit as [Hok Hs1].
  destruct (IH s1 s' Hrun) as [Hpos Hoks].
  rewrite Hs1 in Hpos, Hoks. cbn [fd_pos] in Hpos, Hoks.
  split.
  - rewrite Hpos. unfold rec_start. lia.
  - intros [|k] Hk.
    + unfold rec_start. by rewrite Nat.mul_0_l, Nat.add_0_r.
    + specialize (Hoks k ltac:(lia)). unfold rec_start in *.
      replace (fd_pos s + S k * rec_size vd dims)%nat
        with (fd_pos s + rec_size vd dims + k * rec_size vd dims)%nat by lia.
      exact Hoks.
Qed.

End Rounds.

(** X8. A run that ends well has read exactly the number of records it
    was to read, each of them passing the reader's checks and lying within
    the file, one directly behind the other from where the Header Detector
    left the stream; so a file that is cut short or holds a record that
    fails is never read to a good end. *)
Theorem main_success `{mri_dims} (opts : list cli_opt) (file : list byte)
    (fuel : nat) (vd : bool) (hdr : hdr_s) (s1 s' : state) :
  siemens_meas_setup file start_state = Ok (vd, hdr) s1 →
  0 ≤ main_adcs opts < 2 ^ 63 →
  main opts file fuel = Some (Ok () s') →
  let dims := main_dims opts in
  let K := Z.to_nat (main_adcs opts) in
  (K < fuel)%nat ∧
  (∀ k : nat, (k < K)%nat →
     rec_ok file vd dims (rec_start vd dims (fd_pos s1) k) (replicate DIMS 0) ∧
     ((0 < rec_size vd dims)%nat →
      (rec_start vd dims (fd_pos s1) (S k) ≤ length file)%nat)) ∧
  fd_pos s' = rec_start vd dims (fd_pos s1) K.
Proof.
  intros Hsetup Hrange Hmain. cbv zeta.
  rewrite (main_loop opts file fuel vd hdr s1 Hsetup) in Hmain.
  destruct (adc_loop_Ok_inv file vd (main_dims opts) _ fuel _ _ _ Hrange Hmain)
    as [Hfuel Hrun].
  destruct (times_iter_Ok_inv file vd (main_dims opts) _ _ _ _ Hrun)
    as [Hpos Hoks].
  cbn [fd_pos] in Hpos, Hoks. split_and!; [done | | done].
  intros k Hk. split; [by apply Hoks|]. intros Hsize.
  pose proof (rec_ok_in_file file vd (main_dims opts) _ _ (Hoks k Hk) Hsize).
  unfold rec_start in *. lia.
Qed.

Lemma main_success_witness :
  let opts := [Opt_x 4; Opt_y 2] in
  let dims := main_dims opts in
  ∃ s' : state,
    main opts Synth.file_vb 3 = Some (Ok () s') ∧
    fd_pos s' = rec_start false dims 32 2 ∧
    (rec_start false dims 32 2 ≤ length Synth.file_vb)%nat.
Proof.
  intros opts dims.
  destruct (main opts Synth.file_vb 3) as [[[] s'|e s']|] eqn:Hmain.
  - exists s'. split; [done|].
    destruct (main_success opts Synth.file_vb 3 false (Hdr 32 1 0 0 0)
                (set_fd_pos 32 start_state) s')
      as (_ & Hoks & Hpos); [vm_compute; reflexivity | vm_compute; split; congruence | done |].
    split; [exact Hpos|].
    apply (Hoks 1%nat); vm_compute; lia.
  - exfalso. vm_compute in Hmain. discriminate Hmain.
  - exfalso. vm_compute in Hmain. discriminate Hmain.
Defined.

(** X9. No channel to read.  With a coil extent of 0 or less the reader
    reads no channel, whatever the file holds: no sample count is checked,
    no counter is taken and nothing is stored.  On a VB file it returns at
    once, the state as it was; on a VD file it consumes the scan header of
    192 bytes and nothing else, or stops with "reading file" when the file
    ends before.  The coordinate comes back as handed in, but for the coil
    entry, which is 0. *)
Theorem reader_no_channels `{mri_dims} (file : list byte) (vd : bool)
    (dims pos : list Z) (s : state) :
  dims !!! COIL_DIM ≤ 0 →
  (vd = false →
   siemens_adc_read file vd dims pos s = Ok (<[COIL_DIM := 0]> pos) s) ∧
  (vd = true → (fd_pos s + 192 ≤ length file)%nat →
   siemens_adc_read file vd dims pos s
   = Ok (<[COIL_DIM := 0]> pos) (set_fd_pos (fd_pos s + 192) s)) ∧
  (vd = true → (length file < fd_pos s + 192)%nat →
   ∃ s' : state,
     siemens_adc_read file vd dims pos s = Fatal ReadingFile s' ∧
     buf s' = buf s ∧ out s' = out s).
Proof.
  intros HC. unfold siemens_adc_read, mbind, M_bind.
  assert (Z.to_nat (dims !!! COIL_DIM) = 0%nat) as -> by lia.
  cbn [adc_channels mret M_ret]. rewrite list_insert_insert_eq.
  split_and!.
  - intros ->. unfold sizeof_scan_hdr. by rewrite xread_0.
  - intros -> Hfits. unfold sizeof_scan_hdr. by rewrite xread_Ok by done.
  - intros -> Hcut. unfold sizeof_scan_hdr.
    rewrite xread_Fatal by lia. by eexists.
Qed.

Lemma reader_no_channels_witness :
  let dims := main_dims [Opt_x 4; Opt_c 0] in
  let s := set_fd_pos 32 start_state in
  siemens_adc_read Synth.file_vb false dims (replicate DIMS 7) s
  = Ok (<[COIL_DIM := 0]> (replicate DIMS 7)) s.
Proof.
  intros dims s.
  apply (reader_no_channels Synth.file_vb false dims (replicate DIMS 7) s);
    [|done].
  vm_compute. discriminate.
Defined.

(** ** Bytes behind the last record *)

Section Trailing.

Context `{mri_dims}.

Variable file extra : list byte.

Lemma xread_app_Ok (n : nat) (s : state) (b : list byte) (s' : state) :
  xread file n s = Ok b s' → xread (file ++ extra) n s = Ok b s'.
Proof.
  unfold xread. rewrite !length_slice, length_app.
  destruct (decide ((n `min` (length file - fd_pos s))%nat = n)) as [Hn|];
    [|done].
  intros [= <- <-].
  assert (slice (file ++ extra) (fd_pos s) n = slice file (fd_pos s) n) as ->.
  { unfold slice. destruct (decide (n = 0)%nat) as [->|Hpos]; [done|].
    rewrite drop_app_le by lia. rewrite take_app_le; [done|].
    rewrite length_drop. lia. }
  destruct (decide _); [done | lia].
Qed.

Lemma setup_app_Ok (s : state) (r : bool * hdr_s) (s' : state) :
  siemens_meas_setup file s = Ok r s' →
  siemens_meas_setup (file ++ extra) s = Ok r s'.
Proof.
  unfold siemens_meas_setup. cbv zeta. unfold mbind, M_bind.
  destruct (xseek 0 s) as [[] s0|]; [|done].
  destruct (xread file sizeof_hdr_s s0) as [b sa|] eqn:Hb; [|done].
  rewrite (xread_app_Ok _ _ _ _ Hb).
  destruct (bool_decide _ && bool_decide _); [|done].
  destruct (xseek _ sa) as [[] sb|]; [|done].
  destruct (xread file 4 sb) as [o sc|] eqn:Ho; [|done].
  by rewrite (xread_app_Ok _ _ _ _ Ho).
Qed.

Variable vd : bool.
Variable dims : list Z.

Lemma adc_channel_app_Ok (scan_hdr : list byte) (pos : list Z) (s : state)
    (pos' : list Z) (s' : state) :
  adc_channel file vd dims scan_hdr pos s = Ok pos' s' →
  adc_channel (file ++ extra) vd dims scan_hdr pos s = Ok pos' s'.
Proof.
  unfold adc_channel, xread_cfl. unfold mbind, M_bind.
  destruct (xread file (sizeof_chan_hdr vd) s) as [ch sa|] eqn:Hch; [|done].
  rewrite (xread_app_Ok _ _ _ _ Hch). cbv zeta.
  case_decide; [done|]. destruct (negb _); [done|].
  destruct (xread file _ sa) as [data sb|] eqn:Hdata; [|done].
  by rewrite (xread_app_Ok _ _ _ _ Hdata).
Qed.

Lemma adc_channels_app_Ok (scan_hdr : list byte) (n : nat) :
  ∀ (pos : list Z) (s : state) (pos' : list Z) (s' : state),
    adc_channels file vd dims scan_hdr n pos s = Ok pos' s' →
    adc_channels (file ++ extra) vd dims scan_hdr n pos s = Ok pos' s'.
Proof.
  induction n as [|n IH]; intros pos s pos' s'; [done|].
  cbn [adc_channels]. unfold mbind, M_bind.
  destruct (adc_channel file vd dims scan_hdr pos s) as [pos1 s1|] eqn:Hch;
    [|done].
  rewrite (adc_channel_app_Ok _ _ _ _ _ Hch). apply IH.
Qed.

Lemma siemens_adc_read_app_Ok (pos : list Z) (s : state) (pos' : list Z)
    (s' : state) :
  siemens_adc_read file vd dims pos s = Ok pos' s' →
  siemens_adc_read (file ++ extra) vd dims pos s = Ok pos' s'.
Proof.
  unfold siemens_adc_read. unfold mbind, M_bind.
  destruct (xread file (sizeof_scan_hdr vd) s) as [scan sa|] eqn:Hscan;
    [|done].
  rewrite (xread_app_Ok _ _ _ _ Hscan).
  destruct (adc_channels file vd dims scan _ _ sa) as [pos1 s1|] eqn:Hch;
    [|done].
  by rewrite (adc_channels_app_Ok _ _ _ _ _ _ Hch).
Qed.

Variable adc_dims : list Z.

Lemma adc_loop_app_Ok (fuel : nat) :
  ∀ (adcs : Z) (s s' : state),
    adc_loop file vd dims adc_dims fuel adcs s = Some (Ok () s') →
    adc_loop (file ++ extra) vd dims adc_dims fuel adcs s = Some (Ok () s').
Proof.
  induction fuel as [|fuel IH]; intros adcs s s'; [done|].
  cbn [adc_loop]. case_decide; [done|]. cbv zeta.
  unfold adc_iter. cbv zeta. unfold mbind, M_bind.
  destruct (siemens_adc_read file vd dims _ s) as [pos1 s1|] eqn:Hread;
    [|done].
  rewrite (siemens_adc_read_app_Ok _ _ _ _ Hread). apply IH.
Qed.

End Trailing.

(** X10. Bytes behind the last record do not count: a run that ends well
    on a file ends the same way, with the same output array and the same
    read position, on that file with anything appended. *)
Theorem main_ignores_trailing `{mri_dims} (opts : list cli_opt)
    (file extra : list byte) (fuel : nat) (s' : state) :
  main opts file fuel = Some (Ok () s') →
  main opts (file ++ extra) fuel = Some (Ok () s').
Proof.
  unfold main. cbv zeta.
  destruct (siemens_meas_setup file start_state) as [[vd hdr] s1|] eqn:Hsetup;
    [|done].
  rewrite (setup_app_Ok file extra _ _ _ Hsetup).
  apply adc_loop_app_Ok.
Qed.

Lemma main_ignores_trailing_witness :
  ∃ s' : state,
    main [Opt_x 4; Opt_y 2] Synth.file_vb 3 = Some (Ok () s') ∧
    main [Opt_x 4; Opt_y 2] (Synth.file_vb ++ [x01; x02; x03]) 3
    = Some (Ok () s').
Proof.
  destruct (main [Opt_x 4; Opt_y 2] Synth.file_vb 3) as [[[] s'|e s']|]
    eqn:Hmain.
  - exists s'. split; [done|]. by apply main_ignores_trailing.
  - exfalso. vm_compute in Hmain. discriminate Hmain.
  - exfalso. vm_compute in Hmain. discriminate Hmain.
Defined.

(** ** The options *)

Section Options.

Context `{mri_dims}.

Lemma cli_parse_app (l1 l2 : list cli_opt) :
  cli_parse (l1 ++ l2) = foldl cli_step (cli_parse l1) l2.
Proof. unfold cli_parse. apply foldl_app. Qed.

(** [main] knows its options only by what the option loop makes of
    them. *)
Lemma main_cli_parse (o1 o2 : list cli_opt) (file : list byte) (fuel : nat) :
  cli_parse o1 = cli_parse o2 → main o1 file fuel = main o2 file fuel.
Proof.
  intros Heq. unfold main, main_dims, main_adcs. by rewrite Heq.
Qed.

Lemma cli_step_swap (st : list Z * Z) (a b : cli_opt) :
  same_letter a b = false →
  cli_step (cli_step st a) b = cli_step (cli_step st b) a.
Proof.
  destruct st as [d n].
  destruct a, b; cbn [same_letter cli_step]; intros Hab;
    try discriminate Hab; try reflexivity;
    f_equal; apply list_insert_insert_ne; axes_ne.
Qed.

Lemma cli_step_twice (st : list Z * Z) (a b : cli_opt) :
  same_letter a b = true →
  cli_step (cli_step st a) b = cli_step st b.
Proof.
  destruct st as [d n].
  destruct a, b; cbn [same_letter cli_step]; intros Hab;
    try discriminate Hab; try reflexivity;
    f_equal; apply list_insert_insert_eq.
Qed.

End Options.

(** X11. Options with different letters can be given in either order:
    swapping two neighbours changes neither the shape and count the option
    loop arrives at nor anything [main] does. *)
Theorem options_commute `{mri_dims} (l1 l2 : list cli_opt) (a b : cli_opt)
    (file : list byte) (fuel : nat) :
  same_letter a b = false →
  cli_parse (l1 ++ a :: b :: l2) = cli_parse (l1 ++ b :: a :: l2) ∧
  main (l1 ++ a :: b :: l2) file fuel = main (l1 ++ b :: a :: l2) file fuel.
Proof.
  intros Hab.
  assert (cli_parse (l1 ++ a :: b :: l2) = cli_parse (l1 ++ b :: a :: l2))
    as Heq.
  { rewrite !cli_parse_app. cbn [foldl]. by rewrite cli_step_swap. }
  split; [exact Heq | by apply main_cli_parse].
Qed.

Lemma options_commute_witness :
  cli_parse ([Opt_c 2] ++ Opt_x 4 :: Opt_a 3 :: [Opt_y 2])
  = cli_parse ([Opt_c 2] ++ Opt_a 3 :: Opt_x 4 :: [Opt_y 2]) ∧
  main ([Opt_c 2] ++ Opt_x 4 :: Opt_a 3 :: [Opt_y 2]) Synth.file_vb 4
  = main ([Opt_c 2] ++ Opt_a 3 :: Opt_x 4 :: [Opt_y 2]) Synth.file_vb 4.
Proof. by apply options_commute. Defined.

(** X12. Of two options with the same letter the later one counts: an
    option directly followed by another of its letter might as well not
    have been given. *)
Theorem option_last_wins `{mri_dims} (l1 l2 : list cli_opt) (a b : cli_opt)
    (file : list byte) (fuel : nat) :
  same_letter a b = true →
  cli_parse (l1 ++ a :: b :: l2) = cli_parse (l1 ++ b :: l2) ∧
  main (l1 ++ a :: b :: l2) file fuel = main (l1 ++ b :: l2) file fuel.
Proof.
  intros Hab.
  assert (cli_parse (l1 ++ a :: b :: l2) = cli_parse (l1 ++ b :: l2)) as Heq.
  { rewrite !cli_parse_app. cbn [foldl]. by rewrite cli_step_twice. }
  split; [exact Heq | by apply main_cli_parse].
Qed.

Lemma option_last_wins_witness :
  cli_parse ([] ++ Opt_x 7 :: Opt_x 4 :: [Opt_y 2])
  = cli_parse ([] ++ Opt_x 4 :: [Opt_y 2]) ∧
  main ([] ++ Opt_x 7 :: Opt_x 4 :: [Opt_y 2]) Synth.file_vb 3
  = main ([] ++ Opt_x 4 :: [Opt_y 2]) Synth.file_vb 3.
Proof. by apply option_last_wins. Defined.

(** ** From the command line to the run *)

Section FrontProps.

Context `{mri_dims}.

Lemma getopt_loop_options (name : string) (opts : list cli_opt) :
  ∀ (rest : list getopt_ret) (st : list Z * Z),
    getopt_loop name ((Got <$> opts) ++ rest) st
    = getopt_loop name rest (foldl cli_step st opts).
Proof.
  induction opts as [|o opts IH]; intros rest st; [done|].
  cbn [fmap list_fmap app getopt_loop foldl]. apply IH.
Qed.

End FrontProps.

(** With options that take their arguments and exactly two names behind
    them, the process is the run of [main] on the file of the first name. *)
Lemma main_argv_run `{mri_dims} (name : string) (opts : list cli_opt)
    (input output : string) (fs : string → option (list byte)) (fuel : nat) :
  main_argv name (Got <$> opts) [input; output] fs fuel
  = match fs input with
    | Some file => Ran (main opts file fuel)
    | None => OpenError
    end.
Proof.
  unfold main_argv.
  rewrite <- (app_nil_r (Got <$> opts)), getopt_loop_options.
  cbn [getopt_loop]. unfold main, main_dims, main_adcs.
  fold (cli_parse opts). destruct (cli_parse opts) as [dims adcs].
  cbn [fst]. destruct (fs input) as [file|]; [|done].
  by destruct (siemens_meas_setup file start_state) as [[vd hdr] s|e s].
Qed.

(** X14. The ways out before anything is opened.  [-h] prints the usage
    and the help on the standard output and leaves with status 0, an
    option [getopt] does not accept prints the usage on the standard error
    and leaves with status 1, each whatever follows it on the command line
    and however many names there are; and so does a number of names other
    than two when all options are accepted. *)
Theorem main_argv_usage `{mri_dims} (name : string) (opts : list cli_opt)
    (rest : list getopt_ret) (operands : list string)
    (fs : string → option (list byte)) (fuel : nat) :
  main_argv name ((Got <$> opts) ++ Got_h :: rest) operands fs fuel
  = Exit 0 (usage name Stdout ++ help) ∧
  main_argv name ((Got <$> opts) ++ Got_other :: rest) operands fs fuel
  = Exit 1 (usage name Stderr) ∧
  (length operands ≠ 2%nat →
   main_argv name (Got <$> opts) operands fs fuel
   = Exit 1 (usage name Stderr)).
Proof.
  unfold main_argv. split_and!.
  - by rewrite getopt_loop_options.
  - by rewrite getopt_loop_options.
  - intros Hlen.
    rewrite <- (app_nil_r (Got <$> opts)), getopt_loop_options.
    cbn [getopt_loop]. destruct (foldl cli_step _ opts) as [dims adcs].
    by destruct operands as [|i [|o [|x rest']]].
Qed.

Lemma main_argv_usage_witness :
  main_argv "twixread" (Got <$> [Opt_x 4]) ["meas.dat"] (λ _, Some []) 1
  = Exit 1 (usage "twixread" Stderr).
Proof.
  apply (main_argv_usage "twixread" [Opt_x 4] [] ["meas.dat"]).
  simpl. lia.
Defined.

(** ** Counts the file cannot meet *)

Section RunOut.

Context `{mri_dims}.

Variable file : list byte.
Variable vd : bool.
Variable dims : list Z.
Variable adc_dims : list Z.

Local Abbreviation iter := (adc_iter file vd dims adc_dims).
Local Abbreviation loop := (adc_loop file vd dims adc_dims).

(** A round that ends well has moved on by one record, within the file. *)
Lemma adc_iter_advance (s s' : state) :
  iter s = Ok () s' → (0 < rec_size vd dims)%nat →
  fd_pos s' = (fd_pos s + rec_size vd dims)%nat ∧
  (fd_pos s' ≤ length file)%nat.
Proof.
  intros Hit Hsize.
  pose proof (adc_iter_at file vd dims adc_dims s) as Hat. cbv zeta in Hat.
  rewrite Hit in Hat. destruct Hat as [Hok ->]. cbn [fd_pos].
  split; [done|]. by eapply rec_ok_in_file.
Qed.

(** With records of positive size, [m] rounds are enough to get behind the
    end of a file of fewer than [m] records; a count that asks for more, or
    is negative, then ends in a fatal error. *)
Lemma adc_loop_runs_out (m : nat) :
  ∀ (fuel : nat) (adcs : Z) (s : state),
    (0 < rec_size vd dims)%nat → (m ≤ fuel)%nat → (1 ≤ m)%nat →
    (length file < fd_pos s + m * rec_size vd dims)%nat →
    (adcs < 0 ∧ - 2 ^ 63 ≤ adcs - Z.of_nat m) ∨
    (0 < adcs < 2 ^ 63 ∧
     Z.of_nat (length file)
     < Z.of_nat (fd_pos s) + adcs * Z.of_nat (rec_size vd dims)) →
    ∃ (e : fatal) (s' : state), loop fuel adcs s = Some (Fatal e s').
Proof.
  induction m as [|m IH]; intros fuel adcs s Hsize Hfuel Hm Hlen Hbad; [lia|].
  destruct fuel as [|fuel]; [lia|].
  rewrite adc_loop_step by lia.
  destruct (iter s) as [[] s1|e s1] eqn:Hit; [|by eexists _, _].
  destruct (adc_iter_advance s s1 Hit Hsize) as [Hpos Hin].
  apply IH; [done | lia | nia | nia |].
  destruct Hbad as [[Hneg Hwrap]|[Hpos' Hmore]]; [left; lia | right].
  rewrite Hpos. split; nia.
Qed.

End RunOut.

(** X15. A count the file cannot meet ends in a fatal error, not in a
    shorter run that ends well and not in a run without end: when a record
    has a positive size and the count is negative, or larger than the
    number of records that fit between the start of the records and the end
    of the file, [main] stops with a fatal error after at most as many
    rounds as the file has bytes. *)
Theorem main_runs_out `{mri_dims} (opts : list cli_opt) (file : list byte)
    (fuel : nat) (vd : bool) (hdr : hdr_s) (s1 : state) :
  siemens_meas_setup file start_state = Ok (vd, hdr) s1 →
  (0 < rec_size vd (main_dims opts))%nat →
  (length file < fuel)%nat →
  (main_adcs opts < 0 ∧ - 2 ^ 63 < main_adcs opts - Z.of_nat (length file)) ∨
  (0 < main_adcs opts < 2 ^ 63 ∧
   Z.of_nat (length file)
   < Z.of_nat (fd_pos s1)
     + main_adcs opts * Z.of_nat (rec_size vd (main_dims opts))) →
  ∃ (e : fatal) (s' : state), main opts file fuel = Some (Fatal e s').
Proof.
  intros Hsetup Hsize Hfuel Hbad.
  rewrite (main_loop opts file fuel vd hdr s1 Hsetup).
  apply (adc_loop_runs_out file vd (main_dims opts) _ (S (length file)));
    [done | lia | lia | cbn [fd_pos]; nia |].
  cbn [fd_pos]. destruct Hbad as [[? ?]|[? ?]]; [left; lia | by right].
Qed.

Lemma main_runs_out_witness :
  ∃ (e : fatal) (s' : state),
    main [Opt_x 4; Opt_a (-1)] Synth.file_vb 400 = Some (Fatal e s').
Proof.
  apply (main_runs_out [Opt_x 4; Opt_a (-1)] Synth.file_vb 400 false
           (Hdr 32 1 0 0 0) (set_fd_pos 32 start_state)).
  - vm_compute. reflexivity.
  - vm_compute. lia.
  - vm_compute. lia.
  - left. vm_compute. split; reflexivity.
Defined.

(** ** The fields of the metadata that do not count *)

Lemma mdh_unused_spec (o : nat) :
  mdh_unused o = true ↔
  (o < 8 ∨ 10 ≤ o < 12 ∨ 14 ≤ o < 16 ∨ 22 ≤ o < 24 ∨ 28 ≤ o < 60)%nat.
Proof.
  unfold mdh_unused.
  rewrite !orb_true_iff, !andb_true_iff, !Nat.ltb_lt, !Nat.leb_le. lia.
Qed.

Section UnusedProps.

Context `{mri_dims}.

Variable vd : bool.
Variable dims : list Z.

Local Abbreviation nC := (Z.to_nat (dims !!! COIL_DIM)).
Local Abbreviation nR := (Z.to_nat (dims !!! READ_DIM)).

Lemma in_unused_mdhb_ok (p0 K i : nat) :
  in_unused_mdhb vd dims p0 K i = true → in_unused_mdh vd dims p0 i.
Proof.
  unfold in_unused_mdhb, in_unused_mdh. rewrite existsb_exists.
  intros (k & _ & Hk). rewrite existsb_exists in Hk.
  destruct Hk as (c & Hc%in_seq & Ho). rewrite existsb_exists in Ho.
  destruct Ho as (o & _ & Hin). rewrite andb_true_iff in Hin.
  destruct Hin as [Hun Heq%Nat.eqb_eq].
  exists k, c, o. split_and!; (done || lia).
Qed.

(** Where the metadata of a channel lies, relative to its record and to
    the channel. *)
Lemma mdh_start_where (p c : nat) :
  (c < nC)%nat →
  (p ≤ mdh_start vd dims p c)%nat ∧
  (mdh_start vd dims p c + 60 ≤ p + rec_size vd dims)%nat ∧
  (vd = true → mdh_start vd dims p c = p + 40 ∧
               p + 192 ≤ chan_start vd dims p c)%nat ∧
  (vd = false → mdh_start vd dims p c = chan_start vd dims p c + 20 ∧
                chan_start vd dims p c + 128
                ≤ chan_start vd dims p c + chan_size vd dims)%nat.
Proof.
  intros Hc.
  pose proof (chan_start_in_rec vd dims p c Hc) as Hin.
  pose proof (chan_start_ge vd dims p c) as Hge.
  pose proof (chan_size_ge vd dims) as Hsz.
  unfold mdh_start, sizeof_scan_hdr, sizeof_chan_hdr in *.
  destruct vd; split_and!; (done || lia).
Qed.

Variable f1 f2 : list byte.
Variable p0 : nat.
Hypothesis Hlen : length f1 = length f2.
Hypothesis Hagree :
  ∀ i : nat, ¬ in_unused_mdh vd dims p0 i → f1 !! i = f2 !! i.

(** A byte of the record [k] that is not in an unused field of the
    metadata of one of its own channels is the same in both files. *)
Lemma agree_in_record (k i : nat) :
  (rec_start vd dims p0 k ≤ i < rec_start vd dims p0 k + rec_size vd dims)%nat →
  (∀ c o : nat, (c < nC)%nat → mdh_unused o = true →
     i ≠ (mdh_start vd dims (rec_start vd dims p0 k) c + o)%nat) →
  f1 !! i = f2 !! i.
Proof.
  intros Hin Hown. apply Hagree. intros (k' & c' & o & Hc' & Hun & ->).
  destruct (Nat.lt_trichotomy k' k) as [Hk|[->|Hk]].
  - pose proof (rec_start_lt vd dims p0 k' k Hk).
    pose proof (mdh_start_where (rec_start vd dims p0 k') c' Hc').
    apply mdh_unused_spec in Hun. lia.
  - by apply (Hown c' o).
  - pose proof (rec_start_lt vd dims p0 k k' Hk).
    pose proof (mdh_start_where (rec_start vd dims p0 k') c' Hc'). lia.
Qed.

(** The field of [n] bytes at offset [a] of the metadata of channel [c] of
    the record [k], when no byte of it is unused. *)
Lemma agree_mdh_field (k c a n : nat) :
  (c < nC)%nat → (a + n ≤ 60)%nat →
  (∀ o : nat, (a ≤ o < a + n)%nat → mdh_unused o = false) →
  field (mdh_start vd dims (rec_start vd dims p0 k) c + a) n f1
  = field (mdh_start vd dims (rec_start vd dims p0 k) c + a) n f2.
Proof.
  intros Hc Han Hused. apply (field_ext f1 f2). intros i Hi.
  set (p := rec_start vd dims p0 k) in *.
  pose proof (mdh_start_where p c Hc) as (Hlo & Hhi & Hvd & Hvb).
  apply (agree_in_record k); [fold p; lia|]. fold p.
  intros c' o Hc' Hun ->.
  pose proof (mdh_start_where p c' Hc') as (_ & _ & Hvd' & Hvb').
  assert (mdh_unused o = true → (o < 60)%nat) as Ho
    by (rewrite mdh_unused_spec; lia).
  specialize (Ho Hun).
  destruct vd.
  - destruct (Hvd eq_refl) as [Hm _]. destruct (Hvd' eq_refl) as [Hm' _].
    rewrite (Hused o) in Hun by lia. done.
  - destruct (Hvb eq_refl) as [Hm Hsz]. destruct (Hvb' eq_refl) as [Hm' _].
    destruct (Nat.lt_trichotomy c' c) as [Hlt|[->|Hgt]].
    + pose proof (chan_start_lt false dims p c' c Hlt). lia.
    + rewrite (Hused o) in Hun by lia. done.
    + pose proof (chan_start_lt false dims p c c' Hgt). lia.
Qed.

Lemma agree_samples (k c : nat) :
  (c < nC)%nat →
  samples (rec_mdh f1 vd dims (rec_start vd dims p0 k) c)
  = samples (rec_mdh f2 vd dims (rec_start vd dims p0 k) c).
Proof.
  intros Hc. rewrite !samples_rec_mdh.
  apply agree_mdh_field; [done | lia |].
  intros o Ho. apply not_true_is_false. rewrite mdh_unused_spec. lia.
Qed.

Lemma agree_counter (k j : nat) :
  (0 < nC)%nat → (j < 8)%nat → j ≠ 1%nat → j ≠ 5%nat →
  sLC (rec_mdh f1 vd dims (rec_start vd dims p0 k) 0) !!! j
  = sLC (rec_mdh f2 vd dims (rec_start vd dims p0 k) 0) !!! j.
Proof.
  intros HC Hj H1 H5.
  rewrite !sLC_rec_mdh by lia.
  rewrite <- !Nat.add_assoc.
  apply agree_mdh_field; [done | lia |].
  intros o Ho. apply not_true_is_false. rewrite mdh_unused_spec. lia.
Qed.

Lemma agree_rec_pos (k : nat) (pos0 : list Z) :
  (0 < nC)%nat →
  rec_pos f1 vd dims (rec_start vd dims p0 k) pos0
  = rec_pos f2 vd dims (rec_start vd dims p0 k) pos0.
Proof.
  intros HC. unfold rec_pos, adc_pos.
  rewrite !(agree_counter k) by (done || lia). done.
Qed.

Lemma agree_data (k c : nat) :
  (c < nC)%nat →
  slice f1 (chan_start vd dims (rec_start vd dims p0 k) c + sizeof_chan_hdr vd)
    (nR * CFL_SIZE)
  = slice f2 (chan_start vd dims (rec_start vd dims p0 k) c + sizeof_chan_hdr vd)
      (nR * CFL_SIZE).
Proof.
  intros Hc. apply (slice_ext f1 f2). intros i Hi.
  set (p := rec_start vd dims p0 k) in *.
  pose proof (chan_start_in_rec vd dims p c Hc) as Hin.
  pose proof (chan_start_ge vd dims p c) as Hge.
  unfold chan_size in Hin.
  apply (agree_in_record k); [fold p; lia|]. fold p.
  intros c' o Hc' Hun ->.
  pose proof (mdh_start_where p c' Hc') as (_ & _ & Hvd' & Hvb').
  assert (o < 60)%nat as Ho by (apply mdh_unused_spec in Hun; lia).
  destruct vd.
  - destruct (Hvd' eq_refl) as [Hm' _].
    unfold sizeof_scan_hdr, sizeof_chan_hdr in *. lia.
  - destruct (Hvb' eq_refl) as [Hm' _].
    unfold sizeof_chan_hdr, chan_size in *.
    destruct (Nat.lt_trichotomy c' c) as [Hlt|[->|Hgt]].
    + pose proof (chan_start_lt false dims p c' c Hlt).
      unfold chan_size, sizeof_chan_hdr in *. lia.
    + lia.
    + pose proof (chan_start_lt false dims p c c' Hgt).
      unfold chan_size, sizeof_chan_hdr in *. lia.
Qed.

(** The reader gives the same result on both files at every record. *)
Lemma unused_mdh_read (k : nat) (pos0 : list Z) (s : state) :
  length pos0 = DIMS → fd_pos s = rec_start vd dims p0 k →
  siemens_adc_read f1 vd dims pos0 s = siemens_adc_read f2 vd dims pos0 s.
Proof.
  intros Hpos0 Hs.
  destruct (decide (0 < nC)%nat) as [HC|HC].
  - apply (siemens_adc_read_ext f1 f2 vd dims Hlen (rec_start vd dims p0 k)
             pos0 Hpos0); [by apply agree_rec_pos | | done].
    intros c Hc. split; [by apply agree_samples | by apply agree_data].
  - unfold siemens_adc_read, mbind, M_bind.
    assert (nC = 0%nat) as -> by lia. cbn [adc_channels mret M_ret].
    unfold xread. rewrite (length_slice_ext f1 f2 Hlen).
    by destruct (decide _).
Qed.

Lemma unused_mdh_loop (adc_dims : list Z) (fuel : nat) :
  ∀ (adcs : Z) (k : nat) (s : state),
    fd_pos s = rec_start vd dims p0 k →
    adc_loop f1 vd dims adc_dims fuel adcs s
    = adc_loop f2 vd dims adc_dims fuel adcs s.
Proof.
  induction fuel as [|fuel IH]; intros adcs k s Hs; [done|].
  cbn [adc_loop]. destruct (decide (adcs = 0)); [done|]. cbv zeta.
  assert (adc_iter f1 vd dims adc_dims s = adc_iter f2 vd dims adc_dims s)
    as Hit.
  { unfold adc_iter. cbv zeta. unfold mbind, M_bind.
    by rewrite (unused_mdh_read k _ s (length_replicate _ _) Hs). }
  rewrite Hit.
  pose proof (adc_iter_at f2 vd dims adc_dims s) as Hat. cbv zeta in Hat.
  destruct (adc_iter f2 vd dims adc_dims s) as [[] s'|e s']; [|done].
  destruct Hat as [_ ->]. apply (IH _ (S k)). cbn [fd_pos].
  rewrite Hs. unfold rec_start. lia.
Qed.

End UnusedProps.

Lemma in_unused_mdh_far `{mri_dims} (vd : bool) (dims : list Z) (p0 i : nat) :
  in_unused_mdh vd dims p0 i → (p0 + (if vd then 40 else 20) ≤ i)%nat.
Proof.
  intros (k & c & o & Hc & _ & ->).
  pose proof (mdh_start_where vd dims (rec_start vd dims p0 k) c Hc)
    as (_ & _ & Hvd & Hvb).
  assert (p0 ≤ rec_start vd dims p0 k)%nat by (unfold rec_start; lia).
  pose proof (chan_start_ge vd dims (rec_start vd dims p0 k) c).
  destruct vd; [destruct (Hvd eq_refl) | destruct (Hvb eq_refl)]; lia.
Qed.

(** X16. Of the metadata the reader reads only the sample count and the
    six loop counters it uses.  Two files of the same length that differ
    only in the other fields of the metadata of the records (the
    evaluation mask, the channel count, the loop counters 1, 5 and 8 to 13,
    and everything behind the loop counters) give the same run of [main]:
    the same outcome, the same output array.  In particular the channel
    count of the metadata is never compared with the coil extent. *)
Theorem unused_metadata `{mri_dims} (opts : list cli_opt) (f1 f2 : list byte)
    (fuel : nat) (vd : bool) (hdr : hdr_s) (s1 : state) :
  siemens_meas_setup f1 start_state = Ok (vd, hdr) s1 →
  length f1 = length f2 →
  (∀ i : nat, ¬ in_unused_mdh vd (main_dims opts) (fd_pos s1) i →
     f1 !! i = f2 !! i) →
  main opts f1 fuel = main opts f2 fuel.
Proof.
  intros Hsetup Hlen Hagree.
  assert (∃ hdr2, siemens_meas_setup f2 start_state = Ok (vd, hdr2) s1)
    as [hdr2 Hsetup2].
  { destruct (decide (length f1 < 24)%nat) as [Hshort|Hlong].
    { by rewrite setup_short in Hsetup by done. }
    destruct (decide (field 0 4 f1 < 10000 ∧ field 4 4 f1 < 64))
      as [[Ho Hn]|Hvb].
    - pose proof (field_bound (Z.to_nat (field 16 8 f1)) 4 f1) as Hb1.
      pose proof (field_bound 16 8 f1) as Hb2.
      pose proof Hsetup as Hsetup0.
      rewrite setup_VD in Hsetup by (done || lia).
      assert (vd = true ∧
              fd_pos s1
              = Z.to_nat (field 16 8 f1
                          + field (Z.to_nat (field 16 8 f1)) 4 f1)) as [-> Hp].
      { repeat case_decide; try done. by injection Hsetup as <- _ <-. }
      exists hdr. rewrite <- Hsetup0. symmetry.
      apply setup_ext; [done | |].
      + intros i Hi. apply Hagree. intros Hin%in_unused_mdh_far. lia.
      + intros i Hi. apply Hagree. intros Hin%in_unused_mdh_far. lia.
    - rewrite setup_VB in Hsetup by (done || lia).
      injection Hsetup as <- _ <-. cbn [fd_pos set_fd_pos] in Hagree.
      assert (∀ a : nat, (a + 4 ≤ 8)%nat → field a 4 f2 = field a 4 f1) as Hf.
      { intros a Ha. symmetry. apply (field_ext f1 f2). intros i Hi.
        apply Hagree. intros Hin%in_unused_mdh_far. lia. }
      eexists. rewrite setup_VB by (rewrite ?Hf by lia; done || lia).
      by rewrite (Hf 0%nat) by lia. }
  rewrite (main_loop opts f1 fuel vd hdr s1 Hsetup).
  rewrite (main_loop opts f2 fuel vd hdr2 s1 Hsetup2).
  apply (unused_mdh_loop vd (main_dims opts) f1 f2 (fd_pos s1) Hlen Hagree
           _ fuel _ 0%nat).
  cbn [fd_pos]. unfold rec_start. lia.
Qed.

Lemma unused_metadata_witness :
  let opts := [Opt_x 2; Opt_c 2; Opt_y 2] in
  let f1 := Synth.file_vd_junk 2 0 in
  let f2 := Synth.file_vd_junk 9 77 in
  f1 ≠ f2 ∧ main opts f1 3 = main opts f2 3.
Proof.
  intros opts f1 f2.
  split; [vm_compute; discriminate|].
  destruct (differ_only_ok (in_unused_mdhb true (main_dims opts) 44 2) f1 f2)
    as [Hlen Hagree]; [vm_compute; reflexivity|].
  apply (unused_metadata opts f1 f2 3 true (Hdr 12 1 7 9 32)
           (set_fd_pos 44 start_state)); [vm_compute; reflexivity | done |].
  intros i Hout. apply Hagree.
  destruct (in_unused_mdhb true (main_dims opts) 44 2 i) eqn:Hb; [|done].
  exfalso. apply Hout.
  by apply (in_unused_mdhb_ok true (main_dims opts) 44 2).
Defined.

(** ** How a record fails *)

Section Faults.

Context `{mri_dims}.

Variable file : list byte.
Variable vd : bool.
Variable dims : list Z.

(** A channel fails in one way only. *)
Lemma chan_fault_unique (p : nat) (pos : list Z) (c : nat) (e e' : fatal) :
  chan_fault file vd dims p pos c e → chan_fault file vd dims p pos c e' →
  e = e'.
Proof.
  pose proof (chan_start_S vd dims p c) as HS.
  destruct e, e'; cbn [chan_fault]; intros He He'; try done;
    destruct_or?; destruct_and?; try done; try lia; try congruence.
Qed.

Lemma siemens_adc_read_fault (pos : list Z) (s : state) (c : nat)
    (e : fatal) :
  length pos = DIMS →
  (vd = true → fd_pos s + sizeof_scan_hdr vd ≤ length file)%nat →
  (c < Z.to_nat (dims !!! COIL_DIM))%nat →
  (∀ c' : nat, (c' < c)%nat → chan_ok file vd dims (fd_pos s) pos c') →
  chan_fault file vd dims (fd_pos s) pos c e →
  ∃ s' : state, siemens_adc_read file vd dims pos s = Fatal e s'.
Proof.
  intros Hpos Hscan Hc Hbefore Hfault.
  pose proof (siemens_adc_read_at file vd dims (fd_pos s) pos Hpos s eq_refl)
    as Hat.
  destruct (siemens_adc_read file vd dims pos s) as [pos' s'|e' s'].
  - destruct Hat as [[_ Hoks] _]. exfalso.
    eapply chan_ok_no_fault; [exact (Hoks c Hc) | exact Hfault].
  - exists s'. destruct Hat as [_ Hwhy].
    destruct Hwhy as [(_ & Hvd & Hshort)|(_ & c0 & Hc0 & Hoks & Hfault0)].
    { specialize (Hscan Hvd). lia. }
    destruct (Nat.lt_trichotomy c0 c) as [Hlt|[->|Hgt]].
    + exfalso.
      eapply chan_ok_no_fault; [exact (Hbefore c0 Hlt) | exact Hfault0].
    + by rewrite (chan_fault_unique _ _ _ _ _ Hfault Hfault0).
    + exfalso.
      eapply chan_ok_no_fault; [exact (Hoks c Hgt) | exact Hfault].
Qed.

End Faults.

(** X17. The order of the checks.  The first channel of a record that
    does not pass decides how the reader stops, and it stops in the first
    of these ways that applies to that channel: "reading file" when the
    channel header is cut short; "wrong number of samples" when the sample
    count is not the read extent, whether or not the coordinate is an
    index; the failed bounds check when the count is right and the
    coordinate is no index; "reading file" when only the samples are cut
    short.  The output array is as the record found it. *)
Theorem reader_first_fault `{mri_dims} (file : list byte) (vd : bool)
    (dims pos : list Z) (s : state) (c : nat) (e : fatal) :
  length pos = DIMS →
  (vd = true → fd_pos s + sizeof_scan_hdr vd ≤ length file)%nat →
  (c < Z.to_nat (dims !!! COIL_DIM))%nat →
  (∀ c' : nat, (c' < c)%nat → chan_ok file vd dims (fd_pos s) pos c') →
  chan_fault file vd dims (fd_pos s) pos c e →
  ∃ s' : state,
    siemens_adc_read file vd dims pos s = Fatal e s' ∧ out s' = out s.
Proof.
  intros Hpos Hscan Hc Hbefore Hfault.
  destruct (siemens_adc_read_fault file vd dims pos s c e Hpos Hscan Hc
              Hbefore Hfault) as [s' Hread].
  exists s'. split; [done|].
  by destruct (siemens_adc_read_stops file vd dims pos s e s' Hread)
    as [-> _].
Qed.

Lemma reader_first_fault_witness :
  let dims := main_dims [Opt_x 3] in
  let s := set_fd_pos 32 start_state in
  md_is_index DIMS
    (rec_pos Synth.file_far false dims 32 (replicate DIMS 0)) dims = false ∧
  ∃ s' : state,
    siemens_adc_read Synth.file_far false dims (replicate DIMS 0) s
    = Fatal WrongSamples s' ∧ out s' = out s.
Proof.
  intros dims s. split; [vm_compute; reflexivity|].
  apply (reader_first_fault Synth.file_far false dims (replicate DIMS 0)
           s 0 WrongSamples).
  - apply length_replicate.
  - intros Hvd. discriminate Hvd.
  - vm_compute. lia.
  - intros c' Hc'. lia.
  - split; [vm_compute; lia | vm_compute; discriminate].
Defined.

(** X18. At the end of the file.  When no byte is left and the record
    has a scan header or at least one channel, the reader stops with
    "reading file"; the read position stays where it was and neither the
    output array nor the size of the block has changed. *)
Theorem reader_at_eof `{mri_dims} (file : list byte) (vd : bool)
    (dims pos : list Z) (s : state) :
  length pos = DIMS →
  (length file ≤ fd_pos s)%nat →
  vd = true ∨ (0 < Z.to_nat (dims !!! COIL_DIM))%nat →
  ∃ s' : state,
    siemens_adc_read file vd dims pos s = Fatal ReadingFile s' ∧
    fd_pos s' = fd_pos s ∧ out s' = out s ∧
    length (buf s') = length (buf s).
Proof.
  intros Hpos Heof Hsome.
  pose proof (siemens_adc_read_at file vd dims (fd_pos s) pos Hpos s eq_refl)
    as Hat.
  pose proof (sizeof_chan_hdr_pos vd) as Hch.
  assert (∀ c : nat, chan_ok file vd dims (fd_pos s) pos c → False) as Hno.
  { intros c (Hfit & _). rewrite chan_start_S in Hfit.
    pose proof (chan_start_ge vd dims (fd_pos s) c). lia. }
  destruct (siemens_adc_read file vd dims pos s) as [pos' s'|e s'] eqn:Hread.
  - exfalso. destruct Hat as [[Hscan Hoks] _].
    destruct Hsome as [Hvd|HC].
    + specialize (Hscan Hvd). unfold sizeof_scan_hdr in Hscan.
      rewrite Hvd in Hscan. lia.
    + exact (Hno 0%nat (Hoks 0%nat HC)).
  - destruct (siemens_adc_read_stops file vd dims pos s e s' Hread)
      as (Hout & Hbuf & Hlo & Hhi).
    assert (e = ReadingFile) as ->.
    { destruct Hat as [_ [(He & _)|(_ & c & Hc & Hoks & Hfault)]]; [done|].
      destruct c as [|c]; [|exfalso; exact (Hno 0%nat (Hoks 0%nat ltac:(lia)))].
      pose proof (chan_start_ge vd dims (fd_pos s) 0).
      destruct e; cbn [chan_fault] in Hfault; [done | done | lia | lia]. }
    exists s'. split_and!; (done || lia).
Qed.

Lemma reader_at_eof_witness :
  let dims := main_dims [Opt_x 4] in
  let s := set_fd_pos 352 start_state in
  ∃ s' : state,
    siemens_adc_read Synth.file_vb false dims (replicate DIMS 0) s
    = Fatal ReadingFile s' ∧
    fd_pos s' = fd_pos s ∧ out s' = out s ∧
    length (buf s') = length (buf s).
Proof.
  intros dims s. apply reader_at_eof.
  - apply length_replicate.
  - vm_compute. lia.
  - right. vm_compute. lia.
Defined.

(** ** What the reader makes of the coordinate it is handed *)

Section Handed.

Context `{mri_dims}.

(** With the coil axis at 0 and the six counters set, two coordinates that
    agree on every other axis are the same. *)
Lemma adc_pos_handed (mdh : mdh2) (pos1 pos2 : list Z) :
  length pos1 = DIMS → length pos2 = DIMS →
  (∀ i : nat,
     i ≠ COIL_DIM → i ≠ PHS1_DIM → i ≠ SLICE_DIM → i ≠ PHS2_DIM →
     i ≠ TE_DIM → i ≠ TIME_DIM → i ≠ TIME2_DIM →
     pos1 !! i = pos2 !! i) →
  adc_pos mdh (<[COIL_DIM := 0]> pos1) = adc_pos mdh (<[COIL_DIM := 0]> pos2).
Proof.
  intros Hl1 Hl2 Hagree. apply list_eq. intros i. unfold adc_pos.
  pose proof mri_dims_lt as Hlt.
  rewrite !list_lookup_insert, !length_insert, Hl1, Hl2.
  repeat case_decide; try done; try lia.
  apply Hagree; intros ->; lia.
Qed.

Variable file : list byte.
Variable vd : bool.
Variable dims : list Z.

(** The body of the channel loop, entered with the coil axis at 0, knows
    the coordinate only by what the counter assignments make of it. *)
Lemma adc_channel_handed (scan_hdr : list byte) (pos1 pos2 : list Z)
    (s : state) :
  pos1 !!! COIL_DIM = 0 → pos2 !!! COIL_DIM = 0 →
  (∀ mdh : mdh2, adc_pos mdh pos1 = adc_pos mdh pos2) →
  adc_channel file vd dims scan_hdr pos1 s
  = adc_channel file vd dims scan_hdr pos2 s.
Proof.
  intros H1 H2 Hsame. unfold adc_channel, mbind, M_bind.
  destruct (xread file (sizeof_chan_hdr vd) s) as [ch sa|]; [|done].
  cbv zeta. rewrite H1, H2. destruct (decide (0 = 0)) as [_|]; [|done].
  by rewrite Hsame.
Qed.

End Handed.

(** X19. What the caller leaves in the coil entry and in the six counter
    entries of the coordinate does not matter when there is at least one
    channel: the reader sets them before it looks at them.  Two
    coordinates that agree on all other axes give the same result. *)
Theorem reader_overwrites `{mri_dims} (file : list byte) (vd : bool)
    (dims pos1 pos2 : list Z) (s : state) :
  (0 < Z.to_nat (dims !!! COIL_DIM))%nat →
  length pos1 = DIMS → length pos2 = DIMS →
  (∀ i : nat,
     i ≠ COIL_DIM → i ≠ PHS1_DIM → i ≠ SLICE_DIM → i ≠ PHS2_DIM →
     i ≠ TE_DIM → i ≠ TIME_DIM → i ≠ TIME2_DIM →
     pos1 !! i = pos2 !! i) →
  siemens_adc_read file vd dims pos1 s = siemens_adc_read file vd dims pos2 s.
Proof.
  intros HC Hl1 Hl2 Hagree. unfold siemens_adc_read, mbind, M_bind.
  destruct (xread file (sizeof_scan_hdr vd) s) as [scan sa|]; [|done].
  destruct (Z.to_nat (dims !!! COIL_DIM)) as [|n]; [lia|].
  cbn [adc_channels]. unfold mbind, M_bind.
  rewrite (adc_channel_handed file vd dims scan (<[COIL_DIM := 0]> pos1)
             (<[COIL_DIM := 0]> pos2)); [done | | |].
  - apply list_lookup_total_insert_eq. axes_lt.
  - apply list_lookup_total_insert_eq. axes_lt.
  - intros mdh. by apply adc_pos_handed.
Qed.

Lemma reader_overwrites_witness :
  let dims := main_dims [Opt_x 4; Opt_y 2] in
  let s := set_fd_pos 32 start_state in
  let pos1 := replicate DIMS 0 in
  let pos2 := <[PHS1_DIM := 9]> (<[COIL_DIM := 5]> (replicate DIMS 0)) in
  pos1 ≠ pos2 ∧
  siemens_adc_read Synth.file_vb false dims pos1 s
  = siemens_adc_read Synth.file_vb false dims pos2 s.
Proof.
  intros dims s pos1 pos2. split; [vm_compute; discriminate|].
  apply reader_overwrites.
  - vm_compute. lia.
  - apply length_replicate.
  - unfold pos2. rewrite !length_insert. apply length_replicate.
  - intros i Hc Hp _ _ _ _ _. unfold pos1, pos2.
    by rewrite !list_lookup_insert_ne by done.
Defined.

(** ** The identifiers of the leading header *)

(** X20. Of the leading header, the scan count serves the test for VD
    only, and the measurement and file identifiers serve nothing but the
    message that reports them.  Two files of the same length that differ
    only in bytes 4 to 15, with scan counts on the same side of 64 and, for
    VD, the same four bytes at the data offset, give the same run of
    [main]; in particular a VD file that announces several scans is read
    like one that announces a single scan. *)
Theorem header_ids_unused `{mri_dims} (opts : list cli_opt)
    (f1 f2 : list byte) (fuel : nat) :
  length f1 = length f2 →
  (∀ i : nat, ¬ (4 ≤ i < 16)%nat → f1 !! i = f2 !! i) →
  (field 4 4 f1 < 64 ↔ field 4 4 f2 < 64) →
  (field 0 4 f1 < 10000 → field 4 4 f1 < 64 →
   ∀ i : nat,
     (Z.to_nat (field 16 8 f1) ≤ i < Z.to_nat (field 16 8 f1) + 4)%nat →
     f1 !! i = f2 !! i) →
  main opts f1 fuel = main opts f2 fuel.
Proof.
  intros Hlen Hagree Hscans Hreread.
  assert (field 0 4 f2 = field 0 4 f1) as Hoff.
  { symmetry. apply (field_ext f1 f2). intros i Hi. apply Hagree. lia. }
  assert (field 16 8 f2 = field 16 8 f1) as Hdoff.
  { symmetry. apply (field_ext f1 f2). intros i Hi. apply Hagree. lia. }
  assert (∀ (vd : bool) (s : state),
            adc_loop f1 vd (main_dims opts) (adc_dims_of (main_dims opts))
              fuel (main_adcs opts) s
            = adc_loop f2 vd (main_dims opts) (adc_dims_of (main_dims opts))
                fuel (main_adcs opts) s) as Hloop.
  { intros vd s. apply adc_loop_ext; [done|]. intros k.
    set (p := rec_start vd (main_dims opts) (fd_pos s) k).
    assert (∀ c : nat, (p + 20 ≤ mdh_start vd (main_dims opts) p c)%nat)
      as Hmdh.
    { intros c. pose proof (chan_start_ge vd (main_dims opts) p c).
      unfold mdh_start. destruct vd; lia. }
    split.
    - unfold rec_pos, rec_mdh. do 2 f_equal. apply (slice_ext f1 f2).
      intros i Hi. apply Hagree. specialize (Hmdh 0%nat). lia.
    - intros c Hc. split.
      + rewrite !samples_rec_mdh. apply (field_ext f1 f2). intros i Hi.
        apply Hagree. specialize (Hmdh c). lia.
      + apply (slice_ext f1 f2). intros i Hi. apply Hagree.
        pose proof (sizeof_chan_hdr_pos vd).
        assert (32 ≤ sizeof_chan_hdr vd)%nat
          by (unfold sizeof_chan_hdr; destruct vd; lia).
        lia. }
  unfold main. cbv zeta.
  destruct (decide (length f1 < 24)%nat) as [Hshort|Hlong].
  { rewrite !setup_short by lia. by rewrite Hlen. }
  destruct (decide (field 0 4 f1 < 10000 ∧ field 4 4 f1 < 64))
    as [[Ho Hn]|Hvb].
  - specialize (Hreread Ho Hn).
    rewrite (setup_VD f1) by (done || lia).
    rewrite (setup_VD f2) by (rewrite ?Hoff; tauto || lia).
    rewrite Hdoff, <- Hlen.
    rewrite <- (field_ext f1 f2 (Z.to_nat (field 16 8 f1)) 4 Hreread).
    rewrite <- (slice_ext f1 f2 (Z.to_nat (field 16 8 f1)) 4 Hreread).
    repeat case_decide; done || apply Hloop.
  - rewrite (setup_VB f1) by (done || lia).
    rewrite (setup_VB f2) by (rewrite ?Hoff; tauto || lia).
    rewrite Hoff. apply Hloop.
Qed.

Lemma header_ids_unused_witness :
  let opts := [Opt_x 4; Opt_y 2] in
  let f1 := Synth.file_vb in
  let f2 := take 4 Synth.file_vb ++ replicate 12 xff ++ drop 16 Synth.file_vb in
  f1 ≠ f2 ∧ main opts f1 3 = main opts f2 3.
Proof.
  intros opts f1 f2. split; [vm_compute; discriminate|].
  destruct (differ_only_ok (λ i, (4 <=? i)%nat && (i <? 16)%nat) f1 f2)
    as [Hlen Hagree]; [vm_compute; reflexivity|].
  apply header_ids_unused; [done | | |].
  - intros i Hi. apply Hagree. apply andb_false_iff.
    rewrite Nat.leb_gt, Nat.ltb_ge. lia.
  - vm_compute. split; intros Hlt; discriminate Hlt.
  - intros _ Hn. exfalso. vm_compute in Hn. discriminate Hn.
Defined.
